(** * PocketPulse utilities: a shallow embedding and its verified properties

    The development follows the three Python modules under [src/utils]:
    [validation_utils.py], [format_utils.py] and [date_utils.py].

    Conventions of the embedding.
    - A Python call either returns a value or raises: [result A].
    - [str] is a list of 8-bit characters.  The character tables of the
      standard library (whitespace, digits, case mapping) are transcribed
      for ASCII; characters above 127 are carried through as caseless
      non-space, non-digit characters.  Where a property depends on what
      lies beyond ASCII, the function is also given over Unicode code points
      (module [Unicode]).
    - [int] is [Z].  A finite [float] is modelled by an exact rational
      ([Q]), together with the two infinities and NaN; rounding of binary
      floating point is outside the model, so that a rational which is
      not itself a float, such as 12.34, stands for the float nearest to
      it.
    - [Decimal] is a sign, a coefficient and an exponent, as [as_tuple()]
      shows it; the exponent range is the one of the C implementation on a
      64-bit platform.
    - [datetime] is the record of its seven calendar fields; the calendar
      arithmetic of the standard library ([_ymd2ord], [_ord2ymd],
      [__add__], [replace], ...) is transcribed with its range checks.
    - A regular expression is a syntax tree ([PyRe]); matching is by
      derivatives.
    - Formatting a float ([format(x, ',.2f')] and the like) rounds the
      exact value, ties to even, as the library does. *)

From Stdlib Require Import ZArith QArith List String Ascii Bool Lia Lqa Arith.
From Stdlib Require DecimalString DecimalPos Qabs.
Import ListNotations.

Local Open Scope Z_scope.

(** ** Outcomes of a call *)

Inductive exn : Type :=
| ValueError
| TypeError
| OverflowError
| IndexError
| InvalidOperation.

Inductive result (A : Type) : Type :=
| Ret (a : A)
| Raise (e : exn).

Arguments Ret {A} a.
Arguments Raise {A} e.

Definition bind {A B : Type} (r : result A) (k : A -> result B) : result B :=
  match r with
  | Ret a => k a
  | Raise e => Raise e
  end.

Notation "x <- r ;; k" := (bind r (fun x => k))
  (at level 61, r at next level, right associativity).

(** [try: r except ok => d]: the handler of a [try ... except] block that
    catches the exceptions selected by [ok]. *)
Definition catch {A : Type} (r : result A) (caught : exn -> bool) (d : A)
  : result A :=
  match r with
  | Ret a => Ret a
  | Raise e => if caught e then Ret d else Raise e
  end.

(** ** Strings *)

Module PyStr.

Definition str : Type := list ascii.

Definition lit (s : string) : str := list_ascii_of_string s.

Definition code (c : ascii) : Z := Z.of_N (N_of_ascii c).

Definition chr (n : Z) : ascii := ascii_of_N (Z.to_N n).

Definition in_range (lo hi : Z) (c : ascii) : bool :=
  (lo <=? code c) && (code c <=? hi).

(** [str.isspace] on one character: TAB..CR, FS..US and the space. *)
Definition isspace (c : ascii) : bool :=
  in_range 9 13 c || in_range 28 31 c || (code c =? 32).

(** [str.isdigit], and the class [\d] of [re]. *)
Definition isdigit (c : ascii) : bool := in_range 48 57 c.

Definition isupper (c : ascii) : bool := in_range 65 90 c.
Definition islower (c : ascii) : bool := in_range 97 122 c.

Definition lower_char (c : ascii) : ascii :=
  if isupper c then chr (code c + 32) else c.

Definition upper_char (c : ascii) : ascii :=
  if islower c then chr (code c - 32) else c.

Definition eqb_str (a b : str) : bool :=
  if list_eq_dec ascii_dec a b then true else false.

(** [s.lower()] *)
Definition lower (s : str) : str := map lower_char s.

(** [s.capitalize()]: first character upper-cased, the rest lower-cased. *)
Definition capitalize (s : str) : str :=
  match s with
  | [] => []
  | c :: r => upper_char c :: map lower_char r
  end.

Fixpoint dropwhile (p : ascii -> bool) (s : str) : str :=
  match s with
  | [] => []
  | c :: r => if p c then dropwhile p r else s
  end.

Definition lstrip (s : str) : str := dropwhile isspace s.
Definition rstrip (s : str) : str := rev (dropwhile isspace (rev s)).

(** [s.strip()] *)
Definition strip (s : str) : str := rstrip (lstrip s).

Fixpoint startswith (s p : str) : bool :=
  match p, s with
  | [], _ => true
  | _ :: _, [] => false
  | a :: p', b :: s' => if ascii_dec a b then startswith s' p' else false
  end.

(** [sub in s] *)
Fixpoint contains (sub s : str) : bool :=
  startswith s sub ||
  match s with
  | [] => false
  | _ :: r => contains sub r
  end.

(** [s.replace(c, '')] for a one-character [c]. *)
Definition remove_char (c : ascii) (s : str) : str :=
  filter (fun d => negb (Ascii.eqb d c)) s.

(** The slice [s[:n]] for an integer [n] of either sign. *)
Definition slice_to (s : str) (n : Z) : str :=
  let len := Z.of_nat (List.length s) in
  if n <? 0 then firstn (Z.to_nat (len + n)) s else firstn (Z.to_nat n) s.

(** The slice [s[n:]] for [0 <= n]. *)
Definition slice_from (s : str) (n : nat) : str := skipn n s.

(** [re.sub(r'\s+', ' ', s)]: every maximal run of whitespace becomes one
    space. *)
Fixpoint collapse_from (in_run : bool) (s : str) : str :=
  match s with
  | [] => []
  | c :: r =>
      if isspace c then
        if in_run then collapse_from true r
        else " "%char :: collapse_from true r
      else c :: collapse_from false r
  end.

Definition collapse_ws (s : str) : str := collapse_from false s.

(** [s.split()]: the maximal runs of non-whitespace characters. *)
Fixpoint split (s : str) : list str :=
  match s with
  | [] => []
  | c :: r =>
      if isspace c then split r
      else
        match r with
        | [] => [[c]]
        | d :: _ =>
            if isspace d then [c] :: split r
            else
              match split r with
              | w :: ws => (c :: w) :: ws
              | [] => [[c]]
              end
        end
  end.

(** [sep.join(l)] *)
Fixpoint join (sep : str) (l : list str) : str :=
  match l with
  | [] => []
  | [w] => w
  | w :: ws => w ++ sep ++ join sep ws
  end.

(** The longest prefix of characters satisfying [p], and the rest. *)
Fixpoint span (p : ascii -> bool) (s : str) : str * str :=
  match s with
  | [] => ([], [])
  | c :: r =>
      if p c then let (a, b) := span p r in (c :: a, b) else ([], s)
  end.

Definition digit_val (c : ascii) : Z := code c - 48.

(** The number written by a string of decimal digits ([int(s)]). *)
Definition digits_val (s : str) : Z :=
  fold_left (fun acc c => 10 * acc + digit_val c) s 0.

(** A word: not empty, and free of whitespace. *)
Definition word_ok (w : str) : Prop :=
  w <> [] /\ forallb (fun c => negb (isspace c)) w = true.

(** A string that [lower] leaves alone. *)
Definition lowered (w : str) : Prop := lower w = w.

End PyStr.

(** ** Regular expressions

    The part of [re] that an anchored pattern needs: character classes,
    sequence, alternation and repetition.  [matches r s] decides whether
    the whole of [s] is in the language of [r], by derivatives; for such
    patterns that is when the backtracking matcher of the library finds a
    match that ends at the end of [s]. *)

Module PyRe.
Import PyStr.

Inductive regex : Type :=
| Void
| Eps
| Class (p : ascii -> bool)
| Seq (r s : regex)
| Alt (r s : regex)
| Star (r : regex).

(** [c] for a literal character, [r+] and [r{2,}]. *)
Definition Chr (c : ascii) : regex := Class (Ascii.eqb c).
Definition Plus (r : regex) : regex := Seq r (Star r).
Definition TwoOrMore (r : regex) : regex := Seq r (Seq r (Star r)).

Fixpoint nullable (r : regex) : bool :=
  match r with
  | Void => false
  | Eps => true
  | Class _ => false
  | Seq a b => nullable a && nullable b
  | Alt a b => nullable a || nullable b
  | Star _ => true
  end.

Fixpoint deriv (c : ascii) (r : regex) : regex :=
  match r with
  | Void => Void
  | Eps => Void
  | Class p => if p c then Eps else Void
  | Seq a b =>
      if nullable a then Alt (Seq (deriv c a) b) (deriv c b)
      else Seq (deriv c a) b
  | Alt a b => Alt (deriv c a) (deriv c b)
  | Star a => Seq (deriv c a) (Star a)
  end.

Fixpoint matches (r : regex) (s : str) : bool :=
  match s with
  | [] => nullable r
  | c :: s' => matches (deriv c r) s'
  end.

(** [re.match('^' + r + '$', s)] as a truth value: the match starts at
    the start of [s]; [$] is the end of [s], or the place before a newline
    that ends [s]. *)
Definition match_anchored (r : regex) (s : str) : bool :=
  matches r s
  || match rev s with
     | c :: before => Ascii.eqb c "010" && matches r (rev before)
     | [] => false
     end.

End PyRe.

(** ** Numbers: [float] and [Decimal] *)

Module PyNum.
Import PyStr.

Inductive pyfloat : Type :=
| Fin (q : Q)
| Inf (negative : bool)
| NaN.

(** [10 ** e] as a rational, for an exponent of either sign. *)
Definition pow10 (e : Z) : Q :=
  if 0 <=? e then inject_Z (10 ^ e) else Qmake 1 (Z.to_pos (10 ^ (- e))).

Definition signed (negative : bool) (q : Q) : Q :=
  if negative then Qopp q else q.

(** The sign, the integer digits, the fraction digits and the exponent of
    a written number. *)
Definition parse_sign (s : str) : bool * str :=
  match s with
  | c :: r =>
      if Ascii.eqb c "-" then (true, r)
      else if Ascii.eqb c "+" then (false, r)
      else (false, s)
  | [] => (false, s)
  end.

Definition parse_exponent (s : str) : option Z :=
  match s with
  | [] => Some 0
  | c :: r =>
      if Ascii.eqb c "e" || Ascii.eqb c "E" then
        let (eneg, r1) := parse_sign r in
        let (ed, r2) := span isdigit r1 in
        match ed, r2 with
        | _ :: _, [] => Some (if eneg then - digits_val ed else digits_val ed)
        | _, _ => None
        end
      else None
  end.

Definition parse_finite (s : str) : option (str * str * Z) :=
  let (ip, s1) := span isdigit s in
  let (fp, s2) :=
    match s1 with
    | c :: r => if Ascii.eqb c "." then span isdigit r else ([], s1)
    | [] => ([], s1)
    end in
  match ip ++ fp with
  | [] => None
  | _ :: _ =>
      match parse_exponent s2 with
      | Some ex => Some (ip, fp, ex)
      | None => None
      end
  end.

(** The value [coefficient * 10 ** exponent] of a written number. *)
Definition literal_value (ip fp : str) (ex : Z) : Q :=
  Qmult (inject_Z (digits_val (ip ++ fp)))
        (pow10 (ex - Z.of_nat (List.length fp))).

(** [float(s)] for a string: surrounding whitespace, a sign, then a decimal
    number with an optional exponent, or [inf], [infinity], [nan] in any
    case.  (Digit grouping with underscores is not transcribed.) *)
Definition float_of_str (s : str) : result pyfloat :=
  let (negative, body) := parse_sign (strip s) in
  let word := lower body in
  if eqb_str word (lit "inf") || eqb_str word (lit "infinity") then
    Ret (Inf negative)
  else if eqb_str word (lit "nan") then Ret NaN
  else
    match parse_finite body with
    | Some (ip, fp, ex) => Ret (Fin (signed negative (literal_value ip fp ex)))
    | None => Raise ValueError
    end.

(** [float(n)] for an integer: the conversion overflows from
    [2**1024 - 2**970] on. *)
Definition float_of_int (n : Z) : result pyfloat :=
  if 2 ^ 1024 - 2 ^ 970 <=? Z.abs n then Raise OverflowError
  else Ret (Fin (inject_Z n)).

(** [x <= y] and [x > y] on floats; every comparison with NaN is false. *)
Definition fle (x : pyfloat) (y : Q) : bool :=
  match x with
  | Fin q => Qle_bool q y
  | Inf negative => negative
  | NaN => false
  end.

Definition fgt (x : pyfloat) (y : Q) : bool :=
  match x with
  | Fin q => negb (Qle_bool q y)
  | Inf negative => negb negative
  | NaN => false
  end.

(** Rounding of a rational to the nearest integer, ties to even. *)
Definition round_half_even (q : Q) : Z :=
  let n := Qnum q in
  let d := Zpos (Qden q) in
  let f := n / d in
  let r := n mod d in
  if 2 * r <? d then f
  else if d <? 2 * r then f + 1
  else if Z.even f then f else f + 1.

(** [round(x, 2)] *)
Definition round2 (x : pyfloat) : pyfloat :=
  match x with
  | Fin q => Fin (Qmake (round_half_even (Qmult q (inject_Z 100))) 100)
  | Inf _ | NaN => x
  end.

(** *** Decimal *)

Inductive decimal : Type :=
| DFin (negative : bool) (coefficient : Z) (exponent : Z)
| DInf (negative : bool)
| DNaN (negative : bool) (signaling : bool).

(** The exponent range of [decimal] (its C implementation, on a 64-bit
    platform): [MAX_EMAX] and [MIN_ETINY]. *)
Definition MAX_EMAX : Z := 999999999999999999.
Definition MIN_ETINY : Z := -1999999999999999997.

(** The number of digits of the coefficient written [digits]: leading
    zeros do not count, and zero has one digit. *)
Definition significant (digits : str) : Z :=
  Z.max 1 (Z.of_nat (List.length (dropwhile (Ascii.eqb "0") digits))).

(** [Decimal(s)]: whitespace is stripped and underscores are removed, then
    the text is a sign followed by a number with an optional exponent, an
    infinity, or a NaN with optional diagnostic digits (any case).  The
    conversion is exact, and refuses a number outside the exponent range:
    an adjusted exponent (the exponent of the leading digit) above
    [MAX_EMAX], or an exponent below [MIN_ETINY]. *)
Definition decimal_of_str (s : str) : result decimal :=
  let (negative, body) := parse_sign (remove_char "_" (strip s)) in
  let word := lower body in
  if eqb_str word (lit "inf") || eqb_str word (lit "infinity") then
    Ret (DInf negative)
  else if startswith word (lit "nan")
          && forallb isdigit (skipn 3 word) then
    Ret (DNaN negative false)
  else if startswith word (lit "snan")
          && forallb isdigit (skipn 4 word) then
    Ret (DNaN negative true)
  else
    match parse_finite body with
    | Some (ip, fp, ex) =>
        let exponent := ex - Z.of_nat (List.length fp) in
        if (MAX_EMAX <? exponent + significant (ip ++ fp) - 1)
           || (exponent <? MIN_ETINY)
        then Raise InvalidOperation
        else Ret (DFin negative (digits_val (ip ++ fp)) exponent)
    | None => Raise InvalidOperation
    end.

(** [d <= 0]: comparing a NaN signals [InvalidOperation]. *)
Definition decimal_le_zero (d : decimal) : result bool :=
  match d with
  | DFin negative c _ => Ret (negative || (c =? 0))
  | DInf negative => Ret negative
  | DNaN _ _ => Raise InvalidOperation
  end.

(** [d.as_tuple().exponent < n]: the exponent of an infinity is the
    string ['F'], and comparing it with an integer is a [TypeError]. *)
Definition decimal_exponent_lt (d : decimal) (n : Z) : result bool :=
  match d with
  | DFin _ _ e => Ret (e <? n)
  | DInf _ | DNaN _ _ => Raise TypeError
  end.

(** The least magnitude that is nearer to [2 ** 1024] than to the largest
    float: from there on a conversion to float overflows. *)
Definition FLOAT_OVERFLOW : Z := 2 ^ 1024 - 2 ^ 970.

(** [sys.float_info.max], the largest float. *)
Definition FLOAT_MAX : Z := 2 ^ 1024 - 2 ^ 971.

(** [float(d)]: the value of a finite [d], or an infinity when the value
    is beyond the floats. *)
Definition float_of_decimal (d : decimal) : result pyfloat :=
  match d with
  | DFin negative c e =>
      let magnitude := Qmult (inject_Z c) (pow10 e) in
      if Qle_bool (inject_Z FLOAT_OVERFLOW) magnitude
      then Ret (Inf negative)
      else Ret (Fin (signed negative magnitude))
  | DInf negative => Ret (Inf negative)
  | DNaN _ false => Ret NaN
  | DNaN _ true => Raise ValueError
  end.

(** [x < y] and [x > y] on two floats. *)
Definition float_lt (x y : pyfloat) : bool :=
  match x, y with
  | NaN, _ | _, NaN => false
  | Fin a, Fin b => negb (Qle_bool b a)
  | Fin _, Inf negative => negb negative
  | Inf negative, Fin _ => negative
  | Inf negative, Inf negative' => negative && negb negative'
  end.

Definition float_gt (x y : pyfloat) : bool := float_lt y x.

(** *** Numbers as text *)

(** [str(n)] for an integer. *)
Definition int_str (n : Z) : str :=
  list_ascii_of_string (DecimalString.NilZero.string_of_int (Z.to_int n)).

(** [s.zfill(width)] for a string of digits. *)
Definition zfill (width : nat) (s : str) : str :=
  repeat "0"%char (width - List.length s) ++ s.

(** The thousands separator of the format option [,]: digits in reverse,
    a comma after every third one that has a digit after it. *)
Fixpoint commas_rev (count : nat) (ds : str) : str :=
  match ds with
  | [] => []
  | d :: r =>
      match r with
      | [] => [d]
      | _ :: _ =>
          if (count =? 2)%nat then d :: ","%char :: commas_rev 0 r
          else d :: commas_rev (S count) r
      end
  end.

Definition group_thousands (digits : str) : str :=
  rev (commas_rev 0 (rev digits)).

(** [format(x, '.<places>f')], and [format(x, ',.<places>f')] when
    [grouping] is set: the value rounded to [places] decimals, ties to
    even; a minus sign for a negative value, also when it rounds to zero. *)
Definition format_fixed (places : nat) (grouping : bool) (x : pyfloat)
  : str :=
  match x with
  | Fin q =>
      let unit := 10 ^ Z.of_nat places in
      let magnitude := Z.abs (round_half_even (Qmult q (inject_Z unit))) in
      let whole := int_str (magnitude / unit) in
      (if Qle_bool 0 q then [] else lit "-")
      ++ (if grouping then group_thousands whole else whole)
      ++ (if (places =? 0)%nat then []
          else lit "." ++ zfill places (int_str (magnitude mod unit)))
  | Inf negative => if negative then lit "-inf" else lit "inf"
  | NaN => lit "nan"
  end.

(** [abs(x) >= n] and [x / n] for a float and a positive integer. *)
Definition float_abs_ge (x : pyfloat) (n : Z) : bool :=
  match x with
  | Fin q => Qle_bool (inject_Z n) (Qabs.Qabs q)
  | Inf _ => true
  | NaN => false
  end.

Definition float_div (x : pyfloat) (n : Z) : pyfloat :=
  match x with
  | Fin q => Fin (Qdiv q (inject_Z n))
  | Inf _ | NaN => x
  end.

End PyNum.

(** ** validation_utils.py *)

Module ValidationUtils.
Import PyStr PyNum.

(** The arguments [validate_amount] is called with: a string, an integer,
    a float, or something [float()] does not accept ([None]). *)
Inductive pyobj : Type :=
| PStr (s : str)
| PInt (n : Z)
| PFloat (f : pyfloat)
| PNone.

(** A 3-tuple outcome: success flag, normalized value, error message. *)
Definition outcome (A : Type) : Type := (bool * option A * option str)%type.

Definition failure {A : Type} (msg : string) : outcome A :=
  (false, None, Some (lit msg)).

Definition success {A : Type} (v : A) : outcome A := (true, Some v, None).

(** The characters that [re.sub(r'[^\d.-]', '', _)] keeps. *)
Definition amount_char (c : ascii) : bool :=
  isdigit c || Ascii.eqb c "." || Ascii.eqb c "-".

Definition is_value_or_type_error (e : exn) : bool :=
  match e with
  | ValueError | TypeError => true
  | _ => false
  end.

Definition check_amount (amount : pyfloat) : outcome pyfloat :=
  if fle amount 0 then failure "Amount must be greater than zero"
  else if fgt amount (inject_Z 999999999) then
    failure "Amount exceeds maximum limit"
  else success (round2 amount).

Definition validate_amount (amount_input : pyobj) : result (outcome pyfloat) :=
  catch
    (match amount_input with
     | PStr s =>
         let cleaned := filter amount_char (strip s) in
         match cleaned with
         | [] => Ret (failure "Amount cannot be empty")
         | _ :: _ =>
             amount <- float_of_str cleaned ;;
             Ret (check_amount amount)
         end
     | PInt n =>
         amount <- float_of_int n ;;
         Ret (check_amount amount)
     | PFloat f => Ret (check_amount f)
     | PNone => Raise TypeError
     end)
    is_value_or_type_error
    (failure "Invalid amount format").

Definition is_empty (s : str) : bool :=
  match s with
  | [] => true
  | _ :: _ => false
  end.

Definition validate_transaction_description (description : str)
  : outcome str :=
  if is_empty description || is_empty (strip description) then
    failure "Description cannot be empty"
  else
    let cleaned := strip description in
    if Z.of_nat (List.length cleaned) <? 3 then
      failure "Description must be at least 3 characters long"
    else if 500 <? Z.of_nat (List.length cleaned) then
      failure "Description cannot exceed 500 characters"
    else success (collapse_ws cleaned).

(** The class [[\x00-\x08\x0b\x0c\x0e-\x1f\x7f]]. *)
Definition is_control (c : ascii) : bool :=
  in_range 0 8 c || (code c =? 11) || (code c =? 12) || in_range 14 31 c
  || (code c =? 127).

Definition sanitize_input (input_text : str) (max_length : Z) : str :=
  if is_empty input_text then []
  else
    let sanitized := strip input_text in
    let sanitized := filter (fun c => negb (is_control c)) sanitized in
    let sanitized := slice_to sanitized max_length in
    collapse_ws sanitized.

Definition is_decimal_error (e : exn) : bool :=
  match e with
  | InvalidOperation | ValueError => true
  | _ => false
  end.

(** The text handed to [Decimal]: the stripped input without the currency
    symbol it may start with, and without commas. *)
Definition currency_text (amount_str currency_symbol : str) : str :=
  let cleaned := strip amount_str in
  let cleaned :=
    if startswith cleaned currency_symbol then
      strip (skipn (List.length currency_symbol) cleaned)
    else cleaned in
  remove_char "," cleaned.

Definition validate_currency_amount (amount_str currency_symbol : str)
  : result (outcome pyfloat) :=
  if is_empty amount_str || is_empty (strip amount_str) then
    Ret (failure "Amount is required")
  else
    let cleaned := currency_text amount_str currency_symbol in
    catch
      (amount <- decimal_of_str cleaned ;;
       nonpositive <- decimal_le_zero amount ;;
       if (nonpositive : bool) then
         Ret (failure "Amount must be greater than zero")
       else
         too_fine <- decimal_exponent_lt amount (-2) ;;
         if (too_fine : bool) then
           Ret (failure "Amount cannot have more than 2 decimal places")
         else
           value <- float_of_decimal amount ;;
           Ret (success value))
      is_decimal_error
      (failure "Invalid amount format").

(** The default currency symbol. *)
Definition default_symbol : str := lit "Rs.".

(** A 2-tuple outcome: success flag, error message. *)
Definition verdict : Type := (bool * option str)%type.

Definition rejected (msg : str) : verdict := (false, Some msg).

Definition accepted : verdict := (true, None).

Definition validate_category (category : str) (valid_categories : list str)
  : verdict :=
  if is_empty category || is_empty (strip category) then
    rejected (lit "Category must be selected")
  else if negb (existsb (eqb_str category) valid_categories) then
    rejected (lit "Invalid category. Must be one of: "
              ++ join (lit ", ") valid_categories)
  else accepted.

(** The classes [[a-zA-Z0-9._%+-]], [[a-zA-Z0-9.-]] and [[a-zA-Z]]. *)
Definition alpha_char (c : ascii) : bool := islower c || isupper c.

Definition local_char (c : ascii) : bool :=
  alpha_char c || isdigit c || Ascii.eqb c "." || Ascii.eqb c "_"
  || Ascii.eqb c "%" || Ascii.eqb c "+" || Ascii.eqb c "-".

Definition domain_char (c : ascii) : bool :=
  alpha_char c || isdigit c || Ascii.eqb c "." || Ascii.eqb c "-".

(** [^[a-zA-Z0-9._%+-]+@[a-zA-Z0-9.-]+\.[a-zA-Z]{2,}$] *)
Definition email_pattern : PyRe.regex :=
  PyRe.Seq (PyRe.Plus (PyRe.Class local_char))
    (PyRe.Seq (PyRe.Chr "@")
       (PyRe.Seq (PyRe.Plus (PyRe.Class domain_char))
          (PyRe.Seq (PyRe.Chr ".")
             (PyRe.TwoOrMore (PyRe.Class alpha_char))))).

Definition validate_email (email : str) : verdict :=
  if is_empty email || is_empty (strip email) then
    rejected (lit "Email address is required")
  else
    let email := lower (strip email) in
    if negb (PyRe.match_anchored email_pattern email) then
      rejected (lit "Invalid email address format")
    else if 254 <? Z.of_nat (List.length email) then
      rejected (lit "Email address is too long")
    else accepted.

(** [float(x)] *)
Definition float_of (x : pyobj) : result pyfloat :=
  match x with
  | PStr s => float_of_str s
  | PInt n => float_of_int n
  | PFloat f => Ret f
  | PNone => Raise TypeError
  end.

Section Messages.

(** [str(x)] for a float, as an f-string shows it. *)
Variable float_str : pyfloat -> str.

Definition validate_numeric_range (value : pyobj) (min_val max_val : pyfloat)
  : result verdict :=
  catch
    (num_value <- float_of value ;;
     if float_lt num_value min_val then
       Ret (rejected (lit "Value must be at least " ++ float_str min_val))
     else if float_gt num_value max_val then
       Ret (rejected (lit "Value cannot exceed " ++ float_str max_val))
     else Ret accepted)
    is_value_or_type_error
    (rejected (lit "Invalid numeric value")).

End Messages.

Definition validate_text_length (text : str) (min_length max_length : Z)
  : verdict :=
  let text := if is_empty text then [] else text in
  let length := Z.of_nat (List.length (strip text)) in
  if length <? min_length then
    rejected (lit "Text must be at least " ++ int_str min_length
              ++ lit " characters long")
  else if max_length <? length then
    rejected (lit "Text cannot exceed " ++ int_str max_length
              ++ lit " characters")
  else accepted.

(** The reserved characters: [<], [>], [:], the double quote, [|], [?]
    and [*]. *)
Definition reserved_chars : str := lit "<>:" ++ [chr 34] ++ lit "|?*".

Definition is_safe_filename (filename : str) : bool :=
  if is_empty filename || is_empty (strip filename) then false
  else if contains (lit "..") filename || contains (lit "/") filename
          || contains (lit "\") filename then false
  else if existsb (fun char => contains [char] filename) reserved_chars
  then false
  else if 255 <? Z.of_nat (List.length filename) then false
  else true.

End ValidationUtils.

(** ** format_utils.py *)

Module FormatUtils.
Import PyStr PyNum.

Definition lowercase_words : list str :=
  map lit ["a"; "an"; "and"; "as"; "at"; "but"; "by"; "for";
           "in"; "of"; "on"; "or"; "the"; "to"; "up"; "via"]%string.

Definition mem (w : str) (l : list str) : bool := existsb (eqb_str w) l.

(** The loop over [enumerate(words)], from index [i] on. *)
Fixpoint capitalize_from (i : nat) (words : list str) : list str :=
  match words with
  | [] => []
  | word :: rest =>
      (if (i =? 0)%nat || negb (mem word lowercase_words)
       then capitalize word else word)
      :: capitalize_from (S i) rest
  end.

Definition capitalize_words (text : str) : str :=
  match text with
  | [] => []
  | _ :: _ =>
      let words := split (lower text) in
      join (lit " ") (capitalize_from 0 words)
  end.

Definition default_country_code : str := lit "+91".

Definition format_phone_number (phone country_code : str) : str :=
  match phone with
  | [] => []
  | _ :: _ =>
      let digits := filter isdigit phone in
      if (List.length digits =? 10)%nat then
        country_code ++ lit " " ++ firstn 5 digits ++ lit " " ++ skipn 5 digits
      else if (List.length digits =? 11)%nat && startswith digits (lit "0")
      then
        let digits := skipn 1 digits in
        country_code ++ lit " " ++ firstn 5 digits ++ lit " " ++ skipn 5 digits
      else phone
  end.

Definition size_names : list str :=
  map lit ["B"; "KB"; "MB"; "GB"; "TB"]%string.

(** [l[i]] for an integer index of either sign. *)
Definition list_index {A : Type} (l : list A) (i : Z) : result A :=
  let len := Z.of_nat (List.length l) in
  let j := if i <? 0 then i + len else i in
  if (j <? 0) || (len <=? j) then Raise IndexError
  else
    match nth_error l (Z.to_nat j) with
    | Some a => Ret a
    | None => Raise IndexError
    end.

(** [int(math.floor(math.log(n, 1024)))]: a [ValueError] (math domain
    error) unless [n] is positive.  The logarithm is taken exactly; the
    floating-point quotient of the library agrees with it except a few
    units below [1024 ** 5], where it rounds up to 5. *)
Definition floor_log_1024 (n : Z) : result Z :=
  if n <=? 0 then Raise ValueError else Ret (Z.log2 n / 10).

(** [math.pow(1024, i)] overflows the float range from [i = 103] on. *)
Definition pow_1024 (i : Z) : result Z :=
  if 1024 <=? 10 * i then Raise OverflowError else Ret (1024 ^ i).

Definition show_Z (n : Z) : str :=
  list_ascii_of_string (DecimalString.NilZero.string_of_int (Z.to_int n)).

(** [repr] of a non-negative float with at most two decimals: the digits
    after the point without trailing zeros, but at least one. *)
Definition repr_round2 (x : pyfloat) : str :=
  match x with
  | Fin q =>
      let k := Qnum q * 100 / Zpos (Qden q) in
      let whole := k / 100 in
      let frac := k mod 100 in
      show_Z whole ++ lit "." ++
      (if frac mod 10 =? 0 then show_Z (frac / 10)
       else if frac <? 10 then lit "0" ++ show_Z frac
       else show_Z frac)
  | Inf negative => if negative then lit "-inf" else lit "inf"
  | NaN => lit "nan"
  end.

Definition format_file_size (size_bytes : Z) : result str :=
  if size_bytes =? 0 then Ret (lit "0 B")
  else
    i <- floor_log_1024 size_bytes ;;
    p <- pow_1024 i ;;
    size <- float_of_int size_bytes ;;
    let s :=
      match size with
      | Fin q => round2 (Fin (Qdiv q (inject_Z p)))
      | _ => size
      end in
    name <- list_index size_names i ;;
    Ret (repr_round2 s ++ lit " " ++ name).

Definition format_currency (amount : ValidationUtils.pyobj)
    (currency_symbol : str) (show_symbol use_commas : bool) : result str :=
  catch
    (num_amount <- ValidationUtils.float_of amount ;;
     let formatted := format_fixed 2 use_commas num_amount in
     if show_symbol then Ret (currency_symbol ++ lit " " ++ formatted)
     else Ret formatted)
    ValidationUtils.is_value_or_type_error
    (lit "0.00").

(** The precision of a format specification: a negative one does not
    parse, and one above [INT_MAX] is refused; both are a [ValueError]. *)
Definition precision (decimal_places : Z) : result nat :=
  if (decimal_places <? 0) || (2 ^ 31 - 1 <? decimal_places)
  then Raise ValueError
  else Ret (Z.to_nat decimal_places).

Definition format_number (number : ValidationUtils.pyobj)
    (decimal_places : Z) (use_commas : bool) : result str :=
  catch
    (x <- ValidationUtils.float_of number ;;
     places <- precision decimal_places ;;
     Ret (format_fixed places use_commas x))
    ValidationUtils.is_value_or_type_error
    (lit "0" ++
     (if 0 <? decimal_places
      then lit "." ++ repeat "0"%char (Z.to_nat decimal_places)
      else [])).

Definition format_large_number (number : ValidationUtils.pyobj)
  : result str :=
  catch
    (num <- ValidationUtils.float_of number ;;
     if float_abs_ge num 1000000000 then
       Ret (format_fixed 1 false (float_div num 1000000000) ++ lit "B")
     else if float_abs_ge num 1000000 then
       Ret (format_fixed 1 false (float_div num 1000000) ++ lit "M")
     else if float_abs_ge num 1000 then
       Ret (format_fixed 1 false (float_div num 1000) ++ lit "K")
     else Ret (format_fixed 0 false num))
    ValidationUtils.is_value_or_type_error
    (lit "0").

Definition truncate_text (text : str) (max_length : Z) (suffix : str) : str :=
  match text with
  | [] => []
  | _ :: _ =>
      if Z.of_nat (List.length text) <=? max_length then text
      else
        slice_to text (max_length - Z.of_nat (List.length suffix)) ++ suffix
  end.

Definition format_duration (seconds : Z) : str :=
  if seconds <? 60 then int_str seconds ++ lit "s"
  else if seconds <? 3600 then
    let minutes := seconds / 60 in
    let remaining_seconds := seconds mod 60 in
    int_str minutes ++ lit "m " ++ int_str remaining_seconds ++ lit "s"
  else
    let hours := seconds / 3600 in
    let remaining_minutes := (seconds mod 3600) / 60 in
    int_str hours ++ lit "h " ++ int_str remaining_minutes ++ lit "m".

(** The slice [l[:n]] of a list, for an integer [n] of either sign. *)
Definition list_slice_to {A : Type} (l : list A) (n : Z) : list A :=
  let len := Z.of_nat (List.length l) in
  if n <? 0 then firstn (Z.to_nat (len + n)) l else firstn (Z.to_nat n) l.

(** [items] is a list of strings, which [str(item)] leaves as they are. *)
Definition format_list_display (items : list str) (max_items : Z)
    (separator final_separator : str) : str :=
  match items with
  | [] => []
  | _ :: _ =>
      let str_items := items in
      match str_items with
      | [only] => only
      | [first; second] => first ++ final_separator ++ second
      | _ =>
          if Z.of_nat (List.length str_items) <=? max_items then
            join separator (removelast str_items)
            ++ final_separator ++ last str_items []
          else
            let displayed := list_slice_to str_items max_items in
            let remaining := Z.of_nat (List.length str_items) - max_items in
            join separator displayed
            ++ lit " and " ++ int_str remaining ++ lit " more"
      end
  end.

End FormatUtils.

(** ** Text beyond ASCII

    [capitalize_words] rests on case mapping, and beyond ASCII the case
    mapping of a character can be several characters.  This module has the
    function over Unicode code points.  The whitespace table is the whole
    of [str.isspace]; the case tables have the rows of ASCII and the row
    of U+0149 (LATIN SMALL LETTER N PRECEDED BY APOSTROPHE, whose title
    case is U+02BC U+004E); other code points are left as they are, which
    is what the library does with U+02BC (MODIFIER LETTER APOSTROPHE). *)

Module Unicode.

Definition ustr : Type := list Z.

Definition of_str (s : PyStr.str) : ustr := map PyStr.code s.

Definition within (lo hi c : Z) : bool := (lo <=? c) && (c <=? hi).

(** [str.isspace] on one code point. *)
Definition isspace (c : Z) : bool :=
  within 9 13 c || within 28 32 c || (c =? 133) || (c =? 160)
  || (c =? 5760) || within 8192 8202 c || (c =? 8232) || (c =? 8233)
  || (c =? 8239) || (c =? 8287) || (c =? 12288).

(** The lower-case mapping of one code point. *)
Definition lower_cp (c : Z) : list Z :=
  if within 65 90 c then [c + 32] else [c].

(** The title-case mapping of one code point. *)
Definition title_cp (c : Z) : list Z :=
  if within 97 122 c then [c - 32]
  else if c =? 329 then [700; 78]
  else [c].

(** [s.lower()] *)
Definition lower (s : ustr) : ustr := flat_map lower_cp s.

(** [s.capitalize()]: the first character in title case, the rest in
    lower case. *)
Definition capitalize (s : ustr) : ustr :=
  match s with
  | [] => []
  | c :: r => title_cp c ++ lower r
  end.

(** [s.split()] *)
Fixpoint split (s : ustr) : list ustr :=
  match s with
  | [] => []
  | c :: r =>
      if isspace c then split r
      else
        match r with
        | [] => [[c]]
        | d :: _ =>
            if isspace d then [c] :: split r
            else
              match split r with
              | w :: ws => (c :: w) :: ws
              | [] => [[c]]
              end
        end
  end.

(** [sep.join(l)] *)
Fixpoint join (sep : ustr) (l : list ustr) : ustr :=
  match l with
  | [] => []
  | [w] => w
  | w :: ws => w ++ sep ++ join sep ws
  end.

Definition eqb_ustr (a b : ustr) : bool :=
  if list_eq_dec Z.eq_dec a b then true else false.

Definition lowercase_words : list ustr :=
  map of_str FormatUtils.lowercase_words.

Definition mem (w : ustr) (l : list ustr) : bool := existsb (eqb_ustr w) l.

Fixpoint capitalize_from (i : nat) (words : list ustr) : list ustr :=
  match words with
  | [] => []
  | word :: rest =>
      (if (i =? 0)%nat || negb (mem word lowercase_words)
       then capitalize word else word)
      :: capitalize_from (S i) rest
  end.

Definition capitalize_words (text : ustr) : ustr :=
  match text with
  | [] => []
  | _ :: _ =>
      let words := split (lower text) in
      join [32] (capitalize_from 0 words)
  end.

End Unicode.

(** ** The [datetime] library *)

Module PyDatetime.

(** A naive [datetime] (its [tzinfo] is [None]), as [datetime.now()] and
    the arithmetic of this module give it. *)
Record datetime : Type := mk_datetime {
  year : Z;
  month : Z;
  day : Z;
  hour : Z;
  minute : Z;
  second : Z;
  microsecond : Z
}.

Definition MINYEAR : Z := 1.
Definition MAXYEAR : Z := 9999.
Definition MAXORDINAL : Z := 3652059.

Definition DAYS_IN_MONTH (m : Z) : Z :=
  match m with
  | 1 => 31 | 2 => 28 | 3 => 31 | 4 => 30 | 5 => 31 | 6 => 30
  | 7 => 31 | 8 => 31 | 9 => 30 | 10 => 31 | 11 => 30 | 12 => 31
  | _ => -1
  end.

Definition DAYS_BEFORE_MONTH (m : Z) : Z :=
  match m with
  | 1 => 0 | 2 => 31 | 3 => 59 | 4 => 90 | 5 => 120 | 6 => 151
  | 7 => 181 | 8 => 212 | 9 => 243 | 10 => 273 | 11 => 304 | 12 => 334
  | _ => -1
  end.

Definition is_leap (y : Z) : bool :=
  (y mod 4 =? 0) && (negb (y mod 100 =? 0) || (y mod 400 =? 0)).

Definition days_before_year (y : Z) : Z :=
  let y := y - 1 in
  y * 365 + y / 4 - y / 100 + y / 400.

Definition days_in_month (y m : Z) : Z :=
  if (m =? 2) && is_leap y then 29 else DAYS_IN_MONTH m.

Definition days_before_month (y m : Z) : Z :=
  DAYS_BEFORE_MONTH m + (if (2 <? m) && is_leap y then 1 else 0).

Definition ymd2ord (y m d : Z) : Z :=
  days_before_year y + days_before_month y m + d.

Definition DI400Y : Z := 146097.
Definition DI100Y : Z := 36524.
Definition DI4Y : Z := 1461.

Definition ord2ymd (n : Z) : Z * Z * Z :=
  let n := n - 1 in
  let n400 := n / DI400Y in
  let n := n mod DI400Y in
  let y := n400 * 400 + 1 in
  let n100 := n / DI100Y in
  let n := n mod DI100Y in
  let n4 := n / DI4Y in
  let n := n mod DI4Y in
  let n1 := n / 365 in
  let n := n mod 365 in
  let y := y + n100 * 100 + n4 * 4 + n1 in
  if (n1 =? 4) || (n100 =? 4) then (y - 1, 12, 31)
  else
    let leapyear := (n1 =? 3) && (negb (n4 =? 24) || (n100 =? 3)) in
    let m := Z.shiftr (n + 50) 5 in
    let preceding :=
      DAYS_BEFORE_MONTH m + (if (2 <? m) && leapyear then 1 else 0) in
    if n <? preceding then
      let m := m - 1 in
      let preceding :=
        preceding
        - (DAYS_IN_MONTH m + (if (m =? 2) && leapyear then 1 else 0)) in
      (y, m, n - preceding + 1)
    else (y, m, n - preceding + 1).

Definition between (lo x hi : Z) : bool := (lo <=? x) && (x <=? hi).

(** The checks of the constructor, [_check_date_fields] and
    [_check_time_fields]. *)
Definition valid_date (y m d : Z) : bool :=
  between MINYEAR y MAXYEAR && between 1 m 12
  && between 1 d (days_in_month y m).

Definition valid_time (h mi s us : Z) : bool :=
  between 0 h 23 && between 0 mi 59 && between 0 s 59
  && between 0 us 999999.

Definition valid (d : datetime) : bool :=
  valid_date (year d) (month d) (day d)
  && valid_time (hour d) (minute d) (second d) (microsecond d).

(** [datetime(y, m, d, h, mi, s, us)] *)
Definition new (y m d h mi s us : Z) : result datetime :=
  if valid_date y m d && valid_time h mi s us
  then Ret (mk_datetime y m d h mi s us)
  else Raise ValueError.

Definition default (o : option Z) (v : Z) : Z :=
  match o with
  | Some x => x
  | None => v
  end.

(** [dt.replace(year=..., ..., microsecond=...)]; [None] keeps a field. *)
Definition replace (dt : datetime) (y m d h mi s us : option Z)
  : result datetime :=
  new (default y (year dt)) (default m (month dt)) (default d (day dt))
      (default h (hour dt)) (default mi (minute dt))
      (default s (second dt)) (default us (microsecond dt)).

Definition toordinal (dt : datetime) : Z :=
  ymd2ord (year dt) (month dt) (day dt).

(** [dt.weekday()]: Monday is 0, Sunday is 6. *)
Definition weekday (dt : datetime) : Z := (toordinal dt + 6) mod 7.

(** *** timedelta *)

Record timedelta : Type := mk_timedelta {
  days : Z;
  seconds : Z;
  microseconds : Z
}.

Definition US_PER_SECOND : Z := 1000000.
Definition US_PER_DAY : Z := 86400 * US_PER_SECOND.

(** [timedelta(days, seconds, microseconds, minutes=, hours=, weeks=)] for
    integer arguments: the normalized triple, or [OverflowError] when the
    magnitude of the days exceeds 999999999. *)
Definition new_timedelta (d s us mi h w : Z) : result timedelta :=
  let total :=
    ((d + 7 * w) * 86400 + s + 60 * mi + 3600 * h) * US_PER_SECOND + us in
  let dd := total / US_PER_DAY in
  let rest := total mod US_PER_DAY in
  if 999999999 <? Z.abs dd then Raise OverflowError
  else Ret (mk_timedelta dd (rest / US_PER_SECOND) (rest mod US_PER_SECOND)).

Definition timedelta_days (n : Z) : result timedelta :=
  new_timedelta n 0 0 0 0 0.

Definition timedelta_weeks (n : Z) : result timedelta :=
  new_timedelta 0 0 0 0 0 n.

Definition timedelta_microseconds (n : Z) : result timedelta :=
  new_timedelta 0 0 n 0 0 0.

(** [-td] *)
Definition neg_timedelta (td : timedelta) : result timedelta :=
  new_timedelta (- days td) (- seconds td) (- microseconds td) 0 0 0.

(** [dt + td] *)
Definition add (dt : datetime) (td : timedelta) : result datetime :=
  delta <- new_timedelta (toordinal dt + days td)
                         (second dt + seconds td)
                         (microsecond dt + microseconds td)
                         (minute dt) (hour dt) 0 ;;
  let h := seconds delta / 3600 in
  let rem := seconds delta mod 3600 in
  let mi := rem / 60 in
  let s := rem mod 60 in
  if (0 <? days delta) && (days delta <=? MAXORDINAL) then
    let '(y, m, d) := ord2ymd (days delta) in
    Ret (mk_datetime y m d h mi s (microseconds delta))
  else Raise OverflowError.

(** [dt - td] *)
Definition sub (dt : datetime) (td : timedelta) : result datetime :=
  ntd <- neg_timedelta td ;;
  add dt ntd.

Definition fields (dt : datetime) : list Z :=
  [year dt; month dt; day dt; hour dt; minute dt; second dt; microsecond dt].

(** Comparison of two tuples of integers, as [_cmp] on tuples. *)
Fixpoint cmp_tuple (a b : list Z) : comparison :=
  match a, b with
  | [], [] => Eq
  | [], _ :: _ => Lt
  | _ :: _, [] => Gt
  | x :: a', y :: b' =>
      match x ?= y with
      | Eq => cmp_tuple a' b'
      | c => c
      end
  end.

(** [a <= b] *)
Definition le (a b : datetime) : bool :=
  match cmp_tuple (fields a) (fields b) with
  | Gt => false
  | _ => true
  end.

End PyDatetime.

(** ** date_utils.py *)

Module DateUtils.
Import PyStr PyDatetime.

Inductive unit_kind : Type := Day | Week | Month.

(** A match of [<kw> (\d+) (day|week|month)s?] that starts at the head of
    [s]: the number and the unit.  The digits are taken greedily; a shorter
    run cannot be followed by the space the pattern asks for. *)
Definition match_relative_at (kw s : str) : option (Z * unit_kind) :=
  if startswith s (kw ++ lit " ") then
    let (ds, r) := span isdigit (skipn (List.length kw + 1) s) in
    match ds, r with
    | _ :: _, sp :: u =>
        if Ascii.eqb sp " " then
          if startswith u (lit "day") then Some (digits_val ds, Day)
          else if startswith u (lit "week") then Some (digits_val ds, Week)
          else if startswith u (lit "month") then Some (digits_val ds, Month)
          else None
        else None
    | _, _ => None
    end
  else None.

(** [re.search]: the leftmost position with a match. *)
Fixpoint search_relative (kw s : str) : option (Z * unit_kind) :=
  match match_relative_at kw s with
  | Some r => Some r
  | None =>
      match s with
      | [] => None
      | _ :: r => search_relative kw r
      end
  end.

Definition offset (number : Z) (u : unit_kind) : result timedelta :=
  match u with
  | Day => timedelta_days number
  | Week => timedelta_weeks number
  | Month => timedelta_days (number * 30)
  end.

(** The first entry of the dictionary, in insertion order, whose key occurs
    in [text]. *)
Fixpoint first_match (patterns : list (str * datetime)) (text : str)
  : option datetime :=
  match patterns with
  | [] => None
  | (pattern, date_obj) :: rest =>
      if contains pattern text then Some date_obj
      else first_match rest text
  end.

Section Environment.

(** [dateutil.parser.parse], an external library. *)
Variable dateutil_parse : str -> result datetime.

(** The clock, [datetime.now()]. *)
Variable now : datetime.

Definition parse_natural_date (date_text : str)
    (reference_date : option datetime) : result datetime :=
  let reference_date :=
    match reference_date with
    | None => now
    | Some d => d
    end in
  let text := strip (lower date_text) in
  one <- timedelta_days 1 ;;
  yesterday <- sub reference_date one ;;
  tomorrow <- add reference_date one ;;
  two <- timedelta_days 2 ;;
  before_yesterday <- sub reference_date two ;;
  after_tomorrow <- add reference_date two ;;
  let relative_patterns :=
    [ (lit "today", reference_date);
      (lit "yesterday", yesterday);
      (lit "tomorrow", tomorrow);
      (lit "day before yesterday", before_yesterday);
      (lit "day after tomorrow", after_tomorrow) ] in
  match first_match relative_patterns text with
  | Some date_obj => Ret date_obj
  | None =>
      match search_relative (lit "last") text with
      | Some (number, u) =>
          td <- offset number u ;;
          sub reference_date td
      | None =>
          match search_relative (lit "next") text with
          | Some (number, u) =>
              td <- offset number u ;;
              add reference_date td
          | None =>
              match dateutil_parse text with
              | Ret d => Ret d
              | Raise _ => Ret reference_date
              end
          end
      end
  end.

Definition day_bounds (reference_date : datetime)
  : result (datetime * datetime) :=
  start <- replace reference_date None None None
                   (Some 0) (Some 0) (Some 0) (Some 0) ;;
  end_ <- replace reference_date None None None
                  (Some 23) (Some 59) (Some 59) (Some 999999) ;;
  Ret (start, end_).

Definition week_from (first : datetime) : result (datetime * datetime) :=
  start <- replace first None None None (Some 0) (Some 0) (Some 0) (Some 0) ;;
  span <- new_timedelta 6 59 999999 59 23 0 ;;
  end_ <- add start span ;;
  Ret (start, end_).

Definition get_date_range (period : str) (reference_date : option datetime)
  : result (datetime * datetime) :=
  let reference_date :=
    match reference_date with
    | None => now
    | Some d => d
    end in
  if eqb_str period (lit "today") then day_bounds reference_date
  else if eqb_str period (lit "week") then
    back <- timedelta_days (weekday reference_date) ;;
    first <- sub reference_date back ;;
    week_from first
  else if eqb_str period (lit "month") then
    start <- replace reference_date None None (Some 1)
                     (Some 0) (Some 0) (Some 0) (Some 0) ;;
    next_month <-
      (if month start <? 12
       then replace start None (Some (month start + 1)) None
                    None None None None
       else replace start (Some (year start + 1)) (Some 1) None
                    None None None None) ;;
    one <- timedelta_microseconds 1 ;;
    end_ <- sub next_month one ;;
    Ret (start, end_)
  else if eqb_str period (lit "year") then
    start <- replace reference_date None (Some 1) (Some 1)
                     (Some 0) (Some 0) (Some 0) (Some 0) ;;
    end_ <- replace reference_date None (Some 12) (Some 31)
                    (Some 23) (Some 59) (Some 59) (Some 999999) ;;
    Ret (start, end_)
  else if eqb_str period (lit "last_week") then
    back <- timedelta_days (weekday reference_date + 7) ;;
    first <- sub reference_date back ;;
    week_from first
  else if eqb_str period (lit "last_month") then
    start <-
      (if month reference_date =? 1
       then replace reference_date (Some (year reference_date - 1))
                    (Some 12) (Some 1) None None None None
       else replace reference_date None (Some (month reference_date - 1))
                    (Some 1) None None None None) ;;
    start <- replace start None None None (Some 0) (Some 0) (Some 0) (Some 0) ;;
    first <- replace reference_date None None (Some 1)
                     (Some 0) (Some 0) (Some 0) (Some 0) ;;
    one <- timedelta_microseconds 1 ;;
    end_ <- sub first one ;;
    Ret (start, end_)
  else day_bounds reference_date.

End Environment.

(** The [while] loop of [calculate_business_days]; [None] when the fuel
    runs out. *)
Fixpoint business_loop (fuel : nat) (current_date end_date : datetime)
    (business_days : Z) : option (result Z) :=
  match fuel with
  | O => None
  | S fuel' =>
      if le current_date end_date then
        let business_days :=
          if weekday current_date <? 5 then business_days + 1
          else business_days in
        match (one <- timedelta_days 1 ;; add current_date one) with
        | Ret next => business_loop fuel' next end_date business_days
        | Raise e => Some (Raise e)
        end
      else Some (Ret business_days)
  end.

(** The loop advances by one day per turn and stops past [end_date]: one
    turn per day of the span of the two dates, and the turn that leaves. *)
Definition loop_bound (start_date end_date : datetime) : nat :=
  S (Z.to_nat (toordinal end_date - toordinal start_date + 1)).

Definition calculate_business_days (start_date end_date : datetime)
  : option (result Z) :=
  business_loop (loop_bound start_date end_date) start_date end_date 0.

Definition is_weekend (date_obj : datetime) : bool := 5 <=? weekday date_obj.

Definition months : list str :=
  map lit ["January"; "February"; "March"; "April"; "May"; "June";
           "July"; "August"; "September"; "October"; "November";
           "December"]%string.

Definition get_month_name (month_num : Z) : result str :=
  if (1 <=? month_num) && (month_num <=? 12)
  then FormatUtils.list_index months (month_num - 1)
  else Ret (lit "Invalid").

End DateUtils.

(** * Notions used by the statements *)

Module Notions.
Import PyStr PyNum PyDatetime ValidationUtils FormatUtils DateUtils.

(** An outcome is well formed when the error message is present exactly
    on failure and the normalized value exactly on success. *)
Definition well_formed {A : Type} (o : outcome A) : Prop :=
  let '(ok, value, message) := o in
  (message <> None <-> ok = false) /\ (value <> None <-> ok = true).

(** A character of ASCII. *)
Definition is_ascii (c : ascii) : bool := code c <? 128.

(** A rational with at most two decimal digits: a whole number of
    hundredths. *)
Definition two_decimals (v : Q) : Prop :=
  exists cents : Z, Qeq v (Qmake cents 100).

(** A number in plain decimal notation: an optional minus sign, at least
    one integer digit, and optionally a point followed by digits. *)
Definition written (negative : bool) (ip : str) (frac : option str) : str :=
  (if negative then lit "-" else [])
  ++ ip
  ++ match frac with
     | Some fp => lit "." ++ fp
     | None => []
     end.

Definition frac_digits (frac : option str) : str :=
  match frac with
  | Some fp => fp
  | None => []
  end.

(** A number that [float()] takes as it is: a float, or an integer of
    magnitude at most [2 ** 53], which a float holds without rounding. *)
Inductive exact_number : pyobj -> pyfloat -> Prop :=
| exact_of_float (f : pyfloat) : exact_number (PFloat f) f
| exact_of_int (n : Z) :
    Z.abs n <= 2 ^ 53 -> exact_number (PInt n) (Fin (inject_Z n)).

(** *** Numbers as they are written *)

(** A sign: none, [+] or [-]. *)
Inductive sign_text : str -> bool -> Prop :=
| sign_none : sign_text [] false
| sign_plus : sign_text (lit "+") false
| sign_minus : sign_text (lit "-") true.

(** What follows the integer digits: nothing, or a point and the fraction
    digits. *)
Inductive fraction_text : str -> str -> Prop :=
| fraction_none : fraction_text [] []
| fraction_some (fp : str) : fraction_text (lit "." ++ fp) fp.

(** The exponent part and the exponent it writes: nothing, or [e] or [E],
    a sign and at least one digit. *)
Inductive exponent_text : str -> Z -> Prop :=
| exponent_none : exponent_text [] 0
| exponent_some (mark : ascii) (sign digits : str) (negative : bool) :
    mark = "e"%char \/ mark = "E"%char ->
    sign_text sign negative ->
    digits <> [] -> forallb isdigit digits = true ->
    exponent_text (mark :: sign ++ digits)
                  (if negative then - digits_val digits
                   else digits_val digits).

(** A decimal numeral: a sign, integer digits, a fraction and an exponent
    part, with at least one digit before the exponent part.
    [numeral text negative ip fp ex]: [text] is such a numeral, with the
    integer digits [ip], the fraction digits [fp] and the exponent [ex]
    written. *)
Inductive numeral : str -> bool -> str -> str -> Z -> Prop :=
| numeral_intro (sign ip point fp tail : str) (negative : bool) (ex : Z) :
    sign_text sign negative ->
    forallb isdigit ip = true -> forallb isdigit fp = true ->
    ip ++ fp <> [] ->
    fraction_text point fp ->
    exponent_text tail ex ->
    numeral (sign ++ ip ++ point ++ tail) negative ip fp ex.

(** The coefficient and the exponent of a numeral, as [Decimal] keeps
    them: [1.50] is [150 * 10 ** -2]. *)
Definition coefficient (ip fp : str) : Z := digits_val (ip ++ fp).

Definition exponent (fp : str) (ex : Z) : Z := ex - Z.of_nat (List.length fp).

(** Digits that single underscores may group, as in [1_000], and the
    digits themselves. *)
Inductive grouped : str -> str -> Prop :=
| grouped_last (d : ascii) :
    isdigit d = true -> grouped [d] [d]
| grouped_digit (d : ascii) (text digits : str) :
    isdigit d = true -> grouped text digits ->
    grouped (d :: text) (d :: digits)
| grouped_underscore (d : ascii) (text digits : str) :
    isdigit d = true -> grouped text digits ->
    grouped (d :: "_"%char :: text) (d :: digits).

(** A number in plain decimal notation, as [float()] takes it: a sign,
    then digits ([5]), digits and a point ([5.]), a point and digits
    ([.5]), or digits around a point ([5.5]); no exponent.
    [plain_number text negative ip fp]: [text] is such a number, with the
    integer digits [ip] and the fraction digits [fp]. *)
Inductive plain_number : str -> bool -> str -> str -> Prop :=
| plain_whole (sign it ip : str) (negative : bool) :
    sign_text sign negative -> grouped it ip ->
    plain_number (sign ++ it) negative ip []
| plain_point_last (sign it ip : str) (negative : bool) :
    sign_text sign negative -> grouped it ip ->
    plain_number (sign ++ it ++ lit ".") negative ip []
| plain_point_first (sign ft fp : str) (negative : bool) :
    sign_text sign negative -> grouped ft fp ->
    plain_number (sign ++ lit "." ++ ft) negative [] fp
| plain_point_between (sign it ip ft fp : str) (negative : bool) :
    sign_text sign negative -> grouped it ip -> grouped ft fp ->
    plain_number (sign ++ it ++ lit "." ++ ft) negative ip fp.

(** The whitespace that [str.strip()] takes off an 8-bit string: the
    ASCII whitespace, the next-line character and the no-break space. *)
Definition blank (c : ascii) : bool :=
  isspace c || (code c =? 133) || (code c =? 160).

(** *** Floats *)

(** [2 ** e] as a rational, for an exponent of either sign. *)
Definition pow2 (e : Z) : Q :=
  if 0 <=? e then inject_Z (2 ^ e) else Qmake 1 (Z.to_pos (2 ^ (- e))).

(** The finite floats: a significand of 53 bits times a power of two
    from [2 ** -1074] to [2 ** 971]. *)
Definition is_float (q : Q) : Prop :=
  exists m e : Z,
    Z.abs m < 2 ^ 53 /\ -1074 <= e <= 971
    /\ Qeq q (Qmult (inject_Z m) (pow2 e)).

(** No float is nearer to [v] than [q] is.  So it is for the float [q]
    that a literal of value [v] denotes, as the float [12.34] for the
    number 12.34; and for [q = v]. *)
Definition no_float_nearer (v q : Q) : Prop :=
  forall q', is_float q' ->
    Qle (Qabs.Qabs (Qminus q v)) (Qabs.Qabs (Qminus q' v)).

(** [denotes x v]: the argument [x] of [validate_amount] is a number of
    value [v].  An integer counts when [float()] takes it; a float is
    the float of a literal of value [v]; a string is a number in plain
    decimal notation, possibly with whitespace around. *)
Inductive denotes : pyobj -> Q -> Prop :=
| denotes_int (n : Z) :
    Z.abs n < 2 ^ 1024 - 2 ^ 970 ->
    denotes (PInt n) (inject_Z n)
| denotes_float (q v : Q) :
    no_float_nearer v q ->
    denotes (PFloat (Fin q)) v
| denotes_str (text before after : str) (negative : bool) (ip fp : str) :
    plain_number text negative ip fp ->
    forallb blank before = true ->
    forallb blank after = true ->
    denotes (PStr (before ++ text ++ after))
            (signed negative (literal_value ip fp 0)).

(** *** The calendar *)

(** The month and the day of the [n]-th day (from 0) of a year: the last
    steps of [ord2ymd]. *)
Definition month_day (leapyear : bool) (n : Z) : Z * Z :=
  let m := Z.shiftr (n + 50) 5 in
  let preceding :=
    DAYS_BEFORE_MONTH m + (if (2 <? m) && leapyear then 1 else 0) in
  if n <? preceding then
    let m := m - 1 in
    let preceding :=
      preceding
      - (DAYS_IN_MONTH m + (if (m =? 2) && leapyear then 1 else 0)) in
    (m, n - preceding + 1)
  else (m, n - preceding + 1).

Definition month_length (leapyear : bool) (m : Z) : Z :=
  if (m =? 2) && leapyear then 29 else DAYS_IN_MONTH m.

Definition month_start (leapyear : bool) (m : Z) : Z :=
  DAYS_BEFORE_MONTH m + (if (2 <? m) && leapyear then 1 else 0).

Definition year_length (leapyear : bool) : Z :=
  if leapyear then 366 else 365.

Definition month_day_ok (leapyear : bool) (n : Z) : bool :=
  let '(m, d) := month_day leapyear n in
  (1 <=? m) && (m <=? 12) && (1 <=? d) && (d <=? month_length leapyear m)
  && (month_start leapyear m + d =? n + 1).

Definition upto (n : nat) : list Z := map Z.of_nat (seq 0 n).

(** The order of dates. *)
Definition date_lt (y m d y' m' d' : Z) : Prop :=
  y < y' \/ (y = y' /\ (m < m' \/ (m = m' /\ d < d'))).

(** The time of day, in microseconds since midnight. *)
Definition tod (dt : datetime) : Z :=
  ((hour dt * 60 + minute dt) * 60 + second dt) * 1000000 + microsecond dt.

(** The instant, in microseconds on the time line. *)
Definition instant (dt : datetime) : Z :=
  toordinal dt * 86400000000 + tod dt.

(** The day of ordinal [n] at the time of day of [dt]. *)
Definition at_day (n : Z) (dt : datetime) : datetime :=
  let '(y, m, d) := ord2ymd n in
  mk_datetime y m d (hour dt) (minute dt) (second dt) (microsecond dt).

(** [dt] moved by [k] days. *)
Definition plus_days (dt : datetime) (k : Z) : datetime :=
  at_day (toordinal dt + k) dt.

(** The dictionary built by [parse_natural_date], in insertion order. *)
Definition relative_patterns (ref : datetime) : list (str * datetime) :=
  [ (lit "today", ref);
    (lit "yesterday", plus_days ref (-1));
    (lit "tomorrow", plus_days ref 1);
    (lit "day before yesterday", plus_days ref (-2));
    (lit "day after tomorrow", plus_days ref 2) ].

(** *** Business days *)

(** Monday to Friday, for the day of ordinal [o]. *)
Definition is_business_day (o : Z) : bool := (o + 6) mod 7 <? 5.

(** The business days among the [n] days from the day [first] on. *)
Fixpoint count_business (first : Z) (n : nat) : Z :=
  match n with
  | O => 0
  | S n' =>
      (if is_business_day first then 1 else 0)
      + count_business (first + 1) n'
  end.

(** The business days among the calendar days [first .. last]. *)
Definition business_days_between (first last : Z) : Z :=
  count_business first (Z.to_nat (last - first + 1)).

(** The last day the loop of [calculate_business_days] can count: the day
    of [end_date], unless [start_date] is later in its day than [end_date]
    is in its own. *)
Definition last_counted (start_date end_date : datetime) : Z :=
  if tod start_date <=? tod end_date then toordinal end_date
  else toordinal end_date - 1.

(** *** Regular languages *)

(** The words of a regular expression. *)
Inductive lang : PyRe.regex -> str -> Prop :=
| lang_eps : lang PyRe.Eps []
| lang_class (p : ascii -> bool) (c : ascii) :
    p c = true -> lang (PyRe.Class p) [c]
| lang_seq (a b : PyRe.regex) (s t : str) :
    lang a s -> lang b t -> lang (PyRe.Seq a b) (s ++ t)
| lang_alt_l (a b : PyRe.regex) (s : str) :
    lang a s -> lang (PyRe.Alt a b) s
| lang_alt_r (a b : PyRe.regex) (s : str) :
    lang b s -> lang (PyRe.Alt a b) s
| lang_star_nil (a : PyRe.regex) : lang (PyRe.Star a) []
| lang_star_app (a : PyRe.regex) (s t : str) :
    lang a s -> lang (PyRe.Star a) t -> lang (PyRe.Star a) (s ++ t).

(** *** Shapes of text *)

(** [s.upper()] *)
Definition upper (s : str) : str := map upper_char s.

Definition starts_clean (s : str) : bool :=
  match s with
  | [] => true
  | c :: _ => negb (isspace c)
  end.

(** No whitespace at either end. *)
Definition trimmed (s : str) : Prop :=
  starts_clean s = true /\ starts_clean (rev s) = true.

(** Every whitespace character is a space, and no two are adjacent;
    [in_run] tells that the character before was one. *)
Fixpoint single_spaced (in_run : bool) (s : str) : bool :=
  match s with
  | [] => true
  | c :: r =>
      if isspace c then
        Ascii.eqb c " " && negb in_run && single_spaced true r
      else single_spaced false r
  end.

(** An address [local@domain.tld]. *)
Definition email_shape (s : str) : Prop :=
  exists local_part domain tld : str,
    s = local_part ++ lit "@" ++ domain ++ lit "." ++ tld
    /\ local_part <> [] /\ forallb local_char local_part = true
    /\ domain <> [] /\ forallb domain_char domain = true
    /\ (2 <= List.length tld)%nat /\ forallb alpha_char tld = true.

(** The characters a safe file name is free of. *)
Definition unsafe_chars : str := lit "/\" ++ reserved_chars.

(** *** Amounts of money *)

(** [core] is [s] without the whitespace around it. *)
Definition stripped_to (s core : str) : Prop :=
  exists before after,
    s = before ++ core ++ after
    /\ forallb isspace before = true /\ forallb isspace after = true
    /\ trimmed core.

(** The part of an amount text that holds the number: the text without
    the whitespace around it and, when it starts with the currency symbol,
    without the symbol and the whitespace after it. *)
Inductive amount_part (symbol s : str) : str -> Prop :=
| amount_after_symbol (rest body : str) :
    stripped_to s (symbol ++ rest) -> stripped_to rest body ->
    amount_part symbol s body
| amount_without_symbol (core : str) :
    stripped_to s core -> (forall rest, core <> symbol ++ rest) ->
    amount_part symbol s core.

(** [s] reads as a decimal numeral: its amount part, once the commas are
    taken out of it, then the whitespace around and the underscores out
    of what is left, is the numeral of sign [negative], digits [ip] and
    [fp], and exponent [ex]. *)
Definition reads_amount (symbol s : str) (negative : bool) (ip fp : str)
    (ex : Z) : Prop :=
  exists body text,
    amount_part symbol s body
    /\ stripped_to (remove_char "," body) text
    /\ numeral (remove_char "_" text) negative ip fp ex.

(** The magnitudes of the finite floats. *)
Definition in_float_range (q : Q) : Prop :=
  Qle (Qabs.Qabs q) (inject_Z FLOAT_MAX).

(** A number that is not negative, as a float: itself, or the infinity
    when it is beyond the floats. *)
Definition as_float (q : Q) : pyfloat :=
  if Qle_bool (inject_Z FLOAT_OVERFLOW) q then Inf false else Fin q.

(** The hundredths of a finite float after rounding to two decimals. *)
Definition cents (q : Q) : Z := round_half_even (Qmult q (inject_Z 100)).

(** The digits [format_fixed 2] writes before and after the point. *)
Definition whole_digits (q : Q) : str := int_str (Z.abs (cents q) / 100).

Definition hundredth_digits (q : Q) : str :=
  zfill 2 (int_str (Z.abs (cents q) mod 100)).

(** *** Days and weeks *)

(** The first and the last instant of the day of ordinal [n]. *)
Definition day_start (n : Z) : datetime :=
  let '(y, m, d) := ord2ymd n in mk_datetime y m d 0 0 0 0.

Definition day_end (n : Z) : datetime :=
  let '(y, m, d) := ord2ymd n in mk_datetime y m d 23 59 59 999999.

(** The ordinal of the Monday of the week of [dt]. *)
Definition monday_of (dt : datetime) : Z := toordinal dt - weekday dt.

(** The month before the month of [dt]: its year and its number. *)
Definition previous_month (dt : datetime) : Z * Z :=
  if month dt =? 1 then (year dt - 1, 12) else (year dt, month dt - 1).

(** The periods [get_date_range] knows. *)
Definition known_periods : list str :=
  map lit ["today"; "week"; "month"; "year"; "last_week"; "last_month"]%string.

(** *** Relative phrases *)

Definition unit_word (u : unit_kind) : str :=
  match u with
  | Day => lit "day"
  | Week => lit "week"
  | Month => lit "month"
  end.

Definition unit_days (u : unit_kind) : Z :=
  match u with
  | Day => 1
  | Week => 7
  | Month => 30
  end.

(** [<kw> <n> <unit>] or [<kw> <n> <unit>s], as in [last 3 weeks]. *)
Definition relative_phrase (kw : str) (n : Z) (u : unit_kind)
    (plural : bool) : str :=
  kw ++ lit " " ++ int_str n ++ lit " " ++ unit_word u
  ++ (if plural then lit "s" else []).

(** [c] does not occur in [s]. *)
Definition absent (c : ascii) (s : str) : Prop :=
  forallb (fun d => negb (Ascii.eqb d c)) s = true.

(** [q] rounded to [places] decimals, ties to even. *)
Definition rounded_to (places : nat) (q : Q) : Q :=
  Qmake (round_half_even (Qmult q (inject_Z (10 ^ Z.of_nat places))))
        (Z.to_pos (10 ^ Z.of_nat places)).

End Notions.

(** * Properties *)

(** ** Facts about the string operations *)

Module PyStrFacts.
Import PyStr.

Ltac ascii_cases c := destruct c as [[] [] [] [] [] [] [] []].

Lemma lower_char_idem (c : ascii) : lower_char (lower_char c) = lower_char c.
Proof. ascii_cases c; reflexivity. Qed.

Lemma lower_upper_char (c : ascii) : lower_char (upper_char c) = lower_char c.
Proof. ascii_cases c; reflexivity. Qed.

Lemma filter_all {A : Type} (p : A -> bool) (l : list A) :
  forallb p l = true -> filter p l = l.
Proof.
  induction l as [|a l IH]; simpl; [reflexivity|].
  intros H. apply andb_true_iff in H. destruct H as [Ha Hl].
  rewrite Ha, (IH Hl). reflexivity.
Qed.

Lemma split_words (s : str) : Forall word_ok (split s).
Proof.
  induction s as [|c r IH]; simpl; [constructor|].
  destruct (isspace c) eqn:Hc; [assumption|].
  destruct r as [|d r'].
  - constructor; [|constructor].
    split; [discriminate|]. simpl. rewrite Hc. reflexivity.
  - destruct (isspace d) eqn:Hd.
    + constructor; [|assumption].
      split; [discriminate|]. simpl. rewrite Hc. reflexivity.
    + destruct (split (d :: r')) as [|w ws].
      * constructor; [|constructor].
        split; [discriminate|]. simpl. rewrite Hc. reflexivity.
      * inversion IH as [|? ? [Hw1 Hw2] Hws]; subst.
        constructor; [|assumption].
        split; [discriminate|]. simpl. rewrite Hc, Hw2. reflexivity.
Qed.

Lemma concat_split (s : str) :
  List.concat (split s) = filter (fun c => negb (isspace c)) s.
Proof.
  induction s as [|c r IH]; [reflexivity|].
  cbn [split filter].
  destruct (isspace c) eqn:Hc; cbn [negb]; [assumption|].
  destruct r as [|d r']; [reflexivity|].
  cbv beta iota.
  destruct (isspace d) eqn:Hd.
  - cbn [List.concat app]. rewrite IH. reflexivity.
  - destruct (split (d :: r')) as [|w ws]; cbn [List.concat app] in *;
      rewrite <- IH; reflexivity.
Qed.

Lemma split_nonspace (c d : ascii) (r : str) :
  isspace c = false -> isspace d = false ->
  split (c :: d :: r) =
  match split (d :: r) with
  | w :: ws => (c :: w) :: ws
  | [] => [[c]]
  end.
Proof. intros Hc Hd. cbn [split]. rewrite Hc, Hd. reflexivity. Qed.

Lemma split_word_then_space (w t : str) :
  word_ok w -> split (w ++ " "%char :: t) = w :: split t.
Proof.
  intros [Hne Hw]. induction w as [|c w IH]; [congruence|].
  simpl in Hw. apply andb_true_iff in Hw. destruct Hw as [Hc Hw].
  apply negb_true_iff in Hc.
  destruct w as [|c2 w'].
  - simpl. rewrite Hc. reflexivity.
  - assert (Hc2 : isspace c2 = false).
    { simpl in Hw. apply andb_true_iff in Hw. destruct Hw as [H _].
      apply negb_true_iff in H. exact H. }
    change ((c :: c2 :: w') ++ " "%char :: t)
      with (c :: c2 :: (w' ++ " "%char :: t)).
    rewrite split_nonspace by assumption.
    change (c2 :: (w' ++ " "%char :: t)) with ((c2 :: w') ++ " "%char :: t).
    rewrite IH; [reflexivity|discriminate|exact Hw].
Qed.

Lemma split_word (w : str) : word_ok w -> split w = [w].
Proof.
  intros [Hne Hw]. induction w as [|c w IH]; [congruence|].
  simpl in Hw. apply andb_true_iff in Hw. destruct Hw as [Hc Hw].
  apply negb_true_iff in Hc.
  destruct w as [|c2 w'].
  - simpl. rewrite Hc. reflexivity.
  - assert (Hc2 : isspace c2 = false).
    { simpl in Hw. apply andb_true_iff in Hw. destruct Hw as [H _].
      apply negb_true_iff in H. exact H. }
    rewrite split_nonspace by assumption.
    rewrite IH; [reflexivity|discriminate|exact Hw].
Qed.

Lemma split_join (ws : list str) :
  Forall word_ok ws -> split (join (lit " ") ws) = ws.
Proof.
  induction 1 as [|w ws Hw Hws IH]; [reflexivity|].
  destruct ws as [|w2 ws'].
  - simpl. apply split_word. exact Hw.
  - change (join (lit " ") (w :: w2 :: ws'))
      with (w ++ " "%char :: join (lit " ") (w2 :: ws')).
    rewrite split_word_then_space by exact Hw.
    rewrite IH. reflexivity.
Qed.

Lemma lower_app (a b : str) : lower (a ++ b) = lower a ++ lower b.
Proof. apply map_app. Qed.

Lemma lower_join (ws : list str) :
  lower (join (lit " ") ws) = join (lit " ") (map lower ws).
Proof.
  induction ws as [|w ws IH]; [reflexivity|].
  destruct ws as [|w2 ws']; [reflexivity|].
  change (join (lit " ") (w :: w2 :: ws'))
    with (w ++ lit " " ++ join (lit " ") (w2 :: ws')).
  rewrite !lower_app, IH. reflexivity.
Qed.

Lemma lower_lowered (s : str) : lowered (lower s).
Proof.
  unfold lowered, lower. rewrite map_map. apply map_ext.
  intros c. apply lower_char_idem.
Qed.

Lemma lowered_split (s : str) : lowered s -> Forall lowered (split s).
Proof.
  intros Hs. apply Forall_forall. intros w Hw.
  unfold lowered, lower. rewrite <- (map_id w) at 2.
  apply map_ext_in. intros c Hc.
  assert (Hin : In c s).
  { assert (H : In c (List.concat (split s))).
    { apply in_concat. exists w. split; assumption. }
    rewrite concat_split in H. apply filter_In in H. tauto. }
  unfold lowered, lower in Hs. rewrite <- Hs in Hin.
  apply in_map_iff in Hin. destruct Hin as [c' [Hc' _]].
  rewrite <- Hc'. apply lower_char_idem.
Qed.

Lemma lower_capitalize (w : str) : lowered w -> lower (capitalize w) = w.
Proof.
  unfold lowered, lower. destruct w as [|c r]; [reflexivity|].
  simpl. intros H. injection H as Hc Hr.
  rewrite lower_upper_char, Hc, Hr, Hr. reflexivity.
Qed.

Lemma collapse_from_length (b : bool) (s : str) :
  (List.length (collapse_from b s) <= List.length s)%nat.
Proof.
  revert b. induction s as [|c r IH]; intros b; simpl; [lia|].
  destruct (isspace c); [destruct b|]; simpl;
    match goal with |- context [collapse_from ?x r] => specialize (IH x) end;
    lia.
Qed.

Lemma collapse_from_In (b : bool) (s : str) (c : ascii) :
  In c (collapse_from b s) -> c = " "%char \/ In c s.
Proof.
  revert b. induction s as [|d r IH]; intros b; simpl; [tauto|].
  destruct (isspace d); [destruct b|]; simpl; intros H.
  - apply IH in H. tauto.
  - destruct H as [H|H]; [auto|apply IH in H; tauto].
  - destruct H as [H|H]; [auto|apply IH in H; tauto].
Qed.

Lemma slice_to_length (s : str) (n : Z) :
  0 <= n -> Z.of_nat (List.length (slice_to s n)) <= n.
Proof.
  intros Hn. unfold slice_to.
  destruct (n <? 0) eqn:E; [apply Z.ltb_lt in E; lia|].
  pose proof (firstn_le_length (Z.to_nat n) s). lia.
Qed.

Lemma slice_to_In (s : str) (n : Z) (c : ascii) :
  In c (slice_to s n) -> In c s.
Proof.
  assert (Hfirst : forall k, In c (firstn k s) -> In c s).
  { intros k H. rewrite <- (firstn_skipn k s). apply in_or_app. left.
    exact H. }
  unfold slice_to. destruct (n <? 0); apply Hfirst.
Qed.

Lemma forallb_impl {A : Type} (p q : A -> bool) (l : list A) :
  (forall a, p a = true -> q a = true) ->
  forallb p l = true -> forallb q l = true.
Proof. rewrite !forallb_forall. auto. Qed.

Lemma filter_none {A : Type} (p q : A -> bool) (l : list A) :
  (forall a, q a = true -> p a = false) ->
  forallb q l = true -> filter p l = [].
Proof.
  intros Hpq. induction l as [|a l IH]; simpl; [reflexivity|].
  intros H. apply andb_true_iff in H. destruct H as [Ha Hl].
  rewrite (Hpq a Ha). exact (IH Hl).
Qed.

Lemma filter_dropwhile (p q : ascii -> bool) (s : str) :
  (forall a, q a = true -> p a = false) ->
  filter p (dropwhile q s) = filter p s.
Proof.
  intros Hpq. induction s as [|c r IH]; simpl; [reflexivity|].
  destruct (q c) eqn:E; [rewrite (Hpq c E); exact IH|reflexivity].
Qed.

(** Stripping removes whitespace only: a filter that drops whitespace does
    not see it. *)
Lemma filter_strip (p : ascii -> bool) (s : str) :
  (forall a, isspace a = true -> p a = false) ->
  filter p (strip s) = filter p s.
Proof.
  intros Hp. unfold strip, rstrip, lstrip.
  rewrite filter_rev, filter_dropwhile by exact Hp.
  rewrite <- filter_rev, rev_involutive.
  apply filter_dropwhile. exact Hp.
Qed.

Lemma dropwhile_none (p : ascii -> bool) (s : str) :
  forallb (fun c => negb (p c)) s = true -> dropwhile p s = s.
Proof.
  destruct s as [|c r]; [reflexivity|]. simpl. intros H.
  apply andb_true_iff in H. destruct H as [H _].
  apply negb_true_iff in H. rewrite H. reflexivity.
Qed.

Lemma strip_none (s : str) :
  forallb (fun c => negb (isspace c)) s = true -> strip s = s.
Proof.
  intros H. unfold strip, rstrip, lstrip.
  rewrite (dropwhile_none _ s H).
  rewrite dropwhile_none; [apply rev_involutive|].
  rewrite forallb_forall in *. intros c Hc. apply H, in_rev, Hc.
Qed.

Lemma span_app (p : ascii -> bool) (a b : str) :
  forallb p a = true ->
  match b with
  | [] => True
  | c :: _ => p c = false
  end ->
  span p (a ++ b) = (a, b).
Proof.
  intros Ha Hb. induction a as [|c a IH]; simpl.
  - destruct b as [|c b]; [reflexivity|]. simpl. rewrite Hb. reflexivity.
  - simpl in Ha. apply andb_true_iff in Ha. destruct Ha as [Hc Ha].
    rewrite Hc, (IH Ha). reflexivity.
Qed.

Lemma span_fst (p : ascii -> bool) (s : str) :
  forallb p (fst (span p s)) = true.
Proof.
  induction s as [|c r IH]; simpl; [reflexivity|].
  destruct (p c) eqn:E; [|reflexivity].
  destruct (span p r) as [a b]. simpl in *. rewrite E. exact IH.
Qed.

Lemma span_spec (p : ascii -> bool) (s a b : str) :
  span p s = (a, b) -> s = a ++ b /\ forallb p a = true.
Proof.
  revert a b. induction s as [|c r IH]; intros a b; cbn [span].
  - intros E. injection E as <- <-. auto.
  - destruct (p c) eqn:Ec.
    + destruct (span p r) as [a' b'] eqn:Er. intros E. injection E as <- <-.
      destruct (IH a' b' eq_refl) as [-> Ha]. cbn. rewrite Ec, Ha. auto.
    + intros E. injection E as <- <-. auto.
Qed.

Import Notions.

(** *** Stripping *)

Lemma dropwhile_split (p : ascii -> bool) (s : str) :
  exists pre, s = pre ++ dropwhile p s /\ forallb p pre = true.
Proof.
  induction s as [|c s (pre & E & H)]; [exists []; auto|].
  cbn [dropwhile]. destruct (p c) eqn:Ec.
  - exists (c :: pre). cbn. rewrite Ec, H. split; [congruence|reflexivity].
  - exists []. auto.
Qed.

Lemma dropwhile_clean (s : str) : starts_clean (dropwhile isspace s) = true.
Proof.
  induction s as [|c s IH]; [reflexivity|].
  cbn [dropwhile]. destruct (isspace c) eqn:Ec; [exact IH|].
  cbn. rewrite Ec. reflexivity.
Qed.

Lemma dropwhile_id (s : str) :
  starts_clean s = true -> dropwhile isspace s = s.
Proof.
  destruct s as [|c s]; [reflexivity|]. cbn.
  intros H. apply negb_true_iff in H. rewrite H. reflexivity.
Qed.

Lemma starts_clean_prefix (a b : str) :
  starts_clean (a ++ b) = true -> starts_clean a = true.
Proof. destruct a; [reflexivity|exact (fun H => H)]. Qed.

(** The stripped text, between the whitespace that was taken off. *)
Lemma strip_split (s : str) :
  exists a b, s = a ++ strip s ++ b
              /\ forallb isspace a = true /\ forallb isspace b = true.
Proof.
  unfold strip, rstrip, lstrip.
  destruct (dropwhile_split isspace s) as (a & Ea & Ha).
  destruct (dropwhile_split isspace (rev (dropwhile isspace s)))
    as (b & Eb & Hb).
  exists a, (rev b). repeat split.
  - rewrite Ea at 1. f_equal.
    rewrite <- (rev_involutive (dropwhile isspace s)) at 1.
    rewrite Eb at 1. apply rev_app_distr.
  - exact Ha.
  - rewrite forallb_forall in *. intros c Hc. apply Hb.
    apply in_rev. exact Hc.
Qed.

Lemma strip_trimmed (s : str) : trimmed (strip s).
Proof.
  split.
  - unfold strip, rstrip.
    destruct (dropwhile_split isspace (rev (lstrip s))) as (b & Eb & _).
    apply (starts_clean_prefix _ (rev b)).
    rewrite <- rev_app_distr, <- Eb, rev_involutive. apply dropwhile_clean.
  - unfold strip, rstrip. rewrite rev_involutive. apply dropwhile_clean.
Qed.

Lemma trimmed_strip (s : str) : trimmed s -> strip s = s.
Proof.
  intros [H1 H2]. unfold strip, rstrip, lstrip.
  rewrite (dropwhile_id s H1), (dropwhile_id (rev s) H2).
  apply rev_involutive.
Qed.

Lemma strip_idem (s : str) : strip (strip s) = strip s.
Proof. apply trimmed_strip, strip_trimmed. Qed.

Lemma strip_length (s : str) : (List.length (strip s) <= List.length s)%nat.
Proof.
  destruct (strip_split s) as (a & b & E & _).
  rewrite E at 2. rewrite !length_app. lia.
Qed.

Lemma strip_In (s : str) (c : ascii) : In c (strip s) -> In c s.
Proof.
  destruct (strip_split s) as (a & b & E & _). intros H.
  rewrite E. apply in_or_app. right. apply in_or_app. left. exact H.
Qed.

(** *** Runs of whitespace *)

Lemma single_spaced_collapse (b : bool) (s : str) :
  single_spaced b (collapse_from b s) = true.
Proof.
  revert b. induction s as [|c s IH]; intros b; [reflexivity|].
  cbn [collapse_from]. destruct (isspace c) eqn:Ec.
  - destruct b; [apply IH|]. cbn [single_spaced].
    change (isspace " ") with true. cbn. apply IH.
  - cbn [single_spaced]. rewrite Ec. apply IH.
Qed.

Lemma collapse_single_spaced (b : bool) (s : str) :
  single_spaced b s = true -> collapse_from b s = s.
Proof.
  revert b. induction s as [|c s IH]; intros b; [reflexivity|].
  cbn [collapse_from single_spaced]. destruct (isspace c) eqn:Ec.
  - intros H. apply andb_true_iff in H. destruct H as [H Hs].
    apply andb_true_iff in H. destruct H as [Hc Hb].
    apply negb_true_iff in Hb. subst b. apply Ascii.eqb_eq in Hc. subst c.
    rewrite (IH true Hs). reflexivity.
  - intros H. rewrite (IH false H). reflexivity.
Qed.

Lemma single_spaced_weaken (b : bool) (s : str) :
  single_spaced b s = true -> single_spaced false s = true.
Proof.
  destruct s as [|c s]; [reflexivity|]. cbn [single_spaced].
  destruct (isspace c); [|exact (fun H => H)].
  intros H. apply andb_true_iff in H. destruct H as [H Hs].
  apply andb_true_iff in H. destruct H as [Hc _]. rewrite Hc, Hs. reflexivity.
Qed.

Lemma single_spaced_prefix (b : bool) (s t : str) :
  single_spaced b (s ++ t) = true -> single_spaced b s = true.
Proof.
  revert b. induction s as [|c s IH]; intros b; [reflexivity|].
  cbn [app single_spaced]. destruct (isspace c).
  - intros H. apply andb_true_iff in H. destruct H as [H Hs].
    rewrite H. apply (IH true Hs).
  - apply IH.
Qed.

Lemma single_spaced_suffix (b : bool) (s t : str) :
  single_spaced b (s ++ t) = true -> single_spaced false t = true.
Proof.
  revert b. induction s as [|c s IH]; intros b.
  - apply single_spaced_weaken.
  - cbn [app single_spaced]. destruct (isspace c).
    + intros H. apply andb_true_iff in H. destruct H as [_ Hs].
      apply (IH true Hs).
    + apply IH.
Qed.

Lemma single_spaced_strip (s : str) :
  single_spaced false s = true -> single_spaced false (strip s) = true.
Proof.
  destruct (strip_split s) as (a & b & E & _). intros H.
  rewrite E in H. apply single_spaced_suffix in H.
  apply single_spaced_prefix in H. exact H.
Qed.

Lemma collapse_from_last (b : bool) (s : str) (c : ascii) :
  isspace c = false -> collapse_from b (s ++ [c]) = collapse_from b s ++ [c].
Proof.
  intros Hc. revert b. induction s as [|d s IH]; intros b.
  - cbn. rewrite Hc. reflexivity.
  - cbn [app collapse_from]. destruct (isspace d).
    + destruct b; rewrite IH; reflexivity.
    + rewrite IH. reflexivity.
Qed.

(** A text with no whitespace at its ends keeps its ends, and at least
    three characters if it has three. *)
Lemma starts_clean_rev_inv (s : str) :
  s <> [] -> starts_clean (rev s) = true ->
  exists r c, s = r ++ [c] /\ isspace c = false.
Proof.
  intros Hne H. destruct (rev s) as [|c r] eqn:E.
  - apply (f_equal (@rev ascii)) in E. rewrite rev_involutive in E.
    cbn in E. congruence.
  - exists (rev r), c. split.
    + apply (f_equal (@rev ascii)) in E. rewrite rev_involutive in E.
      exact E.
    + cbn in H. apply negb_true_iff in H. exact H.
Qed.

Lemma collapse_trimmed (s : str) : trimmed s -> trimmed (collapse_ws s).
Proof.
  intros [H1 H2]. destruct s as [|c s]; [split; reflexivity|].
  destruct (starts_clean_rev_inv (c :: s) ltac:(discriminate) H2)
    as (r & d & E & Hd).
  unfold collapse_ws. split.
  - cbn in H1. apply negb_true_iff in H1. cbn [collapse_from].
    rewrite H1. cbn. rewrite H1. reflexivity.
  - rewrite E, collapse_from_last by exact Hd.
    rewrite rev_app_distr. cbn. rewrite Hd. reflexivity.
Qed.

Lemma collapse_from_nonempty (b : bool) (s : str) (c : ascii) :
  isspace c = false ->
  (1 <= List.length (collapse_from b (s ++ [c])))%nat.
Proof.
  intros Hc. rewrite collapse_from_last by exact Hc.
  rewrite length_app. cbn. lia.
Qed.

Lemma collapse_trimmed_length (s : str) :
  trimmed s -> (3 <= List.length s)%nat ->
  (3 <= List.length (collapse_ws s))%nat.
Proof.
  intros [H1 H2] Hlen. destruct s as [|c s]; [cbn in Hlen; lia|].
  destruct (starts_clean_rev_inv (c :: s) ltac:(discriminate) H2)
    as (r & d & E & Hd).
  destruct r as [|c' r]; [apply (f_equal (@List.length ascii)) in E;
                          cbn in E, Hlen; lia|].
  cbn in E. injection E as <- ->.
  cbn in H1. apply negb_true_iff in H1.
  unfold collapse_ws. cbn [collapse_from]. rewrite H1.
  destruct r as [|e r]; [cbn in Hlen; lia|].
  cbn [app collapse_from].
  pose proof (collapse_from_nonempty true r d Hd).
  pose proof (collapse_from_nonempty false r d Hd).
  destruct (isspace e); cbn [List.length]; lia.
Qed.

(** *** Prefixes *)

Lemma startswith_app (p r : str) : startswith (p ++ r) p = true.
Proof.
  induction p as [|c p IH]; [destruct r; reflexivity|].
  cbn. destruct (ascii_dec c c); [exact IH|congruence].
Qed.

Lemma skipn_length_app {A : Type} (a b : list A) :
  skipn (List.length a) (a ++ b) = b.
Proof. induction a; [reflexivity|assumption]. Qed.

Lemma startswith_prefix (s p : str) :
  startswith s p = true <-> exists r, s = p ++ r.
Proof.
  split.
  - revert s. induction p as [|c p IH]; intros s H; [exists s; reflexivity|].
    destruct s as [|d s]; [discriminate|]. cbn in H.
    destruct (ascii_dec c d) as [->|]; [|discriminate].
    destruct (IH s H) as (r & ->). exists r. reflexivity.
  - intros (r & ->). apply startswith_app.
Qed.

Lemma dropwhile_spaces (a s : str) :
  forallb isspace a = true ->
  dropwhile isspace (a ++ s) = dropwhile isspace s.
Proof.
  induction a as [|c a IH]; [reflexivity|]. cbn [forallb app dropwhile].
  intros H. apply andb_true_iff in H. destruct H as [-> H]. exact (IH H).
Qed.

Lemma dropwhile_all (a : str) :
  forallb isspace a = true -> dropwhile isspace a = [].
Proof.
  intros H. rewrite <- (app_nil_r a), dropwhile_spaces by exact H.
  reflexivity.
Qed.

Lemma forallb_rev_spaces (p : ascii -> bool) (l : str) :
  forallb p l = true -> forallb p (rev l) = true.
Proof.
  rewrite !forallb_forall. intros H c Hc. apply H, in_rev, Hc.
Qed.

(** [strip] gives the text without the whitespace around it, and nothing
    else does. *)
Lemma strip_iff (s core : str) : strip s = core <-> stripped_to s core.
Proof.
  split.
  - intros <-. destruct (strip_split s) as (a & b & E & Ha & Hb).
    exists a, b. repeat split; try assumption; apply strip_trimmed.
  - intros (a & b & -> & Ha & Hb & [H1 H2]).
    unfold strip, rstrip, lstrip. rewrite dropwhile_spaces by exact Ha.
    destruct core as [|c core].
    + cbn [app]. rewrite (dropwhile_all b Hb). reflexivity.
    + replace (dropwhile isspace ((c :: core) ++ b)) with ((c :: core) ++ b)
        by (symmetry; apply dropwhile_id; exact H1).
      rewrite rev_app_distr, dropwhile_spaces
        by (apply forallb_rev_spaces; exact Hb).
      rewrite (dropwhile_id _ H2). apply rev_involutive.
Qed.

End PyStrFacts.

(** ** Facts about regular expressions *)

Module RegexFacts.
Import PyStr PyRe Notions.

Lemma nullable_lang (r : regex) : nullable r = true <-> lang r [].
Proof.
  induction r; cbn [nullable].
  - split; [discriminate|inversion 1].
  - split; [constructor|reflexivity].
  - split; [discriminate|inversion 1].
  - rewrite andb_true_iff, IHr1, IHr2. split.
    + intros [H1 H2]. apply (lang_seq _ _ [] [] H1 H2).
    + inversion 1 as [| |a b s t Hs Ht Hab Hst| | | |]; subst.
      apply app_eq_nil in Hst. destruct Hst; subst. auto.
  - rewrite orb_true_iff, IHr1, IHr2. split.
    + intros [H|H]; [apply lang_alt_l|apply lang_alt_r]; exact H.
    + inversion 1; subst; auto.
  - split; [constructor|reflexivity].
Qed.

Lemma star_cons (a : regex) (c : ascii) (s : str) :
  lang (Star a) (c :: s) ->
  exists s1 s2, s = s1 ++ s2 /\ lang a (c :: s1) /\ lang (Star a) s2.
Proof.
  intros H. remember (Star a) as r eqn:Er. remember (c :: s) as w eqn:Ew.
  revert c s Ew. induction H; intros c0 s0 Ew; try discriminate.
  injection Er as ->.
  destruct s as [|d s'].
  - cbn in Ew. apply IHlang2; [reflexivity|exact Ew].
  - cbn in Ew. injection Ew as -> <-. exists s', t. auto.
Qed.

Lemma deriv_lang (r : regex) (c : ascii) (s : str) :
  lang (deriv c r) s <-> lang r (c :: s).
Proof.
  revert s. induction r; intros w; cbn [deriv].
  - split; inversion 1.
  - split; inversion 1.
  - destruct (p c) eqn:E; split.
    + inversion 1; subst. constructor. exact E.
    + inversion 1; subst. constructor.
    + inversion 1.
    + inversion 1; subst. congruence.
  - destruct (nullable r1) eqn:N.
    + split.
      * inversion 1 as [| | |a b s Hs|a b s Hs| |]; subst.
        -- inversion Hs as [| |a b s t H1 H2| | | |]; subst.
           apply IHr1 in H1.
           apply (lang_seq _ _ (c :: s) t H1 H2).
        -- apply IHr2 in Hs. apply nullable_lang in N.
           apply (lang_seq _ _ [] (c :: w) N Hs).
      * inversion 1 as [| |a b s t H1 H2 Hab Hst| | | |]; subst.
        destruct s as [|d s'].
        -- cbn in Hst. subst t. apply lang_alt_r. apply IHr2. exact H2.
        -- cbn in Hst. injection Hst as -> <-. apply lang_alt_l.
           apply lang_seq; [apply IHr1; exact H1|exact H2].
    + split.
      * inversion 1 as [| |a b s t H1 H2| | | |]; subst.
        apply IHr1 in H1. apply (lang_seq _ _ (c :: s) t H1 H2).
      * inversion 1 as [| |a b s t H1 H2 Hab Hst| | | |]; subst.
        destruct s as [|d s'].
        -- apply nullable_lang in H1. congruence.
        -- cbn in Hst. injection Hst as -> <-.
           apply lang_seq; [apply IHr1; exact H1|exact H2].
  - split; inversion 1; subst;
      solve [apply lang_alt_l; apply IHr1; assumption
            |apply lang_alt_r; apply IHr2; assumption].
  - split.
    + inversion 1 as [| |a b s t H1 H2| | | |]; subst.
      apply IHr in H1. apply (lang_star_app _ (c :: s) t H1 H2).
    + intros H. apply star_cons in H. destruct H as (s1 & s2 & -> & H1 & H2).
      apply lang_seq; [apply IHr; exact H1|exact H2].
Qed.

(** The matcher decides the language. *)
Lemma matches_lang (r : regex) (s : str) : matches r s = true <-> lang r s.
Proof.
  revert r. induction s as [|c s IH]; intros r; cbn [matches].
  - apply nullable_lang.
  - rewrite IH. apply deriv_lang.
Qed.

Lemma lang_seq_iff (a b : regex) (s : str) :
  lang (Seq a b) s <-> exists s1 s2, s = s1 ++ s2 /\ lang a s1 /\ lang b s2.
Proof.
  split.
  - inversion 1; subst. eauto.
  - intros (s1 & s2 & -> & H1 & H2). constructor; assumption.
Qed.

Lemma lang_class_iff (p : ascii -> bool) (s : str) :
  lang (Class p) s <-> exists c, s = [c] /\ p c = true.
Proof.
  split.
  - inversion 1; subst. eauto.
  - intros (c & -> & H). constructor. exact H.
Qed.

Lemma lang_chr_iff (c : ascii) (s : str) : lang (Chr c) s <-> s = [c].
Proof.
  unfold Chr. rewrite lang_class_iff. split.
  - intros (d & -> & H). apply Ascii.eqb_eq in H. congruence.
  - intros ->. exists c. split; [reflexivity|apply Ascii.eqb_refl].
Qed.

Lemma lang_star_class (p : ascii -> bool) (s : str) :
  lang (Star (Class p)) s <-> forallb p s = true.
Proof.
  split.
  - intros H. remember (Star (Class p)) as r eqn:Er.
    induction H; try discriminate; [reflexivity|].
    injection Er as ->. inversion H; subst. cbn.
    rewrite IHlang2 by reflexivity.
    match goal with X : p _ = true |- _ => rewrite X end. reflexivity.
  - induction s as [|c s IH]; cbn; intros H; [constructor|].
    apply andb_true_iff in H. destruct H as [Hc Hs].
    apply (lang_star_app _ [c] s); [constructor; exact Hc|auto].
Qed.

Lemma lang_plus_class (p : ascii -> bool) (s : str) :
  lang (Plus (Class p)) s <-> s <> [] /\ forallb p s = true.
Proof.
  unfold Plus. rewrite lang_seq_iff. split.
  - intros (s1 & s2 & -> & H1 & H2). apply lang_class_iff in H1.
    destruct H1 as (c & -> & Hc). apply lang_star_class in H2.
    cbn. rewrite Hc, H2. split; [discriminate|reflexivity].
  - intros [Hne H]. destruct s as [|c s]; [congruence|].
    cbn in H. apply andb_true_iff in H. destruct H as [Hc Hs].
    exists [c], s. repeat split.
    + constructor. exact Hc.
    + apply lang_star_class. exact Hs.
Qed.

Lemma lang_two_or_more_class (p : ascii -> bool) (s : str) :
  lang (TwoOrMore (Class p)) s
  <-> (2 <= List.length s)%nat /\ forallb p s = true.
Proof.
  unfold TwoOrMore. rewrite lang_seq_iff. split.
  - intros (s1 & s2 & -> & H1 & H2). apply lang_class_iff in H1.
    destruct H1 as (c & -> & Hc). apply lang_plus_class in H2.
    destruct H2 as [Hne H2]. destruct s2; [congruence|].
    cbn in *. rewrite Hc, H2. split; [lia|reflexivity].
  - intros [Hlen H]. destruct s as [|c [|d s]]; cbn in Hlen; try lia.
    cbn [forallb] in H. apply andb_true_iff in H. destruct H as [Hc Hs].
    exists [c], (d :: s). repeat split.
    + constructor. exact Hc.
    + apply lang_plus_class. split; [discriminate|exact Hs].
Qed.

End RegexFacts.

(** ** Facts about numbers *)

Module PyNumFacts.
Import PyStr PyNum Notions PyStrFacts.

Lemma digit_val_bounds (c : ascii) : isdigit c = true -> 0 <= digit_val c <= 9.
Proof.
  unfold isdigit, in_range, digit_val. intros H.
  apply andb_true_iff in H. destruct H as [H1 H2].
  apply Z.leb_le in H1, H2. lia.
Qed.

Lemma fold_digits_nonneg (s : str) (acc : Z) :
  forallb isdigit s = true -> 0 <= acc ->
  0 <= fold_left (fun a c => 10 * a + digit_val c) s acc.
Proof.
  revert acc.
  induction s as [|c r IH]; intros acc H Hacc; cbn [fold_left];
    [exact Hacc|].
  cbn [forallb] in H. apply andb_true_iff in H. destruct H as [Hc Hr].
  apply IH; [exact Hr|]. pose proof (digit_val_bounds c Hc). lia.
Qed.

Lemma digits_val_nonneg (s : str) :
  forallb isdigit s = true -> 0 <= digits_val s.
Proof. intros H. apply fold_digits_nonneg; [exact H|lia]. Qed.

Lemma parse_finite_digits (s ip fp : str) (ex : Z) :
  parse_finite s = Some (ip, fp, ex) ->
  forallb isdigit ip = true /\ forallb isdigit fp = true.
Proof.
  unfold parse_finite. pose proof (span_fst isdigit s) as H1.
  destruct (span isdigit s) as [a s1]. simpl in H1.
  assert (H2 : forall r, forallb isdigit (fst (span isdigit r)) = true)
    by (intros; apply span_fst).
  destruct s1 as [|c r].
  - destruct (a ++ []); [discriminate|].
    destruct (parse_exponent []); [|discriminate].
    intros E. injection E as <- <- <-. auto.
  - destruct (Ascii.eqb c ".").
    + specialize (H2 r). destruct (span isdigit r) as [b s2]. simpl in H2.
      destruct (a ++ b); [discriminate|].
      destruct (parse_exponent s2); [|discriminate].
      intros E. injection E as <- <- <-. auto.
    + destruct (a ++ []); [discriminate|].
      destruct (parse_exponent _); [|discriminate].
      intros E. injection E as <- <- <-. auto.
Qed.

(** The coefficient of a parsed [Decimal] is a natural number. *)
Lemma decimal_of_str_coefficient (s : str) (neg : bool) (c e : Z) :
  decimal_of_str s = Ret (DFin neg c e) -> 0 <= c.
Proof.
  unfold decimal_of_str. destruct (parse_sign _) as [n body].
  repeat match goal with
         | |- context [if ?b then _ else _] => destruct b
         end; try discriminate.
  destruct (parse_finite body) as [[[ip fp] ex]|] eqn:E; [|discriminate].
  cbv zeta. destruct (_ || _); [discriminate|].
  intros H. injection H as <- <- <-.
  apply parse_finite_digits in E. destruct E as [Hi Hf].
  apply digits_val_nonneg. rewrite forallb_app, Hi, Hf. reflexivity.
Qed.

Lemma Qle_bool_false (a b : Q) : Qlt b a -> Qle_bool a b = false.
Proof.
  intros H. destruct (Qle_bool a b) eqn:E; [|reflexivity].
  apply Qle_bool_iff in E. exfalso. apply (Qlt_not_le _ _ H E).
Qed.

Lemma float_of_int_small (n : Z) :
  Z.abs n < 2 ^ 1024 - 2 ^ 970 -> float_of_int n = Ret (Fin (inject_Z n)).
Proof.
  intros H. unfold float_of_int.
  destruct (2 ^ 1024 - 2 ^ 970 <=? Z.abs n) eqn:E;
    [apply Z.leb_le in E; lia|reflexivity].
Qed.

(** *** Integers as text *)

(** The characters of a decimal numeral of the library. *)
Lemma uint_chars_digits (d : Decimal.uint) :
  forallb isdigit
    (list_ascii_of_string (DecimalString.NilEmpty.string_of_uint d)) = true.
Proof. induction d; cbn; auto. Qed.

Lemma uint_chars_acc (d : Decimal.uint) (acc : positive) :
  fold_left (fun a c => 10 * a + digit_val c)
    (list_ascii_of_string (DecimalString.NilEmpty.string_of_uint d))
    (Z.pos acc)
  = Z.pos (Pos.of_uint_acc d acc).
Proof.
  revert acc. induction d; intros acc;
    cbn [DecimalString.NilEmpty.string_of_uint list_ascii_of_string
         fold_left Pos.of_uint_acc];
    try reflexivity;
    match goal with
    | |- fold_left _ _ (10 * _ + digit_val ?c) = _ =>
        let v := eval vm_compute in (digit_val c) in
        change (digit_val c) with v
    end;
    rewrite <- IHd; f_equal; lia.
Qed.

Lemma uint_chars_val (d : Decimal.uint) :
  digits_val (list_ascii_of_string (DecimalString.NilEmpty.string_of_uint d))
  = Z.of_N (Pos.of_uint d).
Proof.
  unfold digits_val.
  induction d;
    cbn [DecimalString.NilEmpty.string_of_uint list_ascii_of_string
         fold_left Pos.of_uint];
    try reflexivity;
    match goal with
    | |- fold_left _ _ (10 * 0 + digit_val ?c) = _ =>
        let v := eval vm_compute in (10 * 0 + digit_val c) in
        change (10 * 0 + digit_val c) with v
    end;
    [exact IHd|..]; rewrite uint_chars_acc; reflexivity.
Qed.

Lemma int_str_pos (p : positive) :
  int_str (Z.pos p)
  = list_ascii_of_string
      (DecimalString.NilEmpty.string_of_uint (Pos.to_uint p)).
Proof.
  unfold int_str. cbn [Z.to_int DecimalString.NilZero.string_of_int].
  unfold DecimalString.NilZero.string_of_uint.
  pose proof (DecimalPos.Unsigned.to_uint_nonnil p) as H.
  destruct (Pos.to_uint p); [congruence|reflexivity..].
Qed.

(** [str(n)] for a natural number: digits that read as [n]. *)
Lemma int_str_spec (n : Z) :
  0 <= n ->
  int_str n <> [] /\ forallb isdigit (int_str n) = true
  /\ digits_val (int_str n) = n.
Proof.
  intros Hn. destruct n as [|p|p]; [| |lia].
  - repeat split. discriminate.
  - rewrite int_str_pos. repeat split.
    + pose proof (DecimalPos.Unsigned.to_uint_nonnil p) as H.
      destruct (Pos.to_uint p); (congruence || discriminate).
    + apply uint_chars_digits.
    + rewrite uint_chars_val, DecimalPos.Unsigned.of_to. reflexivity.
Qed.

Lemma digits_val_app (a b : str) :
  digits_val (a ++ b)
  = digits_val a * 10 ^ Z.of_nat (List.length b) + digits_val b.
Proof.
  unfold digits_val. rewrite fold_left_app.
  generalize (fold_left (fun acc c => 10 * acc + digit_val c) a 0) as x.
  induction b as [|c b IH]; intros x.
  - cbn. lia.
  - cbn [fold_left List.length]. rewrite IH, (IH (10 * 0 + digit_val c)).
    rewrite Nat2Z.inj_succ, Z.pow_succ_r by lia. ring.
Qed.

Lemma forallb_below (P : Z -> bool) (n : nat) :
  forallb P (upto n) = true -> forall z, 0 <= z < Z.of_nat n -> P z = true.
Proof.
  intros H z Hz. rewrite forallb_forall in H. apply H.
  unfold upto. replace z with (Z.of_nat (Z.to_nat z)) by lia.
  apply in_map, in_seq. lia.
Qed.

(** Two digits for the hundredths. *)
Lemma zfill_hundredths (f : Z) :
  0 <= f < 100 ->
  List.length (zfill 2 (int_str f)) = 2%nat
  /\ forallb isdigit (zfill 2 (int_str f)) = true
  /\ digits_val (zfill 2 (int_str f)) = f.
Proof.
  intros Hf.
  pose proof (forallb_below
    (fun z => (List.length (zfill 2 (int_str z)) =? 2)%nat
              && forallb isdigit (zfill 2 (int_str z))
              && (digits_val (zfill 2 (int_str z)) =? z))
    100 ltac:(vm_compute; reflexivity) f Hf) as H.
  cbv beta in H. apply andb_true_iff in H. destruct H as [H H3].
  apply andb_true_iff in H. destruct H as [H1 H2].
  apply Nat.eqb_eq in H1. apply Z.eqb_eq in H3. auto.
Qed.

(** *** Thousands separators *)

Lemma commas_rev_removed (k : nat) (ds : str) :
  forallb isdigit ds = true -> remove_char "," (commas_rev k ds) = ds.
Proof.
  revert k. induction ds as [|d r IH]; intros k H; [reflexivity|].
  cbn [forallb] in H. apply andb_true_iff in H. destruct H as [Hd Hr].
  assert (negb (Ascii.eqb d ",") = true) as Hd'.
  { revert Hd. ascii_cases d; intros Hd; (discriminate || reflexivity). }
  cbn [commas_rev]. destruct r as [|e r'].
  - unfold remove_char. cbn. rewrite Hd'. reflexivity.
  - destruct (k =? 2)%nat; unfold remove_char in *; cbn [filter];
      rewrite Hd'; [change (negb (Ascii.eqb "," ",")) with false; cbv iota|];
      rewrite IH by exact Hr; reflexivity.
Qed.

Lemma remove_char_rev (c : ascii) (s : str) :
  remove_char c (rev s) = rev (remove_char c s).
Proof.
  unfold remove_char. induction s as [|d s IH]; [reflexivity|].
  cbn [rev filter]. rewrite filter_app, IH. cbn [filter].
  destruct (negb (Ascii.eqb d c)); [reflexivity|apply app_nil_r].
Qed.

Lemma forallb_rev {A : Type} (p : A -> bool) (l : list A) :
  forallb p (rev l) = forallb p l.
Proof.
  induction l as [|a l IH]; [reflexivity|].
  cbn [rev forallb]. rewrite forallb_app, IH. cbn. 
  destruct (p a), (forallb p l); reflexivity.
Qed.

(** Taking the commas out of grouped digits gives the digits back. *)
Lemma group_thousands_removed (ds : str) :
  forallb isdigit ds = true -> remove_char "," (group_thousands ds) = ds.
Proof.
  intros H. unfold group_thousands.
  rewrite remove_char_rev, commas_rev_removed by (rewrite forallb_rev; exact H).
  apply rev_involutive.
Qed.

Lemma commas_rev_chars (k : nat) (ds : str) :
  forallb isdigit ds = true ->
  forallb (fun c => negb (isspace c)) (commas_rev k ds) = true.
Proof.
  revert k. induction ds as [|d r IH]; intros k H; [reflexivity|].
  cbn [forallb] in H. apply andb_true_iff in H. destruct H as [Hd Hr].
  assert (negb (isspace d) = true) as Hd'.
  { revert Hd. ascii_cases d; intros Hd; (discriminate || reflexivity). }
  cbn [commas_rev]. destruct r as [|e r'].
  - cbn. rewrite Hd'. reflexivity.
  - destruct (k =? 2)%nat; cbn [forallb]; rewrite Hd', IH by exact Hr;
      reflexivity.
Qed.

Lemma commas_rev_nonempty (k : nat) (ds : str) :
  ds <> [] -> commas_rev k ds <> [].
Proof.
  destruct ds as [|d [|e r]]; [congruence|discriminate|].
  intros _. cbn. destruct (k =? 2)%nat; discriminate.
Qed.

(** Grouped digits are not empty and hold no whitespace. *)
Lemma group_thousands_chars (ds : str) :
  ds <> [] -> forallb isdigit ds = true ->
  group_thousands ds <> []
  /\ forallb (fun c => negb (isspace c)) (group_thousands ds) = true.
Proof.
  intros Hne H. unfold group_thousands. split.
  - intros E. apply (f_equal (@rev ascii)) in E.
    rewrite rev_involutive in E. cbn in E.
    apply commas_rev_nonempty in E; [exact E|].
    intros E'. apply (f_equal (@rev ascii)) in E'.
    rewrite rev_involutive in E'. exact (Hne E').
  - rewrite forallb_rev. apply commas_rev_chars.
    rewrite forallb_rev. exact H.
Qed.

(** *** Rounding *)

Lemma round_half_even_nonneg (q : Q) : Qle 0 q -> 0 <= round_half_even q.
Proof.
  destruct q as [a d]. unfold Qle, round_half_even. cbn [Qnum Qden].
  intros H0. rewrite Z.mul_1_r in H0. cbn in H0.
  pose proof (Pos2Z.is_pos d) as Hd.
  assert (0 <= a / Z.pos d) by (apply Z.div_pos; lia).
  destruct (2 * (a mod Z.pos d) <? Z.pos d); [lia|].
  destruct (Z.pos d <? 2 * (a mod Z.pos d)); [lia|].
  destruct (Z.even (a / Z.pos d)); lia.
Qed.

Lemma round_half_even_nonpos (q : Q) : Qlt q 0 -> round_half_even q <= 0.
Proof.
  destruct q as [a d]. unfold Qlt, round_half_even. cbn [Qnum Qden].
  intros H0. rewrite Z.mul_1_r in H0. cbn in H0.
  pose proof (Pos2Z.is_pos d) as Hd.
  pose proof (Z.div_mod a (Z.pos d) ltac:(lia)) as Hdm.
  pose proof (Z.mod_pos_bound a (Z.pos d) Hd) as Hm.
  assert (a / Z.pos d < 0) by (apply Z.div_lt_upper_bound; lia).
  destruct (2 * (a mod Z.pos d) <? Z.pos d); [lia|].
  destruct (Z.pos d <? 2 * (a mod Z.pos d)); [lia|].
  destruct (Z.even (a / Z.pos d)); lia.
Qed.

(** *** The width of a number *)

Lemma to_uint_head (p : positive) :
  match Pos.to_uint p with
  | Decimal.Nil | Decimal.D0 _ => False
  | _ => True
  end.
Proof.
  pose proof (DecimalPos.Unsigned.to_of (Pos.to_uint p)) as H.
  rewrite DecimalPos.Unsigned.of_to in H. cbn [N.to_uint] in H.
  pose proof (DecimalPos.Unsigned.to_uint_nonnil p) as Hnil.
  pose proof (DecimalPos.Unsigned.to_uint_nonzero p) as Hzero.
  destruct (Pos.to_uint p) as [|u|u|u|u|u|u|u|u|u|u];
    [congruence| |exact I..].
  unfold Decimal.unorm in H. cbn [Decimal.nzhead] in H.
  pose proof (DecimalFacts.nzhead_nonzero u) as Hnz.
  destruct (Decimal.nzhead u); congruence.
Qed.

(** A positive number is written without a leading zero. *)
Lemma int_str_head (n : Z) :
  0 < n ->
  exists d ds, int_str n = d :: ds /\ 1 <= digit_val d.
Proof.
  intros Hn. destruct n as [|p|p]; try lia.
  rewrite int_str_pos. pose proof (to_uint_head p) as H.
  destruct (Pos.to_uint p); try contradiction;
    cbn [DecimalString.NilEmpty.string_of_uint list_ascii_of_string];
    eexists; eexists; (split; [reflexivity|vm_compute; discriminate]).
Qed.

Lemma int_str_length (n : Z) (width : nat) :
  0 <= n < 10 ^ Z.of_nat width -> (1 <= width)%nat ->
  (List.length (int_str n) <= width)%nat.
Proof.
  intros Hn Hw. destruct (Z.eq_dec n 0) as [->|Hne]; [exact Hw|].
  destruct (int_str_head n ltac:(lia)) as (d & ds & E & Hd).
  destruct (int_str_spec n ltac:(lia)) as (_ & Hdigits & Hval).
  rewrite E in *. cbn [forallb] in Hdigits.
  apply andb_true_iff in Hdigits. destruct Hdigits as [_ Hds].
  change (d :: ds) with ([d] ++ ds) in Hval.
  rewrite digits_val_app in Hval.
  pose proof (digits_val_nonneg ds Hds) as H0.
  replace (digits_val [d]) with (digit_val d) in Hval
    by (unfold digits_val; cbn; lia).
  assert (10 ^ Z.of_nat (List.length ds) < 10 ^ Z.of_nat width) as Hlt.
  { assert (0 < 10 ^ Z.of_nat (List.length ds))
      by (apply Z.pow_pos_nonneg; lia).
    nia. }
  apply Z.pow_lt_mono_r_iff in Hlt; [|lia|lia]. cbn [List.length]. lia.
Qed.

Lemma digits_val_zeros (k : nat) : digits_val (repeat "0"%char k) = 0.
Proof.
  unfold digits_val. induction k as [|k IH]; [reflexivity|exact IH].
Qed.

(** [zfill]: a number below [10 ** width] in exactly [width] digits. *)
Lemma zfill_spec (n : Z) (width : nat) :
  0 <= n < 10 ^ Z.of_nat width -> (1 <= width)%nat ->
  List.length (zfill width (int_str n)) = width
  /\ forallb isdigit (zfill width (int_str n)) = true
  /\ digits_val (zfill width (int_str n)) = n.
Proof.
  intros Hn Hw. pose proof (int_str_length n width Hn Hw) as Hlen.
  destruct (int_str_spec n ltac:(lia)) as (_ & Hdigits & Hval).
  unfold zfill. repeat split.
  - rewrite length_app, repeat_length. lia.
  - rewrite forallb_app, Hdigits, andb_true_r.
    apply forallb_forall. intros c Hc. apply repeat_spec in Hc.
    subst c. reflexivity.
  - rewrite digits_val_app, digits_val_zeros, Hval. lia.
Qed.

(** *** Numerals *)

Lemma digit_not_mark (c : ascii) :
  isdigit c = true ->
  Ascii.eqb c "-" = false /\ Ascii.eqb c "+" = false
  /\ Ascii.eqb c "." = false /\ lower_char c = c.
Proof.
  ascii_cases c; intros H; try discriminate H; repeat split.
Qed.

Lemma mark_not_digit (c : ascii) :
  c = "e"%char \/ c = "E"%char ->
  isdigit c = false /\ Ascii.eqb c "." = false.
Proof. intros [->| ->]; split; reflexivity. Qed.

Lemma parse_sign_spec (s body : str) (negative : bool) :
  parse_sign s = (negative, body) ->
  exists sign, s = sign ++ body /\ sign_text sign negative.
Proof.
  destruct s as [|c r]; cbn [parse_sign].
  - intros E. injection E as <- <-. exists []. split; [reflexivity|constructor].
  - destruct (Ascii.eqb c "-") eqn:Em.
    + apply Ascii.eqb_eq in Em. subst c. intros E. injection E as <- <-.
      exists (lit "-"). split; [reflexivity|constructor].
    + destruct (Ascii.eqb c "+") eqn:Ep.
      * apply Ascii.eqb_eq in Ep. subst c. intros E. injection E as <- <-.
        exists (lit "+"). split; [reflexivity|constructor].
      * intros E. injection E as <- <-.
        exists []. split; [reflexivity|constructor].
Qed.

(** A sign before text that does not start with a sign. *)
Lemma parse_sign_text (sign body : str) (negative : bool) :
  sign_text sign negative ->
  match body with
  | c :: _ => Ascii.eqb c "-" = false /\ Ascii.eqb c "+" = false
  | [] => True
  end ->
  parse_sign (sign ++ body) = (negative, body).
Proof.
  intros Hs Hb. destruct Hs; [|reflexivity..].
  destruct body as [|c r]; [reflexivity|].
  destruct Hb as [Hm Hp]. cbn [app parse_sign]. rewrite Hm, Hp. reflexivity.
Qed.

Lemma span_digits (digits rest : str) :
  forallb isdigit digits = true ->
  match rest with
  | c :: _ => isdigit c = false
  | [] => True
  end ->
  span isdigit (digits ++ rest) = (digits, rest).
Proof. intros Hd Hr. apply span_app; [exact Hd|]. destruct rest; auto. Qed.

Lemma parse_exponent_iff (s : str) (ex : Z) :
  parse_exponent s = Some ex <-> exponent_text s ex.
Proof.
  split.
  - destruct s as [|c r]; cbn [parse_exponent].
    + intros E. injection E as <-. constructor.
    + destruct (Ascii.eqb c "e" || Ascii.eqb c "E") eqn:Ec; [|discriminate].
      destruct (parse_sign r) as [eneg r1] eqn:Es.
      destruct (span isdigit r1) as [ed r2] eqn:Ed.
      destruct ed as [|d ed]; [discriminate|].
      destruct r2; [|discriminate].
      intros E. injection E as <-.
      apply parse_sign_spec in Es. destruct Es as (sign & -> & Hsign).
      apply span_spec in Ed. destruct Ed as [-> Hd].
      rewrite app_nil_r. constructor; try assumption; [|discriminate].
      apply orb_true_iff in Ec. destruct Ec as [Ec|Ec];
        apply Ascii.eqb_eq in Ec; auto.
  - intros H. destruct H as [|mark sign digits negative Hm Hs Hne Hd];
      [reflexivity|].
    cbn [parse_exponent].
    replace (Ascii.eqb mark "e" || Ascii.eqb mark "E") with true
      by (destruct Hm as [->| ->]; reflexivity).
    destruct digits as [|d digits]; [congruence|].
    assert (Hd0 : isdigit d = true)
      by (cbn in Hd; apply andb_true_iff in Hd; tauto).
    rewrite (parse_sign_text sign (d :: digits) negative Hs)
      by (destruct (digit_not_mark d Hd0) as (? & ? & _); auto).
    rewrite <- (app_nil_r (d :: digits)) at 1.
    rewrite span_digits by (exact Hd || exact I).
    reflexivity.
Qed.

Lemma parse_finite_spec (body ip fp : str) (ex : Z) :
  parse_finite body = Some (ip, fp, ex) ->
  exists point tail,
    body = ip ++ point ++ tail
    /\ forallb isdigit ip = true /\ forallb isdigit fp = true
    /\ ip ++ fp <> []
    /\ fraction_text point fp /\ exponent_text tail ex.
Proof.
  unfold parse_finite. intros Hp.
  destruct (span isdigit body) as [a s1] eqn:Ea.
  apply span_spec in Ea. destruct Ea as [-> Ha].
  destruct s1 as [|c r].
  - rewrite app_nil_r in Hp. destruct a as [|d a]; [discriminate|].
    cbn [parse_exponent] in Hp. injection Hp as <- <- <-.
    exists [], []. rewrite !app_nil_r.
    split; [reflexivity|]. split; [exact Ha|]. split; [reflexivity|].
    split; [discriminate|]. split; constructor.
  - destruct (Ascii.eqb c ".") eqn:Ec.
    + apply Ascii.eqb_eq in Ec. subst c.
      destruct (span isdigit r) as [b s2] eqn:Eb.
      apply span_spec in Eb. destruct Eb as [-> Hb].
      destruct (a ++ b) eqn:Eapp; [discriminate|].
      destruct (parse_exponent s2) as [e|] eqn:Ee; [|discriminate].
      injection Hp as <- <- <-.
      apply parse_exponent_iff in Ee.
      exists (lit "." ++ b), s2.
      split; [rewrite <- app_assoc; reflexivity|].
      split; [exact Ha|]. split; [exact Hb|].
      split; [rewrite Eapp; discriminate|].
      split; [constructor|exact Ee].
    + rewrite app_nil_r in Hp. destruct a as [|d a]; [discriminate|].
      destruct (parse_exponent (c :: r)) as [e|] eqn:Ee; [|discriminate].
      injection Hp as <- <- <-.
      apply parse_exponent_iff in Ee.
      exists [], (c :: r). rewrite app_nil_r.
      split; [reflexivity|]. split; [exact Ha|]. split; [reflexivity|].
      split; [discriminate|]. split; [constructor|exact Ee].
Qed.

(** The parser of numbers reads exactly the decimal numerals. *)
Lemma numeral_parse (text : str) (negative : bool) (ip fp : str) (ex : Z) :
  numeral text negative ip fp ex <->
  exists body,
    parse_sign text = (negative, body)
    /\ parse_finite body = Some (ip, fp, ex).
Proof.
  split.
  - intros H.
    destruct H as [sign ip point fp tail negative ex Hs Hi Hf Hne Hp He].
    exists (ip ++ point ++ tail).
    assert (Htail : match tail with
                    | c :: _ => isdigit c = false /\ Ascii.eqb c "." = false
                    | [] => True
                    end).
    { destruct He as [|mark ? ? ? Hm]; [exact I|].
      apply mark_not_digit. exact Hm. }
    split.
    + apply parse_sign_text; [exact Hs|].
      destruct ip as [|d ip].
      * destruct Hp as [|fp]; [cbn in Hne; congruence|].
        cbn. auto.
      * cbn in Hi. apply andb_true_iff in Hi. destruct Hi as [Hd _].
        destruct (digit_not_mark d Hd) as (? & ? & _). cbn. auto.
    + apply parse_exponent_iff in He.
      unfold parse_finite. destruct Hp as [|fp].
      * cbn [app]. rewrite span_digits;
          [|exact Hi|destruct tail; tauto].
        rewrite app_nil_r in *.
        destruct tail as [|c r].
        -- destruct ip; [congruence|]. rewrite app_nil_r.
           cbn [app]. rewrite He. reflexivity.
        -- destruct Htail as [_ Hc]. rewrite Hc, app_nil_r.
           destruct ip; [congruence|]. cbn [app]. rewrite He. reflexivity.
      * rewrite span_digits; [|exact Hi|reflexivity].
        cbn [lit list_ascii_of_string app].
        change (Ascii.eqb "." ".") with true. cbv iota.
        rewrite span_digits; [|exact Hf|destruct tail; tauto].
        destruct (ip ++ fp); [congruence|]. rewrite He. reflexivity.
  - intros (body & Hs & Hp).
    apply parse_sign_spec in Hs. destruct Hs as (sign & -> & Hsign).
    apply parse_finite_spec in Hp.
    destruct Hp as (point & tail & -> & Hi & Hf & Hne & Hp & He).
    constructor; assumption.
Qed.

(** A number starts with a digit or a point, so it is none of the words
    [inf], [infinity], [nan] and [snan]. *)
Lemma parse_finite_head (body ip fp : str) (ex : Z) :
  parse_finite body = Some (ip, fp, ex) ->
  exists c r, body = c :: r /\ (isdigit c = true \/ c = "."%char).
Proof.
  intros H. apply parse_finite_spec in H.
  destruct H as (point & tail & -> & Hi & _ & Hne & Hp & _).
  destruct ip as [|d ip].
  - destruct Hp as [|fp]; [cbn in Hne; congruence|].
    exists "."%char, (fp ++ tail). auto.
  - cbn in Hi. apply andb_true_iff in Hi. destruct Hi as [Hd _].
    exists d, (ip ++ point ++ tail). auto.
Qed.

Lemma parse_finite_not_word (body ip fp : str) (ex : Z) :
  parse_finite body = Some (ip, fp, ex) ->
  forall (x : ascii) (w : str),
    x = "i"%char \/ x = "n"%char \/ x = "s"%char ->
    eqb_str (lower body) (x :: w) = false
    /\ startswith (lower body) (x :: w) = false.
Proof.
  intros H x w Hx. apply parse_finite_head in H.
  destruct H as (c & r & -> & Hc).
  assert (Hne : x <> lower_char c).
  { destruct Hc as [Hc| ->].
    - destruct (digit_not_mark c Hc) as (_ & _ & _ & ->).
      intros <-. destruct Hx as [->|[->| ->]]; discriminate Hc.
    - destruct Hx as [->|[->| ->]]; discriminate. }
  cbn [lower map]. split.
  - unfold eqb_str.
    destruct (list_eq_dec ascii_dec (lower_char c :: map lower_char r)
                (x :: w)) as [E|]; [congruence|reflexivity].
  - cbn [startswith]. destruct (ascii_dec x (lower_char c)); [congruence|].
    reflexivity.
Qed.

Lemma numeral_nonspace (text : str) (negative : bool) (ip fp : str) (ex : Z) :
  numeral text negative ip fp ex ->
  forallb (fun c => negb (isspace c)) text = true.
Proof.
  assert (Hdigits : forall s, forallb isdigit s = true ->
            forallb (fun c => negb (isspace c)) s = true).
  { intros s. apply forallb_impl. intros c.
    ascii_cases c; intros Hc; (discriminate || reflexivity). }
  assert (Hsign : forall s n, sign_text s n ->
            forallb (fun c => negb (isspace c)) s = true)
    by (intros s n []; reflexivity).
  intros H.
  destruct H as [sign ip point fp tail negative ex Hs Hi Hf Hne Hp He].
  rewrite !forallb_app, (Hsign _ _ Hs), (Hdigits _ Hi). cbn [andb].
  apply andb_true_iff. split.
  - destruct Hp as [|fp]; [reflexivity|]. cbn. apply Hdigits, Hf.
  - destruct He as [|mark sign' digits neg' Hm Hs' Hne' Hd]; [reflexivity|].
    cbn [forallb]. rewrite forallb_app, (Hsign _ _ Hs'), (Hdigits _ Hd).
    destruct Hm as [->| ->]; reflexivity.
Qed.

(** [float()] of a decimal numeral is its value. *)
Lemma float_of_numeral (text : str) (negative : bool) (ip fp : str) (ex : Z) :
  numeral text negative ip fp ex ->
  float_of_str text = Ret (Fin (signed negative (literal_value ip fp ex))).
Proof.
  intros H. unfold float_of_str.
  rewrite strip_none by (eapply numeral_nonspace; exact H).
  apply numeral_parse in H. destruct H as (body & -> & Hp).
  cbv beta iota.
  change (lit "inf") with ("i"%char :: lit "nf").
  change (lit "infinity") with ("i"%char :: lit "nfinity").
  change (lit "nan") with ("n"%char :: lit "an").
  destruct (parse_finite_not_word _ _ _ _ Hp "i" (lit "nf")) as [-> _];
    [auto|].
  destruct (parse_finite_not_word _ _ _ _ Hp "i" (lit "nfinity")) as [-> _];
    [auto|].
  destruct (parse_finite_not_word _ _ _ _ Hp "n" (lit "an")) as [-> _];
    [auto|].
  cbn [orb]. rewrite Hp. reflexivity.
Qed.

(** [Decimal] reads exactly the decimal numerals within its exponent
    range as finite numbers, whitespace and underscores apart. *)
Lemma decimal_of_str_finite (s : str) (negative : bool) (c e : Z) :
  decimal_of_str s = Ret (DFin negative c e) <->
  exists ip fp ex,
    numeral (remove_char "_" (strip s)) negative ip fp ex
    /\ c = coefficient ip fp /\ e = exponent fp ex
    /\ e + significant (ip ++ fp) - 1 <= MAX_EMAX /\ MIN_ETINY <= e.
Proof.
  unfold decimal_of_str, coefficient, exponent. split.
  - destruct (parse_sign (remove_char "_" (strip s))) as [n body] eqn:Es.
    destruct (eqb_str (lower body) (lit "inf")
              || eqb_str (lower body) (lit "infinity")); [discriminate|].
    destruct (startswith (lower body) (lit "nan")
              && forallb isdigit (skipn 3 (lower body))); [discriminate|].
    destruct (startswith (lower body) (lit "snan")
              && forallb isdigit (skipn 4 (lower body))); [discriminate|].
    destruct (parse_finite body) as [[[ip fp] ex]|] eqn:Ep; [|discriminate].
    cbv zeta.
    destruct ((MAX_EMAX <? ex - Z.of_nat (List.length fp)
                            + significant (ip ++ fp) - 1)
              || (ex - Z.of_nat (List.length fp) <? MIN_ETINY)) eqn:El;
      [discriminate|].
    intros H. injection H as <- <- <-.
    apply orb_false_iff in El. destruct El as [E1 E2].
    apply Z.ltb_ge in E1, E2.
    exists ip, fp, ex. repeat split; try assumption.
    apply numeral_parse. exists body. auto.
  - intros (ip & fp & ex & H & -> & -> & E1 & E2).
    apply numeral_parse in H. destruct H as (body & -> & Hp).
    cbv beta iota.
    change (lit "inf") with ("i"%char :: lit "nf").
    change (lit "infinity") with ("i"%char :: lit "nfinity").
    change (lit "nan") with ("n"%char :: lit "an").
    change (lit "snan") with ("s"%char :: lit "nan").
    destruct (parse_finite_not_word _ _ _ _ Hp "i" (lit "nf")) as [-> _];
      [auto|].
    destruct (parse_finite_not_word _ _ _ _ Hp "i" (lit "nfinity")) as [-> _];
      [auto|].
    destruct (parse_finite_not_word _ _ _ _ Hp "n" (lit "an")) as [_ ->];
      [auto|].
    destruct (parse_finite_not_word _ _ _ _ Hp "s" (lit "nan")) as [_ ->];
      [auto|].
    cbn [orb andb]. rewrite Hp. cbv zeta.
    replace (MAX_EMAX <? ex - Z.of_nat (List.length fp)
                         + significant (ip ++ fp) - 1)
      with false by (symmetry; apply Z.ltb_ge; exact E1).
    replace (ex - Z.of_nat (List.length fp) <? MIN_ETINY)
      with false by (symmetry; apply Z.ltb_ge; exact E2).
    reflexivity.
Qed.

(** *** Floats near a number *)

Lemma Qabs_lt_condition (x y : Q) :
  Qlt (Qabs.Qabs x) y <-> Qlt (Qopp y) x /\ Qlt x y.
Proof.
  split.
  - apply Qabs.Qabs_case; intros Hx H; split; lra.
  - intros [H1 H2]. apply Qabs.Qabs_case; intros; lra.
Qed.

Lemma is_float_int (n : Z) : Z.abs n < 2 ^ 53 -> is_float (inject_Z n).
Proof.
  intros H. exists n, 0. split; [exact H|]. split; [lia|].
  change (pow2 0) with (inject_Z 1).
  unfold Qeq, Qmult, inject_Z. cbn [Qnum Qden]. lia.
Qed.

(** A dyadic number with 23 binary places, below a thousand million. *)
Lemma is_float_fine (m : Z) :
  Z.abs m <= 999999999 * 2 ^ 23 -> is_float (Qmake m (2 ^ 23)).
Proof.
  intros H. exists m, (-23). split; [lia|]. split; [lia|].
  change (pow2 (-23)) with (Qmake 1 (2 ^ 23)).
  unfold Qeq, Qmult, inject_Z. cbn [Qnum Qden]. lia.
Qed.

(** The float of a literal is within [2 ** -23] of its value, when that
    is at most a thousand million in magnitude. *)
Lemma no_float_nearer_close (v q : Q) :
  no_float_nearer v q ->
  Qle (Qabs.Qabs v) (inject_Z 999999999) ->
  Qlt (Qabs.Qabs (Qminus q v)) (Qmake 1 (2 ^ 23)).
Proof.
  intros Hn Hv.
  set (m := (Qnum v * 2 ^ 23) / Z.pos (Qden v)).
  assert (Hm : Z.abs m <= 999999999 * 2 ^ 23).
  { apply Qabs.Qabs_Qle_condition in Hv. destruct Hv as [H1 H2].
    destruct v as [a d]. unfold Qle, Qopp, inject_Z in H1, H2.
    cbn [Qnum Qden] in *. subst m.
    pose proof (Pos2Z.is_pos d).
    assert (- (999999999 * 2 ^ 23) <= a * 2 ^ 23 / Z.pos d)
      by (apply Z.div_le_lower_bound; lia).
    assert (a * 2 ^ 23 / Z.pos d <= 999999999 * 2 ^ 23)
      by (apply Z.div_le_upper_bound; lia).
    lia. }
  eapply Qle_lt_trans; [apply (Hn _ (is_float_fine m Hm))|].
  apply Qabs_lt_condition.
  destruct v as [a d]. subst m. cbn [Qnum Qden].
  pose proof (Pos2Z.is_pos d).
  pose proof (Z.div_mod (a * 2 ^ 23) (Z.pos d) ltac:(lia)) as Hdm.
  pose proof (Z.mod_pos_bound (a * 2 ^ 23) (Z.pos d) ltac:(lia)) as Hmod.
  unfold Qlt, Qminus, Qplus, Qopp. cbn [Qnum Qden].
  rewrite !Pos2Z.inj_mul. cbn [Z.pow_pos Pos.iter Z.mul Pos.mul].
  nia.
Qed.

Lemma round_half_even_near (x : Q) (n : Z) :
  Qlt (Qabs.Qabs (Qminus x (inject_Z n))) (Qmake 1 2) ->
  round_half_even x = n.
Proof.
  intros H. apply Qabs_lt_condition in H. destruct H as [H1 H2].
  destruct x as [a d].
  unfold Qlt, Qminus, Qplus, Qopp, inject_Z in H1, H2.
  cbn [Qnum Qden] in H1, H2. rewrite Pos.mul_1_r in H1, H2.
  unfold round_half_even. cbn [Qnum Qden].
  pose proof (Pos2Z.is_pos d) as Hd.
  pose proof (Z.div_mod a (Z.pos d) ltac:(lia)) as Hdm.
  pose proof (Z.mod_pos_bound a (Z.pos d) Hd) as Hm.
  set (f := a / Z.pos d) in *. set (r := a mod Z.pos d) in *.
  assert (f <= n) by nia.
  assert (n - 1 <= f) by nia.
  assert ((f = n /\ 2 * r < Z.pos d) \/ (f = n - 1 /\ Z.pos d < 2 * r))
    as [[Hf Hr]|[Hf Hr]].
  { assert (f = n \/ f = n - 1) as [Hf|Hf] by lia;
      rewrite Hf in *; [left|right]; split; try reflexivity; nia. }
  - replace (2 * r <? Z.pos d) with true by (symmetry; apply Z.ltb_lt; lia).
    exact Hf.
  - replace (2 * r <? Z.pos d) with false by (symmetry; apply Z.ltb_ge; lia).
    replace (Z.pos d <? 2 * r) with true by (symmetry; apply Z.ltb_lt; lia).
    lia.
Qed.

(** The float of a literal with two decimals, from a hundredth to a
    thousand million, passes the checks of [validate_amount] and rounds
    to the value of the literal. *)
Lemma float_of_two_decimals (v q : Q) (c : Z) :
  no_float_nearer v q -> Qeq v (Qmake c 100) ->
  Qlt 0 v -> Qle v (inject_Z 999999999) ->
  Qlt 0 q /\ Qle q (inject_Z 999999999)
  /\ round_half_even (Qmult q (inject_Z 100)) = c.
Proof.
  intros Hn Hc Hpos Hmax.
  assert (H100 : Qeq (inject_Z c) (Qmult v (inject_Z 100))).
  { rewrite Hc. unfold Qeq, Qmult, inject_Z. cbn [Qnum Qden]. lia. }
  clear Hc.
  assert (Hclose : Qlt (Qabs.Qabs (Qminus q v)) (Qmake 1 (2 ^ 23))).
  { apply no_float_nearer_close; [exact Hn|].
    apply Qabs.Qabs_Qle_condition.
    change (inject_Z 999999999) with (Qmake 999999999 1) in *.
    split; lra. }
  apply Qabs_lt_condition in Hclose. destruct Hclose as [C1 C2].
  change (inject_Z 100) with (Qmake 100 1) in *.
  assert (Hone : Qle (inject_Z 1) (inject_Z c)).
  { rewrite <- Zle_Qle. assert (Qlt 0 (inject_Z c)) as H0 by lra.
    unfold Qlt, inject_Z in H0. cbn [Qnum Qden] in H0. lia. }
  change (Qmake 1 (2 ^ 23)) with (Qmake 1 8388608) in *.
  change (inject_Z 100) with (Qmake 100 1) in *.
  change (inject_Z 1) with (Qmake 1 1) in *.
  change (inject_Z 999999999) with (Qmake 999999999 1) in *.
  split; [lra|]. split.
  - destruct (Qlt_le_dec (Qmake 999999999 1) q) as [Hgt|Hle]; [|exact Hle].
    exfalso.
    pose proof (Hn _ (is_float_int 999999999 ltac:(vm_compute; reflexivity)))
      as H.
    change (inject_Z 999999999) with (Qmake 999999999 1) in H.
    revert H. apply Qabs.Qabs_case; intros H1;
      apply Qabs.Qabs_case; intros H2 H; lra.
  - apply round_half_even_near. apply Qabs_lt_condition. split; lra.
Qed.

Lemma float_of_nonpositive (v q : Q) :
  no_float_nearer v q -> Qle v 0 -> Qle q 0.
Proof.
  intros Hn Hv.
  destruct (Qlt_le_dec 0 q) as [Hgt|Hle]; [|exact Hle]. exfalso.
  pose proof (Hn _ (is_float_int 0 ltac:(vm_compute; reflexivity))) as H.
  change (inject_Z 0) with 0%Q in H.
  revert H. apply Qabs.Qabs_case; intros H1;
    apply Qabs.Qabs_case; intros H2 H; lra.
Qed.

Lemma no_float_nearer_refl (v : Q) : no_float_nearer v v.
Proof.
  intros q' _. apply Qabs.Qabs_case; intros H1;
    apply Qabs.Qabs_case; intros H2; lra.
Qed.

(** A float that is not a number of hundredths: the float [12.34], which
    is [3473401212609495 / 2 ** 48].  The floats from 8 to 16 are the
    multiples of [2 ** -49], and the smaller ones are below 8. *)
Lemma float_12_34 :
  is_float (Qmake 3473401212609495 281474976710656)
  /\ no_float_nearer (Qmake 1234 100)
                     (Qmake 3473401212609495 281474976710656).
Proof.
  split.
  - exists 3473401212609495, (-48). split; [vm_compute; reflexivity|].
    split; [lia|]. vm_compute. reflexivity.
  - intros q' (m & e & Hm & He & Hq). rewrite Hq. clear Hq q'.
    assert (P53 : 2 ^ 53 = 9007199254740992) by reflexivity.
    rewrite P53 in Hm. clear P53.
    destruct (Z_le_gt_dec (-49) e) as [Hge|Hlt].
    + assert (Hgrid : Qeq (Qmult (inject_Z m) (pow2 e))
                          (Qmake (m * 2 ^ (e + 49)) 562949953421312)).
      { unfold pow2. destruct (0 <=? e) eqn:E0.
        - apply Z.leb_le in E0. unfold Qeq, Qmult, inject_Z.
          cbn [Qnum Qden]. rewrite Z.pow_add_r by lia.
          change (2 ^ 49) with 562949953421312. lia.
        - apply Z.leb_gt in E0. unfold Qeq, Qmult, inject_Z.
          cbn [Qnum Qden].
          assert (0 < 2 ^ (- e)) by (apply Z.pow_pos_nonneg; lia).
          rewrite Pos.mul_1_l, Z2Pos.id by assumption.
          replace 562949953421312 with (2 ^ (e + 49 + - e))
            by (replace (e + 49 + - e) with 49 by lia; reflexivity).
          rewrite (Z.pow_add_r 2 (e + 49) (- e)) by lia. ring. }
      rewrite Hgrid. generalize (m * 2 ^ (e + 49)). intros k.
      unfold Qle, Qminus, Qplus, Qopp, Qabs.Qabs. cbn [Qnum Qden].
      rewrite !Pos2Z.inj_mul. lia.
    + assert (2 ^ 50 <= 2 ^ (- e)) as HD by (apply Z.pow_le_mono_r; lia).
      change (2 ^ 50) with 1125899906842624 in HD.
      unfold pow2. replace (0 <=? e) with false
        by (symmetry; apply Z.leb_gt; lia).
      unfold Qle, Qminus, Qplus, Qmult, Qopp, Qabs.Qabs, inject_Z.
      cbn [Qnum Qden]. rewrite !Pos2Z.inj_mul, Z2Pos.id by lia.
      set (D := 2 ^ (- e)) in *. clearbody D. nia.
Qed.

End PyNumFacts.

(** ** format_utils.py: text *)

Module FormatFacts.
Import PyStr PyNum FormatUtils Notions PyStrFacts.

Lemma lower_capitalize_from (i : nat) (ws : list str) :
  Forall lowered ws -> map lower (capitalize_from i ws) = ws.
Proof.
  intros H. revert i. induction H as [|w ws Hw Hws IH]; intros i;
    [reflexivity|].
  cbn [capitalize_from map]. rewrite IH. f_equal.
  destruct ((i =? 0)%nat || negb (mem w lowercase_words)).
  - apply lower_capitalize. exact Hw.
  - exact Hw.
Qed.

(** With one-character case mappings, [capitalize_words] is idempotent:
    applying it to its own output returns that output. *)
Lemma capitalize_words_idempotent (text : str) :
  capitalize_words (capitalize_words text) = capitalize_words text.
Proof.
  destruct text as [|a text]; [reflexivity|].
  change (capitalize_words (a :: text))
    with (join (lit " ") (capitalize_from 0 (split (lower (a :: text))))).
  set (W := split (lower (a :: text))).
  assert (HW : Forall word_ok W) by apply split_words.
  assert (HL : Forall lowered W) by (apply lowered_split, lower_lowered).
  destruct (join (lit " ") (capitalize_from 0 W)) as [|b out] eqn:E;
    [reflexivity|].
  unfold capitalize_words. rewrite <- E.
  rewrite lower_join, lower_capitalize_from by exact HL.
  rewrite split_join by exact HW. reflexivity.
Qed.

(** *** The same function over code points *)

Lemma isspace_code (c : ascii) :
  is_ascii c = true -> Unicode.isspace (code c) = isspace c.
Proof. ascii_cases c; intros H; try discriminate H; reflexivity. Qed.

Lemma lower_cp_code (c : ascii) :
  Unicode.lower_cp (code c) = [code (lower_char c)].
Proof. ascii_cases c; reflexivity. Qed.

Lemma title_cp_code (c : ascii) :
  Unicode.title_cp (code c) = [code (upper_char c)].
Proof. ascii_cases c; reflexivity. Qed.

Lemma lower_char_ascii (c : ascii) :
  is_ascii c = true -> is_ascii (lower_char c) = true.
Proof. ascii_cases c; intros H; try discriminate H; reflexivity. Qed.

Lemma upper_char_ascii (c : ascii) :
  is_ascii c = true -> is_ascii (upper_char c) = true.
Proof. ascii_cases c; intros H; try discriminate H; reflexivity. Qed.

Lemma code_inj (a b : ascii) : code a = code b -> a = b.
Proof.
  unfold code. intros H. apply N2Z.inj in H.
  rewrite <- (ascii_N_embedding a), <- (ascii_N_embedding b), H.
  reflexivity.
Qed.

Lemma of_str_inj (a b : str) : Unicode.of_str a = Unicode.of_str b -> a = b.
Proof.
  revert b. induction a as [|x a IH]; intros [|y b] H; try discriminate;
    [reflexivity|].
  cbn in H. injection H as Hx Hr.
  f_equal; [apply code_inj, Hx|apply IH, Hr].
Qed.

Lemma lower_of_str (s : str) :
  Unicode.lower (Unicode.of_str s) = Unicode.of_str (lower s).
Proof.
  induction s as [|c s IH]; [reflexivity|].
  cbn [Unicode.of_str map Unicode.lower flat_map lower] in *.
  rewrite lower_cp_code. cbn [app]. f_equal. exact IH.
Qed.

Lemma capitalize_of_str (s : str) :
  Unicode.capitalize (Unicode.of_str s) = Unicode.of_str (capitalize s).
Proof.
  destruct s as [|c s]; [reflexivity|].
  cbn [Unicode.of_str map Unicode.capitalize capitalize].
  rewrite title_cp_code. cbn [app]. f_equal. apply lower_of_str.
Qed.

Lemma split_of_str (s : str) :
  forallb is_ascii s = true ->
  Unicode.split (Unicode.of_str s) = map Unicode.of_str (split s).
Proof.
  induction s as [|c r IH]; [reflexivity|].
  intros H. cbn [forallb] in H. apply andb_true_iff in H.
  destruct H as [Hc Hr]. specialize (IH Hr).
  cbn [Unicode.of_str map Unicode.split split].
  rewrite (isspace_code c Hc).
  destruct (isspace c); [exact IH|].
  destruct r as [|d r']; [reflexivity|].
  cbn [forallb] in Hr. apply andb_true_iff in Hr. destruct Hr as [Hd _].
  cbn [map]. rewrite (isspace_code d Hd).
  change (code d :: map code r') with (Unicode.of_str (d :: r')).
  destruct (isspace d).
  - cbn [map]. rewrite IH. reflexivity.
  - rewrite IH. destruct (split (d :: r')); reflexivity.
Qed.

Lemma join_of_str (ws : list str) :
  Unicode.join [32] (map Unicode.of_str ws)
  = Unicode.of_str (join (lit " ") ws).
Proof.
  induction ws as [|w ws IH]; [reflexivity|].
  destruct ws as [|w2 ws']; [reflexivity|].
  change (Unicode.join [32] (map Unicode.of_str (w :: w2 :: ws')))
    with (Unicode.of_str w ++ [32]
          ++ Unicode.join [32] (map Unicode.of_str (w2 :: ws'))).
  rewrite IH. unfold Unicode.of_str.
  change (join (lit " ") (w :: w2 :: ws'))
    with (w ++ lit " " ++ join (lit " ") (w2 :: ws')).
  rewrite !map_app. reflexivity.
Qed.

Lemma eqb_of_str (a b : str) :
  Unicode.eqb_ustr (Unicode.of_str a) (Unicode.of_str b) = eqb_str a b.
Proof.
  unfold Unicode.eqb_ustr, eqb_str.
  destruct (list_eq_dec Z.eq_dec _ _) as [E|E],
           (list_eq_dec ascii_dec a b) as [E'|E']; try reflexivity.
  - apply of_str_inj in E. contradiction.
  - subst. contradiction.
Qed.

Lemma mem_of_str (w : str) (l : list str) :
  Unicode.mem (Unicode.of_str w) (map Unicode.of_str l) = mem w l.
Proof.
  unfold Unicode.mem, mem. induction l as [|x l IH]; [reflexivity|].
  cbn [map existsb]. rewrite IH, eqb_of_str. reflexivity.
Qed.

Lemma capitalize_from_of_str (i : nat) (ws : list str) :
  Unicode.capitalize_from i (map Unicode.of_str ws)
  = map Unicode.of_str (capitalize_from i ws).
Proof.
  revert i. induction ws as [|w ws IH]; intros i; [reflexivity|].
  cbn [map Unicode.capitalize_from capitalize_from]. rewrite IH.
  unfold Unicode.lowercase_words. rewrite mem_of_str, capitalize_of_str.
  destruct ((i =? 0)%nat || negb (mem w lowercase_words)); reflexivity.
Qed.

Lemma lower_ascii (s : str) :
  forallb is_ascii s = true -> forallb is_ascii (lower s) = true.
Proof.
  unfold lower. rewrite !forallb_forall. intros H c Hc.
  apply in_map_iff in Hc. destruct Hc as (c' & <- & Hc').
  apply lower_char_ascii, H, Hc'.
Qed.

(** On ASCII text the two versions of the function agree. *)
Lemma capitalize_words_of_str (text : str) :
  forallb is_ascii text = true ->
  Unicode.capitalize_words (Unicode.of_str text)
  = Unicode.of_str (capitalize_words text).
Proof.
  intros H. destruct text as [|c text]; [reflexivity|].
  change (Unicode.of_str (c :: text)) with (code c :: Unicode.of_str text).
  cbn [Unicode.capitalize_words capitalize_words].
  change (code c :: Unicode.of_str text) with (Unicode.of_str (c :: text)).
  rewrite lower_of_str, split_of_str by (apply lower_ascii; exact H).
  rewrite capitalize_from_of_str, join_of_str. reflexivity.
Qed.

Lemma forallb_join (p : ascii -> bool) (sep : str) (ws : list str) :
  forallb p sep = true -> forallb (forallb p) ws = true ->
  forallb p (join sep ws) = true.
Proof.
  intros Hsep. induction ws as [|w ws IH]; [reflexivity|].
  intros H. cbn [forallb] in H. apply andb_true_iff in H.
  destruct H as [Hw Hws].
  destruct ws as [|w2 ws']; [exact Hw|].
  change (join sep (w :: w2 :: ws')) with (w ++ sep ++ join sep (w2 :: ws')).
  rewrite !forallb_app, Hw, Hsep, (IH Hws). reflexivity.
Qed.

Lemma forallb_split (p : ascii -> bool) (s : str) :
  forallb p s = true -> forallb (forallb p) (split s) = true.
Proof.
  intros H. apply forallb_forall. intros w Hw.
  apply forallb_forall. intros c Hc.
  rewrite forallb_forall in H. apply H.
  assert (Hin : In c (List.concat (split s))) by (apply in_concat; eauto).
  rewrite concat_split in Hin. apply filter_In in Hin. tauto.
Qed.

Lemma capitalize_ascii (w : str) :
  forallb is_ascii w = true -> forallb is_ascii (capitalize w) = true.
Proof.
  destruct w as [|c r]; [reflexivity|]. cbn [forallb capitalize].
  intros H. apply andb_true_iff in H. destruct H as [Hc Hr].
  rewrite (upper_char_ascii c Hc). apply (lower_ascii r Hr).
Qed.

Lemma capitalize_from_ascii (i : nat) (ws : list str) :
  forallb (forallb is_ascii) ws = true ->
  forallb (forallb is_ascii) (capitalize_from i ws) = true.
Proof.
  revert i. induction ws as [|w ws IH]; intros i; [reflexivity|].
  cbn [forallb capitalize_from]. intros H.
  apply andb_true_iff in H. destruct H as [Hw Hws].
  rewrite (IH _ Hws), andb_true_r.
  destruct (_ || _); [apply capitalize_ascii|]; exact Hw.
Qed.

Lemma capitalize_words_ascii (text : str) :
  forallb is_ascii text = true ->
  forallb is_ascii (capitalize_words text) = true.
Proof.
  intros H. destruct text as [|c text]; [reflexivity|].
  unfold capitalize_words.
  apply forallb_join; [reflexivity|].
  apply capitalize_from_ascii, forallb_split, lower_ascii, H.
Qed.

(** C10, as the code has it.  On every ASCII text [capitalize_words] is
    idempotent: applying it to its own output returns that output. *)
Theorem C10_capitalize_words_idempotent_on_ascii (text : str) :
  forallb is_ascii text = true ->
  Unicode.capitalize_words (Unicode.capitalize_words (Unicode.of_str text))
  = Unicode.capitalize_words (Unicode.of_str text).
Proof.
  intros H.
  rewrite (capitalize_words_of_str text H).
  rewrite capitalize_words_of_str by (apply capitalize_words_ascii; exact H).
  f_equal. apply capitalize_words_idempotent.
Qed.

Lemma C10_capitalize_words_idempotent_on_ascii_witness :
  Unicode.capitalize_words
    (Unicode.capitalize_words (Unicode.of_str (lit "the quick  brown FOX")))
  = Unicode.capitalize_words (Unicode.of_str (lit "the quick  brown FOX")).
Proof.
  apply (C10_capitalize_words_idempotent_on_ascii
           (lit "the quick  brown FOX")).
  reflexivity.
Defined.

Lemma capitalize_words_examples :
  capitalize_words (lit "the quick brown fox") = lit "The Quick Brown Fox"
  /\ capitalize_words (lit "  war AND  peace ") = lit "War and Peace"
  /\ Unicode.capitalize_words (Unicode.of_str (lit "the quick brown fox"))
     = Unicode.of_str (lit "The Quick Brown Fox").
Proof. repeat split; vm_compute; reflexivity. Qed.

(** C10, as stated, fails beyond ASCII.  The text of the one character
    U+0149 becomes U+02BC U+004E, and on that text the function returns
    U+02BC U+006E: the first character has no case and the capital N is
    lowered as the rest of the word. *)
Lemma C10_special_casing_counterexample :
  Unicode.capitalize_words [329] = [700; 78]
  /\ Unicode.capitalize_words (Unicode.capitalize_words [329]) = [700; 110]
  /\ Unicode.capitalize_words (Unicode.capitalize_words [329])
     <> Unicode.capitalize_words [329].
Proof. repeat split; vm_compute; (reflexivity || discriminate). Qed.

Lemma filter_digits_space : filter isdigit (lit " ") = [].
Proof. reflexivity. Qed.

Lemma forallb_firstn_skipn {A : Type} (p : A -> bool) (n : nat) (l : list A) :
  forallb p l = true ->
  forallb p (firstn n l) = true /\ forallb p (skipn n l) = true.
Proof.
  intros H. rewrite <- (firstn_skipn n l), forallb_app in H.
  apply andb_true_iff in H. exact H.
Qed.

(** C3, as the code has it.  For a clean 10-digit phone string, the digits
    of the formatted number are the digits of the country code followed by
    the original ten digits; dropping the country code's digits gives the
    original back. *)
Theorem C3_phone_digits_after_country_code (phone country_code : str) :
  List.length phone = 10%nat ->
  forallb isdigit phone = true ->
  let extracted := filter isdigit (format_phone_number phone country_code) in
  extracted = filter isdigit country_code ++ phone
  /\ skipn (List.length (filter isdigit country_code)) extracted = phone.
Proof.
  intros Hlen Hdig extracted.
  assert (E : extracted = filter isdigit country_code ++ phone).
  { subst extracted. unfold format_phone_number.
    destruct phone as [|c phone']; [discriminate|].
    set (phone := c :: phone') in *.
    rewrite (filter_all isdigit phone Hdig), Hlen. cbn [Nat.eqb].
    rewrite !filter_app, filter_digits_space. cbn [app].
    destruct (forallb_firstn_skipn isdigit 5 phone Hdig) as [H1 H2].
    rewrite (filter_all _ _ H1), (filter_all _ _ H2), firstn_skipn.
    reflexivity. }
  split; [exact E|].
  rewrite E, skipn_app, skipn_all, Nat.sub_diag. reflexivity.
Qed.

Lemma C3_phone_digits_after_country_code_witness :
  filter isdigit (format_phone_number (lit "9876543210") (lit "+91"))
  = filter isdigit (lit "+91") ++ lit "9876543210"
  /\ skipn (List.length (filter isdigit (lit "+91")))
           (filter isdigit (format_phone_number (lit "9876543210") (lit "+91")))
     = lit "9876543210".
Proof.
  apply (C3_phone_digits_after_country_code (lit "9876543210") (lit "+91"));
    reflexivity.
Defined.

(** C3, as stated, fails: with the default country code the digits of the
    formatted number are twelve, the country code's [91] first. *)
Lemma C3_round_trip_counterexample :
  let phone := lit "9876543210" in
  List.length phone = 10%nat
  /\ forallb isdigit phone = true
  /\ filter isdigit (format_phone_number phone default_country_code)
     = lit "919876543210"
  /\ filter isdigit (format_phone_number phone default_country_code) <> phone.
Proof.
  cbv zeta. repeat split; try reflexivity. vm_compute. discriminate.
Qed.

(** *** File sizes *)

Lemma floor_log_bounds (n : Z) :
  0 < n ->
  let i := Z.log2 n / 10 in
  0 <= i /\ 1024 ^ i <= n < 1024 ^ (i + 1).
Proof.
  intros Hn i.
  pose proof (Z.log2_nonneg n) as H0.
  destruct (Z.log2_spec n Hn) as [Hlo Hhi].
  assert (Hi : 0 <= i) by (apply Z.div_pos; lia).
  assert (H10 : 10 * i <= Z.log2 n < 10 * i + 10).
  { unfold i. pose proof (Z.mod_pos_bound (Z.log2 n) 10).
    pose proof (Z.div_mod (Z.log2 n) 10). lia. }
  assert (Hpow : forall k, 0 <= k -> 1024 ^ k = 2 ^ (10 * k)).
  { intros k Hk. rewrite Z.pow_mul_r by lia. reflexivity. }
  rewrite !Hpow by lia. split; [exact Hi|]. split.
  - apply Z.le_trans with (2 ^ Z.log2 n); [|exact Hlo].
    apply Z.pow_le_mono_r; lia.
  - apply Z.lt_le_trans with (2 ^ Z.succ (Z.log2 n)); [exact Hhi|].
    apply Z.pow_le_mono_r; lia.
Qed.

(** C6, as the code has it.  For every size from 0 to [1024 ** 5 - 1024],
    [format_file_size] returns a string: ["0 B"] for 0, and otherwise the
    size divided by [1024 ** i] and rounded to two decimals, followed by
    the [i]-th unit, where [i] is the floor of the base-1024 logarithm. *)
Theorem C6_format_file_size_in_range (n : Z) :
  0 <= n <= 1024 ^ 5 - 1024 ->
  exists s,
    format_file_size n = Ret s
    /\ (n = 0 -> s = lit "0 B")
    /\ (0 < n ->
        exists i name,
          0 <= i <= 4
          /\ 1024 ^ i <= n < 1024 ^ (i + 1)
          /\ nth_error size_names (Z.to_nat i) = Some name
          /\ s = repr_round2
                   (round2 (Fin (Qdiv (inject_Z n) (inject_Z (1024 ^ i)))))
                 ++ lit " " ++ name).
Proof.
  intros [Hlo Hhi]. unfold format_file_size.
  destruct (n =? 0) eqn:E0.
  - apply Z.eqb_eq in E0. eexists. split; [reflexivity|].
    split; [reflexivity|]. lia.
  - apply Z.eqb_neq in E0. assert (Hn : 0 < n) by lia.
    unfold floor_log_1024.
    destruct (n <=? 0) eqn:E1; [apply Z.leb_le in E1; lia|].
    cbn [bind].
    destruct (floor_log_bounds n Hn) as (Hi & Hb1 & Hb2).
    set (i := Z.log2 n / 10) in *.
    assert (Hi4 : i <= 4).
    { destruct (Z_le_gt_dec i 4) as [|Hgt]; [assumption|exfalso].
      assert (1024 ^ 5 <= 1024 ^ i) by (apply Z.pow_le_mono_r; lia).
      change (1024 ^ 5) with 1125899906842624 in *. lia. }
    unfold pow_1024.
    destruct (1024 <=? 10 * i) eqn:E2; [apply Z.leb_le in E2; lia|].
    cbn [bind]. rewrite PyNumFacts.float_of_int_small.
    2:{ change (1024 ^ 5) with 1125899906842624 in Hhi.
        assert (1125899906842624 < 2 ^ 1024 - 2 ^ 970)
          by (vm_compute; reflexivity).
        lia. }
    cbn [bind].
    assert (Hcases : i = 0 \/ i = 1 \/ i = 2 \/ i = 3 \/ i = 4) by lia.
    assert (Hname : exists name,
               list_index size_names i = Ret name
               /\ nth_error size_names (Z.to_nat i) = Some name).
    { destruct Hcases as [->|[->|[->|[->| ->]]]]; eexists; split;
        reflexivity. }
    destruct Hname as (name & Hidx & Hnth). rewrite Hidx. cbn [bind].
    eexists. split; [reflexivity|]. split; [lia|]. intros _.
    exists i, name. repeat split; try assumption; lia.
Qed.

Lemma C6_format_file_size_in_range_witness :
  exists s,
    format_file_size 1536 = Ret s
    /\ (1536 = 0 -> s = lit "0 B")
    /\ (0 < 1536 ->
        exists i name,
          0 <= i <= 4
          /\ 1024 ^ i <= 1536 < 1024 ^ (i + 1)
          /\ nth_error size_names (Z.to_nat i) = Some name
          /\ s = repr_round2
                   (round2 (Fin (Qdiv (inject_Z 1536) (inject_Z (1024 ^ i)))))
                 ++ lit " " ++ name).
Proof.
  apply (C6_format_file_size_in_range 1536).
  split; [lia|vm_compute; discriminate].
Defined.

Lemma format_file_size_examples :
  format_file_size 0 = Ret (lit "0 B")
  /\ format_file_size 1536 = Ret (lit "1.5 KB")
  /\ format_file_size 1152 = Ret (lit "1.12 KB")
  /\ format_file_size 1048575 = Ret (lit "1024.0 KB")
  /\ format_file_size 123456789 = Ret (lit "117.74 MB").
Proof. repeat split; vm_compute; reflexivity. Qed.

(** C6, as stated, fails: a negative size is a math domain error of the
    logarithm, and a size of [1024 ** 6] has no unit in the table. *)
Lemma C6_format_file_size_counterexample :
  format_file_size (-1) = Raise ValueError
  /\ format_file_size (1024 ^ 6) = Raise IndexError.
Proof. split; vm_compute; reflexivity. Qed.

Lemma format_file_size_negative (n : Z) :
  n < 0 -> format_file_size n = Raise ValueError.
Proof.
  intros Hn. unfold format_file_size, floor_log_1024.
  destruct (n =? 0) eqn:E0; [apply Z.eqb_eq in E0; lia|].
  destruct (n <=? 0) eqn:E1; [reflexivity|apply Z.leb_gt in E1; lia].
Qed.

(** *** Words, once more *)

(** X1.  [capitalize_words] changes the case of letters and the spacing, and
    nothing else: its result in lower case is the lower-cased words of
    the text, joined by single spaces (ASCII text). *)
Theorem capitalize_words_keeps_words (text : str) :
  forallb is_ascii text = true ->
  lower (capitalize_words text) = join (lit " ") (split (lower text)).
Proof.
  intros _. destruct text as [|c text]; [reflexivity|].
  unfold capitalize_words. rewrite lower_join, lower_capitalize_from.
  - reflexivity.
  - apply lowered_split, lower_lowered.
Qed.

Lemma capitalize_words_keeps_words_witness :
  lower (capitalize_words (lit "  the LORD of   the rings "))
  = join (lit " ") (split (lower (lit "  the LORD of   the rings "))).
Proof. apply capitalize_words_keeps_words. reflexivity. Defined.

(** *** Truncation *)

Lemma slice_to_firstn (s : str) (n : Z) :
  0 <= n -> slice_to s n = firstn (Z.to_nat n) s.
Proof.
  intros H. unfold slice_to.
  replace (n <? 0) with false by (symmetry; apply Z.ltb_ge; lia).
  reflexivity.
Qed.

(** X2.  For a non-negative [max_length]: a text within the limit is returned
    as it is; a longer one is cut to exactly [max_length] characters that
    end with the suffix, provided the suffix itself fits in the limit;
    when the suffix does not fit, the result is longer than the limit. *)
Theorem truncate_text_length (text suffix : str) (max_length : Z) :
  0 <= max_length ->
  let result := truncate_text text max_length suffix in
  (Z.of_nat (List.length text) <= max_length -> result = text)
  /\ (max_length < Z.of_nat (List.length text) ->
      Z.of_nat (List.length suffix) <= max_length ->
      Z.of_nat (List.length result) = max_length
      /\ result
         = firstn (Z.to_nat (max_length - Z.of_nat (List.length suffix))) text
           ++ suffix)
  /\ (max_length < Z.of_nat (List.length text) ->
      max_length < Z.of_nat (List.length suffix) ->
      max_length < Z.of_nat (List.length result)).
Proof.
  intros Hmax result. subst result. unfold truncate_text.
  destruct text as [|c text]; [cbn; repeat split; lia|].
  set (t := c :: text).
  destruct (Z.of_nat (List.length t) <=? max_length) eqn:E.
  - apply Z.leb_le in E. repeat split; lia.
  - apply Z.leb_gt in E. split; [lia|]. split.
    + intros _ Hs. rewrite slice_to_firstn by lia. split; [|reflexivity].
      rewrite length_app, length_firstn. lia.
    + intros _ Hs. rewrite length_app. lia.
Qed.

Lemma truncate_text_length_witness :
  let result := truncate_text (lit "a long description") 10 (lit "...") in
  (Z.of_nat (List.length (lit "a long description")) <= 10 ->
   result = lit "a long description")
  /\ (10 < Z.of_nat (List.length (lit "a long description")) ->
      Z.of_nat (List.length (lit "...")) <= 10 ->
      Z.of_nat (List.length result) = 10
      /\ result
         = firstn (Z.to_nat (10 - Z.of_nat (List.length (lit "..."))))
             (lit "a long description")
           ++ lit "...")
  /\ (10 < Z.of_nat (List.length (lit "a long description")) ->
      10 < Z.of_nat (List.length (lit "...")) ->
      10 < Z.of_nat (List.length result)).
Proof.
  apply (truncate_text_length (lit "a long description") (lit "...") 10).
  lia.
Defined.

Lemma truncate_text_examples :
  truncate_text (lit "a long description") 10 (lit "...") = lit "a long ..."
  /\ truncate_text (lit "abcdefgh") 2 (lit "...") = lit "abcdefg..."
  /\ truncate_text (lit "short") 10 (lit "...") = lit "short"
  /\ truncate_text [] 10 (lit "...") = [].
Proof. repeat split; reflexivity. Qed.

(** *** Durations *)

(** X3.  A duration of [m] minutes and [s] seconds, under an hour, is shown as
    both; from an hour on, hours and minutes are shown and the seconds
    are dropped. *)
Theorem format_duration_parts (h m s : Z) :
  0 <= m < 60 -> 0 <= s < 60 ->
  (1 <= m ->
   format_duration (60 * m + s)
   = int_str m ++ lit "m " ++ int_str s ++ lit "s")
  /\ (1 <= h ->
      format_duration (3600 * h + 60 * m + s)
      = int_str h ++ lit "h " ++ int_str m ++ lit "m").
Proof.
  intros Hm Hs. unfold format_duration. split; intros H1.
  - replace (60 * m + s <? 60) with false by (symmetry; apply Z.ltb_ge; lia).
    replace (60 * m + s <? 3600) with true by (symmetry; apply Z.ltb_lt; lia).
    replace ((60 * m + s) / 60) with m
      by (apply (Z.div_unique _ _ _ s); lia).
    replace ((60 * m + s) mod 60) with s
      by (apply (Z.mod_unique _ _ m); lia).
    reflexivity.
  - replace (3600 * h + 60 * m + s <? 60) with false
      by (symmetry; apply Z.ltb_ge; lia).
    replace (3600 * h + 60 * m + s <? 3600) with false
      by (symmetry; apply Z.ltb_ge; lia).
    replace ((3600 * h + 60 * m + s) / 3600) with h
      by (apply (Z.div_unique _ _ _ (60 * m + s)); lia).
    replace ((3600 * h + 60 * m + s) mod 3600) with (60 * m + s)
      by (apply (Z.mod_unique _ _ h); lia).
    replace ((60 * m + s) / 60) with m
      by (apply (Z.div_unique _ _ _ s); lia).
    reflexivity.
Qed.

Lemma format_duration_parts_witness :
  (1 <= 2 ->
   format_duration (60 * 2 + 5)
   = int_str 2 ++ lit "m " ++ int_str 5 ++ lit "s")
  /\ (1 <= 26 ->
      format_duration (3600 * 26 + 60 * 2 + 5)
      = int_str 26 ++ lit "h " ++ int_str 2 ++ lit "m").
Proof. apply (format_duration_parts 26 2 5); lia. Defined.

Lemma format_duration_examples :
  format_duration 0 = lit "0s"
  /\ format_duration 59 = lit "59s"
  /\ format_duration 60 = lit "1m 0s"
  /\ format_duration 3599 = lit "59m 59s"
  /\ format_duration 3600 = lit "1h 0m"
  /\ format_duration 93725 = lit "26h 2m"
  /\ format_duration (-5) = lit "-5s".
Proof. repeat split; vm_compute; reflexivity. Qed.

(** *** Lists *)

Lemma join_removelast (sep : str) (a b : str) (l : list str) :
  join sep (a :: b :: l)
  = join sep (removelast (a :: b :: l)) ++ sep ++ last (a :: b :: l) [].
Proof.
  revert a b. induction l as [|c l IH]; intros a b; [reflexivity|].
  change (join sep (a :: b :: c :: l))
    with (a ++ sep ++ join sep (b :: c :: l)).
  rewrite IH.
  change (removelast (a :: b :: c :: l)) with (a :: removelast (b :: c :: l)).
  change (last (a :: b :: c :: l) []) with (last (b :: c :: l) []).
  destruct (removelast (b :: c :: l)) as [|x xs] eqn:E.
  - destruct l; discriminate.
  - change (join sep (a :: x :: xs)) with (a ++ sep ++ join sep (x :: xs)).
    rewrite <- !app_assoc. reflexivity.
Qed.

(** X4.  With one separator for both places, and as many items as are shown
    in full (two are always shown), [format_list_display] is [join]. *)
Theorem format_list_display_join (items : list str) (max_items : Z)
    (separator : str) :
  Z.of_nat (List.length items) <= Z.max max_items 2 ->
  format_list_display items max_items separator separator
  = join separator items.
Proof.
  intros H. unfold format_list_display.
  destruct items as [|a [|b [|c l]]]; try reflexivity.
  set (its := a :: b :: c :: l) in *.
  replace (Z.of_nat (List.length its) <=? max_items) with true.
  - symmetry. apply join_removelast.
  - symmetry. apply Z.leb_le. subst its. cbn [List.length] in *. lia.
Qed.

Lemma format_list_display_join_witness :
  format_list_display (map lit ["rent"; "food"; "fuel"]%string) 3 (lit ", ")
    (lit ", ")
  = join (lit ", ") (map lit ["rent"; "food"; "fuel"]%string).
Proof. apply format_list_display_join. cbn. lia. Defined.

Lemma format_list_display_examples :
  format_list_display (map lit ["a"; "b"; "c"; "d"]%string) 3 (lit ", ")
    (lit " or ")
  = lit "a, b, c and 1 more"
  /\ format_list_display (map lit ["a"; "b"; "c"]%string) 3 (lit ", ")
       (lit " or ")
     = lit "a, b or c"
  /\ format_list_display (map lit ["a"; "b"]%string) 1 (lit ", ") (lit " or ")
     = lit "a or b"
  /\ format_list_display (map lit ["a"; "b"; "c"]%string) 0 (lit ", ")
       (lit " or ")
     = lit " and 3 more"
  /\ format_list_display (map lit ["a"; "b"; "c"]%string) (-1) (lit ", ")
       (lit " or ")
     = lit "a, b and 4 more"
  /\ format_list_display [] 3 (lit ", ") (lit " or ") = [].
Proof. repeat split; vm_compute; reflexivity. Qed.

(** *** Phone numbers, once more *)

Lemma firstn_skipn_digits (n : nat) (d : str) :
  forallb isdigit d = true ->
  filter isdigit (firstn n d ++ lit " " ++ skipn n d) = d.
Proof.
  intros H. rewrite !filter_app.
  change (filter isdigit (lit " ")) with (@nil ascii).
  cbn [app]. rewrite <- filter_app, firstn_skipn. apply filter_all, H.
Qed.

Lemma filter_forallb {A : Type} (p : A -> bool) (l : list A) :
  forallb p (filter p l) = true.
Proof.
  apply forallb_forall. intros a Ha. apply filter_In in Ha. tauto.
Qed.

(** The formatted number is a fixed point, whatever the country code. *)
Lemma format_phone_number_fixed (d country_code : str) :
  List.length d = 10%nat -> forallb isdigit d = true ->
  let out := country_code ++ lit " " ++ firstn 5 d ++ lit " " ++ skipn 5 d in
  format_phone_number out country_code = out.
Proof.
  intros Hlen Hd out. unfold format_phone_number.
  assert (Hdigits : filter isdigit out = filter isdigit country_code ++ d).
  { unfold out. rewrite filter_app. f_equal.
    rewrite filter_app. change (filter isdigit (lit " ")) with (@nil ascii).
    apply firstn_skipn_digits, Hd. }
  destruct out as [|c o] eqn:Eout.
  { destruct country_code; discriminate. }
  rewrite Hdigits, length_app, Hlen.
  remember (filter isdigit country_code) as k eqn:Ek.
  rewrite <- Eout.
  destruct k as [|k0 [|k1 k]].
  - cbn [List.length Nat.add app]. cbn [Nat.eqb]. reflexivity.
  - cbn [List.length Nat.add app Nat.eqb andb startswith lit
         list_ascii_of_string].
    destruct (ascii_dec "0" k0) as [<-|]; [|reflexivity].
    destruct d; [discriminate|]. cbn [skipn]. reflexivity.
  - replace (List.length (k0 :: k1 :: k) + 10 =? 10)%nat with false
      by (symmetry; apply Nat.eqb_neq; cbn [List.length]; lia).
    replace (List.length (k0 :: k1 :: k) + 10 =? 11)%nat with false
      by (symmetry; apply Nat.eqb_neq; cbn [List.length]; lia).
    reflexivity.
Qed.

Lemma format_phone_number_cases (phone country_code : str) :
  (exists d, List.length d = 10%nat /\ forallb isdigit d = true
             /\ format_phone_number phone country_code
                = country_code ++ lit " " ++ firstn 5 d ++ lit " "
                  ++ skipn 5 d)
  \/ format_phone_number phone country_code = phone.
Proof.
  unfold format_phone_number.
  destruct phone as [|c phone]; [right; reflexivity|].
  set (digits := filter isdigit (c :: phone)).
  assert (Hd : forallb isdigit digits = true) by apply filter_forallb.
  destruct (List.length digits =? 10)%nat eqn:E10.
  - apply Nat.eqb_eq in E10. left. exists digits. auto.
  - destruct ((List.length digits =? 11)%nat && startswith digits (lit "0"))
      eqn:E11; [|right; reflexivity].
    apply andb_true_iff in E11. destruct E11 as [E11 _].
    apply Nat.eqb_eq in E11. left. exists (skipn 1 digits).
    repeat split.
    + rewrite length_skipn. lia.
    + destruct digits; [reflexivity|]. cbn in Hd.
      apply andb_true_iff in Hd. cbn [skipn]. tauto.
Qed.

(** X5.  Formatting a phone number twice is formatting it once, for every
    text and every country code. *)
Theorem format_phone_number_idempotent (phone country_code : str) :
  format_phone_number (format_phone_number phone country_code) country_code
  = format_phone_number phone country_code.
Proof.
  destruct (format_phone_number_cases phone country_code)
    as [(d & Hlen & Hd & E)|E]; rewrite E.
  - apply (format_phone_number_fixed d country_code Hlen Hd).
  - exact E.
Qed.

Lemma format_phone_number_examples :
  format_phone_number (lit "98765-43210") default_country_code
  = lit "+91 98765 43210"
  /\ format_phone_number (lit "098765 43210") default_country_code
     = lit "+91 98765 43210"
  /\ format_phone_number (lit "+91 98765 43210") default_country_code
     = lit "+91 98765 43210"
  /\ format_phone_number (lit "12345") default_country_code = lit "12345"
  /\ format_phone_number (lit "0 98765 43210") (lit "0")
     = lit "0 98765 43210".
Proof. repeat split; reflexivity. Qed.

(** *** Large numbers *)

Import ValidationUtils.

(** Rounding to the even integer [n] from half a unit below it to less
    than half a unit above it. *)
Lemma round_half_even_to (a : Z) (d : positive) (n : Z) :
  (2 * n - 1) * Z.pos d <= 2 * a < (2 * n + 1) * Z.pos d ->
  Z.even n = true ->
  round_half_even (Qmake a d) = n.
Proof.
  intros Hr He. unfold round_half_even. cbn [Qnum Qden].
  pose proof (Pos2Z.is_pos d) as Hd.
  pose proof (Z.div_mod a (Z.pos d) ltac:(lia)) as Hdm.
  pose proof (Z.mod_pos_bound a (Z.pos d) Hd) as Hm.
  assert (a / Z.pos d = n - 1 \/ a / Z.pos d = n) as [Hf|Hf] by nia.
  - rewrite Hf in *.
    assert (Z.even (n - 1) = false) as Ho.
    { rewrite Z.even_sub, He. reflexivity. }
    destruct (2 * (a mod Z.pos d) <? Z.pos d) eqn:E1;
      [apply Z.ltb_lt in E1; nia|].
    destruct (Z.pos d <? 2 * (a mod Z.pos d)); [lia|].
    rewrite Ho. lia.
  - rewrite Hf in *.
    destruct (2 * (a mod Z.pos d) <? Z.pos d) eqn:E1; [reflexivity|].
    apply Z.ltb_ge in E1. nia.
Qed.

Lemma float_abs_ge_spec (q : Q) (n : Z) :
  Qle 0 q -> float_abs_ge (Fin q) n = Qle_bool (inject_Z n) q.
Proof.
  intros H. cbn [float_abs_ge]. destruct q as [a d].
  unfold Qle in H. cbn in H. rewrite Z.mul_1_r in H.
  unfold Qabs.Qabs. rewrite Z.abs_eq by exact H. reflexivity.
Qed.

Lemma Qle_bool_true (a b : Q) : Qle a b -> Qle_bool a b = true.
Proof. apply Qle_bool_iff. Qed.

Lemma Qle_bool_gt (a b : Q) : Qlt b a -> Qle_bool a b = false.
Proof.
  intros H. destruct (Qle_bool a b) eqn:E; [|reflexivity].
  apply Qle_bool_iff in E. exfalso. exact (Qlt_not_le _ _ H E).
Qed.

(** X6.  Where rounding carries.  Just below a thousand, a million and a
    billion, the rounded number that [format_large_number] shows is
    [1000], with the suffix of the smaller unit. *)
Theorem format_large_number_carries (q : Q) :
  (Qle (Qmake 9995 10) q -> Qlt q (inject_Z 1000) ->
   format_large_number (PFloat (Fin q)) = Ret (lit "1000"))
  /\ (Qle (inject_Z 999950) q -> Qlt q (inject_Z 1000000) ->
      format_large_number (PFloat (Fin q)) = Ret (lit "1000.0K"))
  /\ (Qle (inject_Z 999950000) q -> Qlt q (inject_Z 1000000000) ->
      format_large_number (PFloat (Fin q)) = Ret (lit "1000.0M")).
Proof.
  assert (Hpos : forall lo, Qle lo q -> Qlt 0 lo -> Qle 0 q).
  { intros lo H1 H2. apply Qlt_le_weak.
    exact (Qlt_le_trans _ _ _ H2 H1). }
  unfold format_large_number. cbn [float_of bind].
  repeat split; intros Hlo Hhi.
  - pose proof (Hpos _ Hlo eq_refl) as H0.
    rewrite !float_abs_ge_spec by exact H0.
    rewrite !Qle_bool_gt
      by (exact Hhi || (eapply Qlt_trans; [exact Hhi|reflexivity])).
    cbn [catch]. f_equal. unfold format_fixed.
    rewrite (Qle_bool_true _ _ H0).
    clear Hpos. destruct q as [a d].
    unfold Qle, Qlt, inject_Z in Hlo, Hhi, H0.
    cbn [Qnum Qden] in Hlo, Hhi, H0.
    replace (round_half_even (Qmult (Qmake a d) (inject_Z (10 ^ Z.of_nat 0))))
      with 1000; [reflexivity|].
    symmetry. change (10 ^ Z.of_nat 0) with 1.
    unfold Qmult, inject_Z. cbn [Qnum Qden].
    apply round_half_even_to; [lia|reflexivity].
  - pose proof (Hpos _ Hlo eq_refl) as H0.
    rewrite !float_abs_ge_spec by exact H0.
    rewrite (Qle_bool_gt (inject_Z 1000000000))
      by (eapply Qlt_trans; [exact Hhi|reflexivity]).
    rewrite (Qle_bool_gt (inject_Z 1000000)) by exact Hhi.
    rewrite (Qle_bool_true (inject_Z 1000))
      by (eapply Qle_trans; [|exact Hlo]; discriminate).
    cbn [catch float_div]. f_equal. unfold format_fixed.
    replace (Qle_bool 0 (Qdiv q (inject_Z 1000))) with true.
    2:{ symmetry. apply Qle_bool_iff.
        apply Qle_shift_div_l; [reflexivity|].
        rewrite Qmult_0_l. exact H0. }
    clear Hpos. destruct q as [a d].
    unfold Qle, Qlt, inject_Z in Hlo, Hhi, H0.
    cbn [Qnum Qden] in Hlo, Hhi, H0.
    replace (round_half_even
               (Qmult (Qdiv (Qmake a d) (inject_Z 1000))
                      (inject_Z (10 ^ Z.of_nat 1))))
      with 10000; [reflexivity|].
    symmetry. change (10 ^ Z.of_nat 1) with 10.
    unfold Qdiv, Qinv, inject_Z. cbn [Qnum]. unfold Qmult. cbn [Qnum Qden].
    apply round_half_even_to; [lia|reflexivity].
  - pose proof (Hpos _ Hlo eq_refl) as H0.
    rewrite !float_abs_ge_spec by exact H0.
    rewrite (Qle_bool_gt (inject_Z 1000000000)) by exact Hhi.
    rewrite (Qle_bool_true (inject_Z 1000000))
      by (eapply Qle_trans; [|exact Hlo]; discriminate).
    cbn [catch float_div]. f_equal. unfold format_fixed.
    replace (Qle_bool 0 (Qdiv q (inject_Z 1000000))) with true.
    2:{ symmetry. apply Qle_bool_iff.
        apply Qle_shift_div_l; [reflexivity|].
        rewrite Qmult_0_l. exact H0. }
    clear Hpos. destruct q as [a d].
    unfold Qle, Qlt, inject_Z in Hlo, Hhi, H0.
    cbn [Qnum Qden] in Hlo, Hhi, H0.
    replace (round_half_even
               (Qmult (Qdiv (Qmake a d) (inject_Z 1000000))
                      (inject_Z (10 ^ Z.of_nat 1))))
      with 10000; [reflexivity|].
    symmetry. change (10 ^ Z.of_nat 1) with 10.
    unfold Qdiv, Qinv, inject_Z. cbn [Qnum]. unfold Qmult. cbn [Qnum Qden].
    apply round_half_even_to; [lia|reflexivity].
Qed.

Lemma format_large_number_carries_witness :
  format_large_number (PFloat (Fin (inject_Z 999999)))
  = Ret (lit "1000.0K").
Proof.
  apply (proj1 (proj2 (format_large_number_carries (inject_Z 999999))));
    vm_compute; (discriminate || reflexivity).
Defined.

Lemma format_large_number_examples :
  format_large_number (PInt 999) = Ret (lit "999")
  /\ format_large_number (PInt 1500) = Ret (lit "1.5K")
  /\ format_large_number (PInt 999949) = Ret (lit "999.9K")
  /\ format_large_number (PInt 999950) = Ret (lit "1000.0K")
  /\ format_large_number (PInt 1000000) = Ret (lit "1.0M")
  /\ format_large_number (PInt (-2500000000)) = Ret (lit "-2.5B")
  /\ format_large_number (PFloat (Inf false)) = Ret (lit "infB")
  /\ format_large_number (PFloat NaN) = Ret (lit "nan")
  /\ format_large_number (PStr (lit "abc")) = Ret (lit "0").
Proof. repeat split; vm_compute; reflexivity. Qed.

End FormatFacts.

(** ** validation_utils.py *)

Module ValidationFacts.
Import PyStr PyNum ValidationUtils Notions PyStrFacts PyNumFacts.

Lemma is_control_spec (c : ascii) :
  is_control c = false ->
  ~ (0 <= code c <= 8 \/ code c = 11 \/ code c = 12
     \/ 14 <= code c <= 31 \/ code c = 127).
Proof.
  unfold is_control, in_range. intros H.
  repeat (apply orb_false_iff in H; destruct H as [H ?]).
  repeat match goal with
         | X : (_ && _) = false |- _ => apply andb_false_iff in X
         | X : (_ =? _) = false |- _ => apply Z.eqb_neq in X
         end.
  rewrite !Z.leb_gt in *. lia.
Qed.

(** C9.  For every input and every non-negative [max_length], the result
    of [sanitize_input] is at most [max_length] characters long and holds
    none of the control characters 0x00-0x08, 0x0B, 0x0C, 0x0E-0x1F,
    0x7F. *)
Theorem C9_sanitize_input_bounded_and_clean (input_text : str)
    (max_length : Z) :
  0 <= max_length ->
  Z.of_nat (List.length (sanitize_input input_text max_length)) <= max_length
  /\ forall c, In c (sanitize_input input_text max_length) ->
       ~ (0 <= code c <= 8 \/ code c = 11 \/ code c = 12
          \/ 14 <= code c <= 31 \/ code c = 127).
Proof.
  intros Hmax. unfold sanitize_input.
  destruct (is_empty input_text); [simpl; split; [lia|tauto]|].
  set (kept := filter (fun c => negb (is_control c)) (strip input_text)).
  split.
  - pose proof (collapse_from_length false (slice_to kept max_length)).
    pose proof (slice_to_length kept max_length Hmax).
    unfold collapse_ws. lia.
  - intros c Hc. apply is_control_spec.
    apply collapse_from_In in Hc. destruct Hc as [Hc|Hc]; [subst; reflexivity|].
    apply slice_to_In in Hc. apply filter_In in Hc.
    destruct Hc as [_ Hc]. apply negb_true_iff in Hc. exact Hc.
Qed.

Lemma C9_sanitize_input_witness :
  Z.of_nat (List.length (sanitize_input (lit "  a   b c  ") 5)) <= 5
  /\ forall c, In c (sanitize_input (lit "  a   b c  ") 5) ->
       ~ (0 <= code c <= 8 \/ code c = 11 \/ code c = 12
          \/ 14 <= code c <= 31 \/ code c = 127).
Proof.
  apply (C9_sanitize_input_bounded_and_clean (lit "  a   b c  ") 5). lia.
Defined.

(** *** Outcomes *)

Create HintDb outcome.

Lemma well_formed_failure {A : Type} (msg : string) :
  well_formed (@failure A msg).
Proof. unfold well_formed, failure. repeat split; congruence. Qed.

Lemma well_formed_success {A : Type} (v : A) : well_formed (success v).
Proof. unfold well_formed, success. repeat split; congruence. Qed.

#[local] Hint Resolve well_formed_failure well_formed_success : outcome.

Lemma well_formed_check_amount (a : pyfloat) : well_formed (check_amount a).
Proof.
  unfold check_amount. destruct (fle a 0); [|destruct (fgt a _)];
    auto with outcome.
Qed.

#[local] Hint Resolve well_formed_check_amount : outcome.

(** Follows a hypothesis [_ = Ret o] through handlers, binds and tests. *)
Ltac returned H :=
  repeat match type of H with
         | Ret _ = Ret _ => injection H as H; subst
         | Raise _ = Ret _ => discriminate H
         | (if ?b then _ else _) = Ret _ => destruct b
         | catch ?r _ _ = Ret _ =>
             let E := fresh "E" in destruct r eqn:E; cbn [catch] in H
         | bind ?r _ = Ret _ =>
             let E := fresh "E" in destruct r eqn:E; cbn [bind] in H
         end.

Lemma well_formed_validate_amount (x : pyobj) (o : outcome pyfloat) :
  validate_amount x = Ret o -> well_formed o.
Proof.
  unfold validate_amount. intros H.
  destruct x as [s|n|f|]; cbn [catch] in H.
  - destruct (filter amount_char (strip s)).
    + cbn [catch] in H. returned H. auto with outcome.
    + destruct (float_of_str _); cbn [bind catch] in H; returned H;
        auto with outcome.
  - destruct (float_of_int n); cbn [bind catch] in H; returned H;
      auto with outcome.
  - returned H. auto with outcome.
  - cbn in H. returned H. auto with outcome.
Qed.

Lemma well_formed_validate_transaction_description (d : str) :
  well_formed (validate_transaction_description d).
Proof.
  unfold validate_transaction_description.
  repeat match goal with
         | |- context [if ?b then _ else _] => destruct b
         end; auto with outcome.
Qed.

Lemma well_formed_validate_currency_amount (s sym : str)
    (o : outcome pyfloat) :
  validate_currency_amount s sym = Ret o -> well_formed o.
Proof.
  unfold validate_currency_amount. intros H.
  destruct (is_empty s || is_empty (strip s));
    [returned H; auto with outcome|].
  destruct (decimal_of_str _) as [d|e]; cbn [bind catch] in H;
    [|returned H; auto with outcome].
  destruct (decimal_le_zero d) as [[]|]; cbn [bind catch] in H;
    try (returned H; auto with outcome; fail).
  destruct (decimal_exponent_lt d _) as [[]|]; cbn [bind catch] in H;
    try (returned H; auto with outcome; fail).
  destruct (float_of_decimal d); cbn [bind catch] in H; returned H;
    auto with outcome.
Qed.

(** C7.  Whatever outcome [validate_amount],
    [validate_transaction_description] or [validate_currency_amount]
    returns, its error message is present exactly when the flag is false
    and its normalized value exactly when the flag is true. *)
Theorem C7_outcomes_well_formed :
  (forall x o, validate_amount x = Ret o -> well_formed o)
  /\ (forall d, well_formed (validate_transaction_description d))
  /\ (forall s sym o, validate_currency_amount s sym = Ret o ->
        well_formed o).
Proof.
  split; [exact well_formed_validate_amount|].
  split; [exact well_formed_validate_transaction_description|].
  exact well_formed_validate_currency_amount.
Qed.

Lemma C7_outcomes_well_formed_witness :
  well_formed (@failure pyfloat "Amount must be greater than zero")
  /\ well_formed (success (lit "a b c"))
  /\ well_formed (success (Fin (Qmake 123456 100))).
Proof.
  destruct C7_outcomes_well_formed as (Hamount & Hdescription & Hcurrency).
  split; [|split].
  - apply (Hamount (PInt 0)). reflexivity.
  - apply (Hdescription (lit "  a   b c  ")).
  - apply (Hcurrency (lit "Rs. 1,234.56") default_symbol). reflexivity.
Defined.

(** *** Amounts *)

Lemma amount_char_not_space (c : ascii) :
  isspace c = true -> amount_char c = false.
Proof. ascii_cases c; (reflexivity || discriminate). Qed.

Lemma amount_char_no_space (c : ascii) :
  amount_char c = true -> negb (isspace c) = true.
Proof. ascii_cases c; (reflexivity || discriminate). Qed.

Lemma digit_amount_char (c : ascii) :
  isdigit c = true -> amount_char c = true.
Proof. unfold amount_char. intros ->. reflexivity. Qed.

Lemma digit_facts (c : ascii) :
  isdigit c = true ->
  Ascii.eqb c "-" = false /\ Ascii.eqb c "+" = false
  /\ lower_char c = c /\ c <> "i"%char /\ c <> "n"%char.
Proof.
  ascii_cases c; intros H; try discriminate H; repeat split; discriminate.
Qed.

Lemma written_amount_chars (neg : bool) (ip : str) (frac : option str) :
  forallb isdigit ip = true ->
  forallb isdigit (frac_digits frac) = true ->
  forallb amount_char (written neg ip frac) = true.
Proof.
  intros Hi Hf. unfold written. rewrite !forallb_app.
  rewrite (forallb_impl _ _ _ digit_amount_char Hi).
  destruct neg, frac; simpl in *;
    rewrite ?(forallb_impl _ _ _ digit_amount_char Hf); reflexivity.
Qed.

(** [float()] reads a number in plain notation as its value. *)
Lemma float_of_written (neg : bool) (ip : str) (frac : option str) :
  ip <> [] ->
  forallb isdigit ip = true ->
  forallb isdigit (frac_digits frac) = true ->
  float_of_str (written neg ip frac)
  = Ret (Fin (signed neg (literal_value ip (frac_digits frac) 0))).
Proof.
  intros Hne Hi Hf. unfold float_of_str.
  rewrite strip_none.
  2:{ apply (forallb_impl amount_char); [exact amount_char_no_space|].
      apply written_amount_chars; assumption. }
  destruct ip as [|d ip']; [congruence|].
  assert (Hd : isdigit d = true).
  { simpl in Hi. apply andb_true_iff in Hi. tauto. }
  destruct (digit_facts d Hd) as (Hm & Hp & Hlow & Hi' & Hn').
  set (body := (d :: ip')
               ++ match frac with
                  | Some fp => lit "." ++ fp
                  | None => []
                  end).
  assert (Hsign : parse_sign (written neg (d :: ip') frac) = (neg, body)).
  { unfold written. destruct neg; [reflexivity|].
    cbn [app parse_sign]. rewrite Hm, Hp. reflexivity. }
  rewrite Hsign.
  assert (Hword : forall c w, (c = "i"%char \/ c = "n"%char) ->
            eqb_str (lower body) (c :: w) = false).
  { intros c w Hc. unfold eqb_str.
    destruct (list_eq_dec ascii_dec (lower body) (c :: w)) as [E|];
      [|reflexivity].
    exfalso. subst body. cbn in E. rewrite Hlow in E. injection E as E _.
    destruct Hc; congruence. }
  change (lit "inf") with ("i"%char :: lit "nf").
  change (lit "infinity") with ("i"%char :: lit "nfinity").
  change (lit "nan") with ("n"%char :: lit "an").
  rewrite !Hword by tauto. cbn [orb].
  assert (Hfin : parse_finite body = Some (d :: ip', frac_digits frac, 0)).
  { unfold parse_finite, body.
    rewrite span_app; [|exact Hi|destruct frac; simpl; auto].
    destruct frac as [fp|]; cbn [frac_digits] in *.
    - cbn [lit list_ascii_of_string app]. cbn [Ascii.eqb Bool.eqb].
      rewrite <- (app_nil_r fp) at 1. rewrite span_app by (simpl; auto).
      reflexivity.
    - reflexivity. }
  rewrite Hfin. reflexivity.
Qed.

Lemma check_amount_nonpositive (v : Q) :
  Qle v 0 ->
  check_amount (Fin v) = failure "Amount must be greater than zero".
Proof.
  intros H. unfold check_amount, fle. apply Qle_bool_iff in H.
  rewrite H. reflexivity.
Qed.

Lemma check_amount_accepts (v : Q) :
  Qlt 0 v -> Qle v (inject_Z 999999999) ->
  check_amount (Fin v) = success (round2 (Fin v)).
Proof.
  intros Hpos Hmax. unfold check_amount, fle, fgt.
  rewrite (Qle_bool_false _ _ Hpos).
  apply Qle_bool_iff in Hmax. rewrite Hmax. reflexivity.
Qed.

Lemma blank_not_amount (c : ascii) : blank c = true -> amount_char c = false.
Proof. ascii_cases c; (reflexivity || discriminate). Qed.

(** The cleaning step takes the underscores out of grouped digits. *)
Lemma grouped_cleaned (text digits : str) :
  grouped text digits ->
  digits <> [] /\ forallb isdigit digits = true
  /\ filter amount_char text = digits.
Proof.
  induction 1 as [d Hd|d text digits Hd _ (_ & IH1 & IH2)
                  |d text digits Hd _ (_ & IH1 & IH2)];
    (split; [discriminate|]); cbn [forallb filter];
    rewrite (digit_amount_char d Hd), Hd; cbn [andb].
  - auto.
  - rewrite IH2. auto.
  - change (amount_char "_") with false. cbv iota. rewrite IH2. auto.
Qed.

Lemma numeral_plain (sign ip point fp : str) (negative : bool) :
  sign_text sign negative ->
  forallb isdigit ip = true -> forallb isdigit fp = true ->
  ip ++ fp <> [] -> fraction_text point fp ->
  numeral (sign ++ ip ++ point) negative ip fp 0.
Proof.
  intros Hs Hi Hf Hne Hp.
  replace (sign ++ ip ++ point) with (sign ++ ip ++ point ++ [])
    by (rewrite app_nil_r; reflexivity).
  constructor; try assumption. constructor.
Qed.

(** What the cleaning step leaves of a number in plain notation is a
    numeral with the same sign and digits. *)
Lemma cleaned_plain (text before after : str) (negative : bool)
    (ip fp : str) :
  plain_number text negative ip fp ->
  forallb blank before = true -> forallb blank after = true ->
  numeral (filter amount_char (strip (before ++ text ++ after)))
          negative ip fp 0.
Proof.
  intros Hp Hb Ha. rewrite filter_strip by exact amount_char_not_space.
  rewrite !filter_app.
  rewrite (filter_none _ _ before blank_not_amount Hb).
  rewrite (filter_none _ _ after blank_not_amount Ha).
  rewrite app_nil_r. cbn [app].
  assert (Hsign : forall sign, sign_text sign negative ->
            exists minus, filter amount_char sign = minus
                          /\ sign_text minus negative).
  { intros sign []; eexists; (split; [reflexivity|constructor]). }
  destruct Hp as [sign it ip negative Hs Hi
                 |sign it ip negative Hs Hi
                 |sign ft fp negative Hs Hf
                 |sign it ip ft fp negative Hs Hi Hf];
    destruct (Hsign sign Hs) as (minus & Em & Hm);
    rewrite !filter_app, Em;
    try (destruct (grouped_cleaned _ _ Hi) as (I1 & I2 & ->));
    try (destruct (grouped_cleaned _ _ Hf) as (F1 & F2 & ->)).
  - rewrite <- (app_nil_r ip) at 1.
    apply numeral_plain; try assumption; try reflexivity.
    + rewrite app_nil_r. exact I1.
    + constructor.
  - change (filter amount_char (lit ".")) with (lit "." ++ []).
    apply numeral_plain; try assumption; try reflexivity.
    + rewrite app_nil_r. exact I1.
    + constructor.
  - change (filter amount_char (lit ".")) with (lit ".").
    apply (numeral_plain minus [] (lit "." ++ fp) fp negative);
      try assumption; try reflexivity. constructor.
  - change (filter amount_char (lit ".")) with (lit ".").
    apply numeral_plain; try assumption.
    + destruct ip; [congruence|discriminate].
    + constructor.
Qed.

Lemma numeral_nonempty (negative : bool) (ip fp : str) (ex : Z) :
  ~ numeral [] negative ip fp ex.
Proof.
  intros H. apply numeral_parse in H. destruct H as (body & Hs & Hp).
  cbn in Hs. injection Hs as <- <-. discriminate Hp.
Qed.

(** On an argument that denotes [v], the function comes down to the
    checks on a float that is [v] or, as no float is nearer, stands for
    it. *)
Lemma validate_amount_of_value (x : pyobj) (v : Q) :
  denotes x v ->
  exists q,
    validate_amount x = Ret (check_amount (Fin q)) /\ no_float_nearer v q.
Proof.
  intros H.
  destruct H as [n Hn|q v Hq|text before after negative ip fp Hp Hb Ha].
  - exists (inject_Z n). split; [|apply no_float_nearer_refl].
    unfold validate_amount. rewrite float_of_int_small by exact Hn.
    reflexivity.
  - exists q. split; [reflexivity|exact Hq].
  - exists (signed negative (literal_value ip fp 0)).
    split; [|apply no_float_nearer_refl].
    unfold validate_amount.
    pose proof (cleaned_plain _ _ _ _ _ _ Hp Hb Ha) as Hnum.
    destruct (filter amount_char (strip (before ++ text ++ after)))
      as [|c r] eqn:E.
    + exfalso. exact (numeral_nonempty _ _ _ _ Hnum).
    + rewrite (float_of_numeral _ _ _ _ _ Hnum). reflexivity.
Qed.

(** C1, as the code has it.  For an argument that is a number, or a string
    in plain decimal notation, of value [v]: when [v] is positive, at most
    999,999,999 and has at most two decimals, [validate_amount] succeeds
    with [v] as the amount and no message; when [v] is zero or negative,
    and on the float negative infinity, it fails with "Amount must be
    greater than zero".  A float argument of value [v] is the float that
    the literal [v] denotes; the amount returned has the value [v], and so
    stands for that float again. *)
Theorem C1_validate_amount :
  (forall x v,
     denotes x v ->
     Qlt 0 v -> Qle v (inject_Z 999999999) -> two_decimals v ->
     exists a, validate_amount x = Ret (success (Fin a)) /\ Qeq a v)
  /\ (forall x v,
        denotes x v -> Qle v 0 ->
        validate_amount x
        = Ret (failure "Amount must be greater than zero"))
  /\ validate_amount (PFloat (Inf true))
     = Ret (failure "Amount must be greater than zero").
Proof.
  split; [|split; [|reflexivity]].
  - intros x v H Hpos Hmax [c Hc].
    destruct (validate_amount_of_value x v H) as (q & -> & Hq).
    destruct (float_of_two_decimals v q c Hq Hc Hpos Hmax) as (Q1 & Q2 & Q3).
    rewrite check_amount_accepts by assumption.
    exists (Qmake c 100). split; [|symmetry; exact Hc].
    cbn [round2]. rewrite Q3. reflexivity.
  - intros x v H Hle.
    destruct (validate_amount_of_value x v H) as (q & -> & Hq).
    rewrite check_amount_nonpositive; [reflexivity|].
    exact (float_of_nonpositive v q Hq Hle).
Qed.

Lemma C1_validate_amount_witness :
  (exists a,
     validate_amount (PStr (lit " +1_234.50 ")) = Ret (success (Fin a))
     /\ Qeq a (Qmake 123450 100))
  /\ (exists a,
        validate_amount
          (PFloat (Fin (Qmake 3473401212609495 281474976710656)))
        = Ret (success (Fin a))
        /\ Qeq a (Qmake 1234 100))
  /\ validate_amount (PInt (-5))
     = Ret (failure "Amount must be greater than zero").
Proof.
  destruct C1_validate_amount as (Hpos & Hneg & _).
  split; [|split].
  - apply (Hpos (PStr (lit " +1_234.50 ")) (Qmake 123450 100)).
    + apply (denotes_str (lit "+1_234.50") (lit " ") (lit " ") false
                         (lit "1234") (lit "50"));
        [|reflexivity|reflexivity].
      apply (plain_point_between (lit "+") (lit "1_234") (lit "1234")
                                 (lit "50") (lit "50") false).
      * constructor.
      * apply grouped_underscore; [reflexivity|].
        apply grouped_digit; [reflexivity|].
        apply grouped_digit; [reflexivity|].
        apply grouped_last. reflexivity.
      * apply grouped_digit; [reflexivity|].
        apply grouped_last. reflexivity.
    + reflexivity.
    + vm_compute. discriminate.
    + exists 123450. reflexivity.
  - apply (Hpos (PFloat (Fin (Qmake 3473401212609495 281474976710656)))
                (Qmake 1234 100)).
    + apply denotes_float, float_12_34.
    + reflexivity.
    + vm_compute. discriminate.
    + exists 1234. reflexivity.
  - apply (Hneg (PInt (-5)) (inject_Z (-5))).
    + apply denotes_int. vm_compute. reflexivity.
    + vm_compute. discriminate.
Defined.

(** C1, as stated, fails on numeric strings in exponent notation, whose
    [e] the cleaning step removes: [float("1e2")] is 100 and
    [validate_amount("1e2")] succeeds with 12; [float("-1e-5")] is negative
    and [validate_amount("-1e-5")] reports an invalid format. *)
Lemma C1_exponent_notation_counterexample :
  float_of_str (lit "1e2") = Ret (Fin (Qmake 100 1))
  /\ validate_amount (PStr (lit "1e2"))
     = Ret (success (Fin (Qmake 1200 100)))
  /\ ~ Qeq (Qmake 1200 100) (Qmake 100 1)
  /\ float_of_str (lit "-1e-5") = Ret (Fin (Qmake (-1) 100000))
  /\ validate_amount (PStr (lit "-1e-5"))
     = Ret (failure "Invalid amount format").
Proof.
  repeat split; try (vm_compute; reflexivity).
  vm_compute. discriminate.
Qed.

Lemma validate_amount_examples :
  validate_amount (PInt 0)
  = Ret (failure "Amount must be greater than zero")
  /\ validate_amount (PStr (lit "0.00"))
     = Ret (failure "Amount must be greater than zero")
  /\ validate_amount (PStr (lit "12.5"))
     = Ret (success (Fin (Qmake 1250 100)))
  /\ validate_amount (PInt 1000000000)
     = Ret (failure "Amount exceeds maximum limit")
  /\ validate_amount (PStr (lit "abc"))
     = Ret (failure "Amount cannot be empty")
  /\ validate_amount (PStr (lit "1.2.3"))
     = Ret (failure "Invalid amount format")
  /\ validate_amount PNone = Ret (failure "Invalid amount format").
Proof. repeat split; vm_compute; reflexivity. Qed.

(** *** Currency amounts *)

(** The text handed to [Decimal] is the amount part of the input, without
    its commas. *)
Lemma currency_text_part (s symbol body : str) :
  amount_part symbol s body -> currency_text s symbol = remove_char "," body.
Proof.
  intros H. unfold currency_text. f_equal.
  destruct H as [rest body H1 H2|core H1 H2].
  - apply strip_iff in H1, H2.
    rewrite H1, startswith_app, skipn_length_app. exact H2.
  - apply strip_iff in H1. rewrite H1.
    destruct (startswith core symbol) eqn:E; [|reflexivity].
    apply startswith_prefix in E. destruct E as (rest & E).
    exfalso. exact (H2 rest E).
Qed.

Lemma amount_part_exists (s symbol : str) :
  exists body,
    amount_part symbol s body
    /\ currency_text s symbol = remove_char "," body.
Proof.
  destruct (startswith (strip s) symbol) eqn:E.
  - pose proof E as E'. apply startswith_prefix in E'.
    destruct E' as (rest & Er).
    exists (strip rest). split.
    + apply (amount_after_symbol _ _ rest); apply strip_iff;
        [exact Er|reflexivity].
    + unfold currency_text. rewrite E, Er, skipn_length_app. reflexivity.
  - exists (strip s). split.
    + apply amount_without_symbol; [apply strip_iff; reflexivity|].
      intros rest Er. rewrite Er, startswith_app in E. discriminate.
    + unfold currency_text. rewrite E. reflexivity.
Qed.

(** Success, in terms of what [Decimal] reads. *)
Lemma validate_currency_amount_success (s sym : str) (v : pyfloat) :
  validate_currency_amount s sym = Ret (success v) <->
  exists c e,
    decimal_of_str (currency_text s sym) = Ret (DFin false c e)
    /\ 0 < c /\ -2 <= e
    /\ v = as_float (Qmult (inject_Z c) (pow10 e)).
Proof.
  split.
  - unfold validate_currency_amount.
    destruct (is_empty s || is_empty (strip s)); [discriminate|].
    destruct (decimal_of_str (currency_text s sym)) as [d|err] eqn:E;
      cbn [bind catch]; [|destruct (is_decimal_error err); discriminate].
    destruct d as [neg c e|neg|neg sig]; cbn [decimal_le_zero bind catch].
    + destruct (neg || (c =? 0)) eqn:Hle; [discriminate|].
      cbn [decimal_exponent_lt bind catch].
      destruct (e <? -2) eqn:He; [discriminate|].
      apply orb_false_iff in Hle. destruct Hle as [-> Hc].
      apply Z.eqb_neq in Hc. apply Z.ltb_ge in He.
      pose proof (decimal_of_str_coefficient _ _ _ _ E).
      unfold float_of_decimal, as_float. cbv zeta. cbn [signed].
      intros Hv. exists c, e.
      split; [reflexivity|]. split; [lia|]. split; [lia|].
      destruct (Qle_bool _ _); cbn [bind catch] in Hv; injection Hv as <-;
        reflexivity.
    + destruct neg; cbn; discriminate.
    + cbn. discriminate.
  - intros (c & e & E & Hc & He & ->).
    unfold validate_currency_amount.
    destruct (is_empty s || is_empty (strip s)) eqn:Hempty.
    + exfalso.
      assert (Hs : strip s = []).
      { apply orb_true_iff in Hempty. destruct Hempty as [H|H].
        - destruct s; [reflexivity|discriminate].
        - destruct (strip s); [reflexivity|discriminate]. }
      unfold currency_text in E. rewrite Hs in E.
      destruct sym; cbn in E; discriminate.
    + rewrite E. cbn [bind catch decimal_le_zero].
      replace (c =? 0) with false by (symmetry; apply Z.eqb_neq; lia).
      cbn [orb bind catch decimal_exponent_lt].
      replace (e <? -2) with false by (symmetry; apply Z.ltb_ge; lia).
      unfold float_of_decimal, as_float. cbv zeta. cbn [signed].
      destruct (Qle_bool _ _); reflexivity.
Qed.

(** C8, as the code has it.  On ASCII text, [validate_currency_amount]
    succeeds with value [v] exactly when the input reads as a decimal
    numeral without a minus sign (after the whitespace around it, the
    currency symbol it may start with, every comma and, as [Decimal] does,
    every underscore are taken out) whose coefficient is positive, whose
    exponent is at least -2 and whose adjusted exponent is within the
    range of [Decimal]; [v] is then the value [coefficient * 10 **
    exponent] as a float.  So ["Rs. 1,234.567"] fails for its third
    decimal and ["Rs. 1,234.56"] succeeds with 1234.56. *)
Theorem C8_validate_currency_amount :
  (forall s symbol v,
     forallb is_ascii s = true ->
     (validate_currency_amount s symbol = Ret (success v) <->
      exists ip fp ex,
        reads_amount symbol s false ip fp ex
        /\ 0 < coefficient ip fp
        /\ -2 <= exponent fp ex
        /\ exponent fp ex + significant (ip ++ fp) - 1 <= MAX_EMAX
        /\ v = as_float (Qmult (inject_Z (coefficient ip fp))
                               (pow10 (exponent fp ex)))))
  /\ validate_currency_amount (lit "Rs. 1,234.567") default_symbol
     = Ret (failure "Amount cannot have more than 2 decimal places")
  /\ validate_currency_amount (lit "Rs. 1,234.56") default_symbol
     = Ret (success (Fin (Qmake 123456 100))).
Proof.
  split; [|split; vm_compute; reflexivity].
  intros s symbol v _. rewrite validate_currency_amount_success. split.
  - intros (c & e & E & Hc & He & ->).
    apply decimal_of_str_finite in E.
    destruct E as (ip & fp & ex & Hn & -> & -> & Hmax & _).
    destruct (amount_part_exists s symbol) as (body & Hbody & Et).
    rewrite Et in Hn.
    exists ip, fp, ex.
    split; [|repeat split; assumption].
    exists body, (strip (remove_char "," body)).
    split; [exact Hbody|]. split; [apply strip_iff; reflexivity|exact Hn].
  - intros (ip & fp & ex & (body & text & Hbody & Ht & Hn) & Hc & He & Hmax
            & ->).
    exists (coefficient ip fp), (exponent fp ex).
    split; [|repeat split; assumption].
    apply decimal_of_str_finite. exists ip, fp, ex.
    rewrite (currency_text_part _ _ _ Hbody).
    apply strip_iff in Ht. rewrite Ht.
    split; [exact Hn|]. split; [reflexivity|]. split; [reflexivity|].
    split; [exact Hmax|]. unfold MIN_ETINY. lia.
Qed.

Lemma C8_validate_currency_amount_witness :
  exists ip fp ex,
    reads_amount default_symbol (lit "Rs. 1,234.56") false ip fp ex
    /\ 0 < coefficient ip fp
    /\ -2 <= exponent fp ex
    /\ exponent fp ex + significant (ip ++ fp) - 1 <= MAX_EMAX
    /\ Fin (Qmake 123456 100)
       = as_float (Qmult (inject_Z (coefficient ip fp))
                         (pow10 (exponent fp ex))).
Proof.
  destruct C8_validate_currency_amount as [H _].
  apply (H (lit "Rs. 1,234.56") default_symbol (Fin (Qmake 123456 100))
           eq_refl).
  reflexivity.
Defined.

(** C8, as stated, fails where the value is beyond the floats: ["1e400"]
    is read as the exact decimal [1 * 10 ** 400], and the function
    succeeds with the float infinity.  And a numeral beyond the exponent
    range of [Decimal] is refused, though its value is positive and it has
    no fractional digit. *)
Lemma C8_float_overflow_counterexample :
  decimal_of_str (lit "1e400") = Ret (DFin false 1 400)
  /\ validate_currency_amount (lit "1e400") default_symbol
     = Ret (success (Inf false))
  /\ numeral (lit "1e1000000000000000000") false (lit "1") []
       1000000000000000000
  /\ validate_currency_amount (lit "1e1000000000000000000") default_symbol
     = Ret (failure "Invalid amount format").
Proof.
  split; [vm_compute; reflexivity|].
  split; [vm_compute; reflexivity|].
  split; [|vm_compute; reflexivity].
  apply numeral_parse. eexists. split; vm_compute; reflexivity.
Qed.

Lemma validate_currency_amount_examples :
  validate_currency_amount (lit "1.500") default_symbol
  = Ret (failure "Amount cannot have more than 2 decimal places")
  /\ validate_currency_amount (lit "1E-2") default_symbol
     = Ret (success (Fin (Qmake 1 100)))
  /\ validate_currency_amount (lit "-3") default_symbol
     = Ret (failure "Amount must be greater than zero")
  /\ validate_currency_amount (lit "NaN") default_symbol
     = Ret (failure "Invalid amount format")
  /\ validate_currency_amount (lit "Infinity") default_symbol
     = Raise TypeError.
Proof. repeat split; vm_compute; reflexivity. Qed.

(** *** Descriptions *)

Import RegexFacts.

Lemma is_empty_nil (s : str) : is_empty s = true <-> s = [].
Proof. destruct s; split; (reflexivity || discriminate). Qed.

(** X7.  An accepted description comes back with 3 to 500 characters, no
    whitespace at its ends and single spaces between its words; validated
    again, it is accepted as it is. *)
Theorem validate_transaction_description_clean (description v : str)
    (m : option str) :
  validate_transaction_description description = (true, Some v, m) ->
  3 <= Z.of_nat (List.length v) <= 500
  /\ trimmed v /\ single_spaced false v = true
  /\ validate_transaction_description v = success v.
Proof.
  unfold validate_transaction_description at 1.
  destruct (is_empty description || is_empty (strip description));
    [discriminate|].
  destruct (Z.of_nat (List.length (strip description)) <? 3) eqn:Hlo;
    [discriminate|].
  destruct (500 <? Z.of_nat (List.length (strip description))) eqn:Hhi;
    [discriminate|].
  intros H. injection H as <- <-.
  apply Z.ltb_ge in Hlo, Hhi.
  pose proof (strip_trimmed description) as Ht.
  pose proof (collapse_trimmed _ Ht) as Hc.
  pose proof (collapse_trimmed_length _ Ht ltac:(lia)) as Hlen.
  pose proof (collapse_from_length false (strip description)) as Hle.
  fold (collapse_ws (strip description)) in Hle.
  assert (Hss : single_spaced false (collapse_ws (strip description)) = true)
    by apply single_spaced_collapse.
  repeat split; try lia; try apply Hc; try exact Hss.
  unfold validate_transaction_description.
  rewrite (trimmed_strip _ Hc).
  destruct (collapse_ws (strip description)) as [|c r] eqn:E;
    [cbn in Hlen; lia|].
  cbn [is_empty orb].
  replace (Z.of_nat (List.length (c :: r)) <? 3) with false
    by (symmetry; apply Z.ltb_ge; lia).
  replace (500 <? Z.of_nat (List.length (c :: r))) with false
    by (symmetry; apply Z.ltb_ge; lia).
  unfold collapse_ws. rewrite collapse_single_spaced by exact Hss.
  reflexivity.
Qed.

Lemma validate_transaction_description_clean_witness :
  let v := lit "Lunch at cafe" in
  3 <= Z.of_nat (List.length v) <= 500
  /\ trimmed v /\ single_spaced false v = true
  /\ validate_transaction_description v = success v.
Proof.
  apply (validate_transaction_description_clean
           (lit "  Lunch   at cafe ") (lit "Lunch at cafe") None).
  reflexivity.
Defined.

(** *** Sanitizing *)

Lemma sanitize_input_chars (t : str) (n : Z) (c : ascii) :
  In c (sanitize_input t n) -> is_control c = false.
Proof.
  unfold sanitize_input. destruct (is_empty t); [intros []|].
  intros Hc. apply collapse_from_In in Hc.
  destruct Hc as [Hc|Hc]; [subst; reflexivity|].
  apply slice_to_In in Hc. apply filter_In in Hc.
  destruct Hc as [_ Hc]. apply negb_true_iff in Hc. exact Hc.
Qed.

Lemma sanitize_input_single_spaced (t : str) (n : Z) :
  single_spaced false (sanitize_input t n) = true.
Proof.
  unfold sanitize_input. destruct (is_empty t); [reflexivity|].
  apply single_spaced_collapse.
Qed.

Lemma sanitize_input_length (t : str) (n : Z) :
  0 <= n -> Z.of_nat (List.length (sanitize_input t n)) <= n.
Proof.
  intros Hn. unfold sanitize_input. destruct (is_empty t); [cbn; lia|].
  set (kept := filter (fun c => negb (is_control c)) (strip t)).
  pose proof (collapse_from_length false (slice_to kept n)).
  pose proof (slice_to_length kept n Hn).
  unfold collapse_ws. lia.
Qed.

Lemma slice_to_all (s : str) (n : Z) :
  Z.of_nat (List.length s) <= n -> slice_to s n = s.
Proof.
  intros H. unfold slice_to.
  replace (n <? 0) with false by (symmetry; apply Z.ltb_ge; lia).
  apply firstn_all2. lia.
Qed.

(** X8.  A second pass of [sanitize_input] only takes off the whitespace at the
    ends that the first pass left. *)
Theorem sanitize_input_twice (input_text : str) (max_length : Z) :
  0 <= max_length ->
  sanitize_input (sanitize_input input_text max_length) max_length
  = strip (sanitize_input input_text max_length).
Proof.
  intros Hn.
  pose proof (sanitize_input_length input_text max_length Hn) as Hlen.
  pose proof (sanitize_input_single_spaced input_text max_length) as Hss.
  pose proof (sanitize_input_chars input_text max_length) as Hch.
  set (o := sanitize_input input_text max_length) in *.
  unfold sanitize_input. destruct (is_empty o) eqn:E.
  - apply is_empty_nil in E. rewrite E. reflexivity.
  - rewrite filter_all.
    + pose proof (strip_length o).
      rewrite slice_to_all by lia.
      apply collapse_single_spaced, single_spaced_strip, Hss.
    + apply forallb_forall. intros c Hc. apply strip_In in Hc.
      rewrite (Hch c Hc). reflexivity.
Qed.

Lemma sanitize_input_twice_witness :
  sanitize_input (sanitize_input (chr 0 :: lit " a  b") 10) 10
  = strip (sanitize_input (chr 0 :: lit " a  b") 10).
Proof. apply sanitize_input_twice. lia. Defined.

(** *** Categories *)

Lemma eqb_str_eq (a b : str) : eqb_str a b = true <-> a = b.
Proof.
  unfold eqb_str. destruct (list_eq_dec ascii_dec a b);
    split; intros H; congruence.
Qed.

Lemma existsb_eqb_str (w : str) (l : list str) :
  existsb (eqb_str w) l = true <-> In w l.
Proof.
  rewrite existsb_exists. split.
  - intros (x & Hx & E). apply eqb_str_eq in E. subst. exact Hx.
  - intros H. exists w. split; [exact H|apply eqb_str_eq; reflexivity].
Qed.

(** X9.  [validate_category] accepts an ASCII category exactly when it is
    in the list and not blank. *)
Theorem validate_category_accepts_iff (category : str)
    (valid_categories : list str) :
  forallb is_ascii category = true ->
  (validate_category category valid_categories = accepted
   <-> strip category <> [] /\ In category valid_categories).
Proof.
  intros _. unfold validate_category, accepted, rejected.
  destruct (is_empty category) eqn:E1.
  - apply is_empty_nil in E1. subst. cbn. split; [discriminate|tauto].
  - destruct (is_empty (strip category)) eqn:E2; cbn [orb].
    + apply is_empty_nil in E2. split; [discriminate|tauto].
    + assert (strip category <> []).
      { intros H. apply is_empty_nil in H. congruence. }
      destruct (existsb (eqb_str category) valid_categories) eqn:E3;
        cbn [negb].
      * apply existsb_eqb_str in E3. tauto.
      * split; [discriminate|]. intros [_ HIn].
        apply existsb_eqb_str in HIn. congruence.
Qed.

Lemma validate_category_accepts_iff_witness :
  validate_category (lit "Food") [lit "Rent"; lit "Food"] = accepted
  <-> strip (lit "Food") <> [] /\ In (lit "Food") [lit "Rent"; lit "Food"].
Proof.
  apply (validate_category_accepts_iff (lit "Food") [lit "Rent"; lit "Food"]).
  reflexivity.
Defined.

(** *** Email addresses *)

Lemma lower_char_newline (c : ascii) :
  lower_char c = "010"%char -> isspace c = true.
Proof. ascii_cases c; (discriminate || reflexivity). Qed.

(** After [strip] and [lower] no newline ends the text, so [$] is the end
    of the text. *)
Lemma match_anchored_stripped (r : PyRe.regex) (s : str) :
  PyRe.match_anchored r (lower (strip s)) = PyRe.matches r (lower (strip s)).
Proof.
  unfold PyRe.match_anchored, lower. rewrite <- map_rev.
  destruct (strip_trimmed s) as [_ H].
  destruct (rev (strip s)) as [|c before]; cbn [map]; [apply orb_false_r|].
  destruct (Ascii.eqb (lower_char c) "010") eqn:E; [|apply orb_false_r].
  apply Ascii.eqb_eq, lower_char_newline in E.
  cbn in H. rewrite E in H. discriminate.
Qed.

Lemma email_pattern_shape (s : str) : lang email_pattern s <-> email_shape s.
Proof.
  unfold email_pattern, email_shape. rewrite lang_seq_iff. split.
  - intros (l & s1 & -> & Hl & H). apply lang_plus_class in Hl.
    apply lang_seq_iff in H. destruct H as (a & s2 & -> & Ha & H).
    apply lang_chr_iff in Ha. subst a.
    apply lang_seq_iff in H. destruct H as (d & s3 & -> & Hd & H).
    apply lang_plus_class in Hd.
    apply lang_seq_iff in H. destruct H as (p & t & -> & Hp & Ht).
    apply lang_chr_iff in Hp. subst p.
    apply lang_two_or_more_class in Ht.
    exists l, d, t. tauto.
  - intros (l & d & t & -> & Hl1 & Hl2 & Hd1 & Hd2 & Ht1 & Ht2).
    exists l, (lit "@" ++ d ++ lit "." ++ t). repeat split.
    + apply lang_plus_class. auto.
    + apply lang_seq. { apply lang_chr_iff. reflexivity. }
      apply lang_seq. { apply lang_plus_class. auto. }
      apply lang_seq. { apply lang_chr_iff. reflexivity. }
      apply lang_two_or_more_class. auto.
Qed.

(** X10.  [validate_email] accepts exactly the ASCII texts that, stripped
    and lower-cased, are at most 254 characters of the form
    [local@domain.tld]: a local part of letters, digits and [._%+-], a
    domain of letters, digits, dots and hyphens, and at least two letters
    after its last dot. *)
Theorem validate_email_accepts_iff (email : str) :
  forallb is_ascii email = true ->
  (validate_email email = accepted
   <-> email_shape (lower (strip email))
       /\ Z.of_nat (List.length (lower (strip email))) <= 254).
Proof.
  intros _. unfold validate_email, accepted, rejected.
  destruct (is_empty email || is_empty (strip email)) eqn:E.
  - split; [discriminate|]. intros [(l & d & t & Es & Hl & _) _].
    assert (strip email = []) as Hs.
    { apply orb_true_iff in E. destruct E as [E|E];
        apply is_empty_nil in E; [subst; reflexivity|exact E]. }
    rewrite Hs in Es. destruct l; [congruence|discriminate].
  - rewrite match_anchored_stripped.
    destruct (PyRe.matches email_pattern (lower (strip email))) eqn:M;
      cbn [negb].
    + apply matches_lang, email_pattern_shape in M.
      destruct (254 <? Z.of_nat (List.length (lower (strip email)))) eqn:L.
      * apply Z.ltb_lt in L. split; [discriminate|lia].
      * apply Z.ltb_ge in L. tauto.
    + split; [discriminate|]. intros [H _].
      apply email_pattern_shape, matches_lang in H. congruence.
Qed.

Lemma validate_email_accepts_iff_witness :
  validate_email (lit " Ann.Lee@Example.org ") = accepted
  <-> email_shape (lower (strip (lit " Ann.Lee@Example.org ")))
      /\ Z.of_nat (List.length (lower (strip (lit " Ann.Lee@Example.org "))))
         <= 254.
Proof.
  apply (validate_email_accepts_iff (lit " Ann.Lee@Example.org ")).
  reflexivity.
Defined.

Lemma dropwhile_map (f : ascii -> ascii) (s : str) :
  (forall c, isspace (f c) = isspace c) ->
  dropwhile isspace (map f s) = map f (dropwhile isspace s).
Proof.
  intros Hf. induction s as [|c s IH]; [reflexivity|].
  cbn. rewrite Hf. destruct (isspace c); [exact IH|reflexivity].
Qed.

Lemma strip_map (f : ascii -> ascii) (s : str) :
  (forall c, isspace (f c) = isspace c) ->
  strip (map f s) = map f (strip s).
Proof.
  intros Hf. unfold strip, rstrip, lstrip.
  rewrite dropwhile_map, <- map_rev, dropwhile_map, map_rev by exact Hf.
  reflexivity.
Qed.

Lemma isspace_upper_char (c : ascii) : isspace (upper_char c) = isspace c.
Proof. ascii_cases c; reflexivity. Qed.

Lemma lower_upper (s : str) : lower (upper s) = lower s.
Proof.
  unfold lower, upper. rewrite map_map. apply map_ext, lower_upper_char.
Qed.

(** X11.  The case of the letters does not matter to [validate_email]: an ASCII
    address in upper case gets the verdict of the address as written. *)
Theorem validate_email_ignores_case (email : str) :
  forallb is_ascii email = true ->
  validate_email (upper email) = validate_email email.
Proof.
  intros _. unfold validate_email.
  assert (strip (upper email) = upper (strip email)) as ->
    by apply strip_map, isspace_upper_char.
  rewrite !lower_upper.
  replace (is_empty (upper email)) with (is_empty email)
    by (destruct email; reflexivity).
  replace (is_empty (upper (strip email))) with (is_empty (strip email))
    by (destruct (strip email); reflexivity).
  reflexivity.
Qed.

Lemma validate_email_ignores_case_witness :
  validate_email (upper (lit "Ann.Lee@Example.org"))
  = validate_email (lit "Ann.Lee@Example.org").
Proof. apply validate_email_ignores_case. reflexivity. Defined.

Lemma validate_email_examples :
  validate_email (lit " Ann.Lee@Example.org ") = accepted
  /\ validate_email (lit "ann@example") =
     rejected (lit "Invalid email address format")
  /\ validate_email (lit "ann@@example.org") =
     rejected (lit "Invalid email address format")
  /\ validate_email (lit "ann@example.o") =
     rejected (lit "Invalid email address format")
  /\ validate_email (lit "..@-.aa") = accepted
  /\ validate_email (lit "   ") = rejected (lit "Email address is required").
Proof. repeat split; vm_compute; reflexivity. Qed.

(** *** Lengths of text *)

Lemma validate_text_length_accepts_iff (text : str) (lo hi : Z) :
  validate_text_length text lo hi = accepted
  <-> lo <= Z.of_nat (List.length (strip text)) <= hi.
Proof.
  unfold validate_text_length, accepted, rejected.
  replace (if is_empty text then [] else text) with text
    by (destruct text; reflexivity).
  destruct (Z.of_nat (List.length (strip text)) <? lo) eqn:E1.
  - apply Z.ltb_lt in E1. split; [discriminate|lia].
  - apply Z.ltb_ge in E1.
    destruct (hi <? Z.of_nat (List.length (strip text))) eqn:E2.
    + apply Z.ltb_lt in E2. split; [discriminate|lia].
    + apply Z.ltb_ge in E2. split; [lia|reflexivity].
Qed.

(** X12.  [validate_transaction_description] accepts a text exactly when
    [validate_text_length] accepts it for the lengths 3 to 500. *)
Theorem description_accepted_iff_length (description : str) :
  fst (fst (validate_transaction_description description)) = true
  <-> validate_text_length description 3 500 = accepted.
Proof.
  rewrite validate_text_length_accepts_iff.
  unfold validate_transaction_description.
  destruct (is_empty description || is_empty (strip description)) eqn:E.
  - assert (strip description = []) as Hs.
    { apply orb_true_iff in E. destruct E as [E|E];
        apply is_empty_nil in E; [subst; reflexivity|exact E]. }
    rewrite Hs. cbn. split; [discriminate|lia].
  - destruct (Z.of_nat (List.length (strip description)) <? 3) eqn:E1.
    + apply Z.ltb_lt in E1. cbn. split; [discriminate|lia].
    + apply Z.ltb_ge in E1.
      destruct (500 <? Z.of_nat (List.length (strip description))) eqn:E2.
      * apply Z.ltb_lt in E2. cbn. split; [discriminate|lia].
      * apply Z.ltb_ge in E2. cbn. split; [lia|reflexivity].
Qed.

(** *** Numeric ranges *)

Lemma Qle_bool_negb (a b : Q) : negb (Qle_bool a b) = true <-> Qlt b a.
Proof.
  rewrite negb_true_iff. split.
  - intros H. apply Qnot_le_lt. intros Hle. apply Qle_bool_iff in Hle.
    congruence.
  - apply Qle_bool_false.
Qed.

Lemma float_of_exact (value : pyobj) (v : pyfloat) :
  exact_number value v -> float_of value = Ret v.
Proof.
  intros [f|n Hn]; [reflexivity|]. cbn [float_of].
  apply float_of_int_small.
  assert (2 ^ 53 < 2 ^ 1024 - 2 ^ 970) by (vm_compute; reflexivity). lia.
Qed.

(** X13.  A float, or an integer that [float()] converts without rounding,
    is accepted for the range of two finite bounds exactly when it lies
    between them, or is not a number: both comparisons are false on a
    NaN. *)
Theorem validate_numeric_range_accepts_iff (float_str : pyfloat -> str)
    (value : pyobj) (v : pyfloat) (min_val max_val : Q) :
  exact_number value v ->
  (validate_numeric_range float_str value (Fin min_val) (Fin max_val)
   = Ret accepted
   <-> v = NaN \/ exists q, v = Fin q /\ Qle min_val q /\ Qle q max_val).
Proof.
  intros Hv. apply float_of_exact in Hv.
  unfold validate_numeric_range. rewrite Hv. cbn [bind].
  unfold float_gt, accepted, rejected.
  destruct v as [q|negative|]; cbn [float_lt].
  - destruct (negb (Qle_bool min_val q)) eqn:E1.
    + apply Qle_bool_negb in E1. cbn. split; [discriminate|].
      intros [H|(q' & H & H1 & _)]; [discriminate|]. injection H as <-.
      exfalso. exact (Qlt_not_le _ _ E1 H1).
    + apply negb_false_iff, Qle_bool_iff in E1.
      destruct (negb (Qle_bool q max_val)) eqn:E2.
      * apply Qle_bool_negb in E2. cbn. split; [discriminate|].
        intros [H|(q' & H & _ & H2)]; [discriminate|]. injection H as <-.
        exfalso. exact (Qlt_not_le _ _ E2 H2).
      * apply negb_false_iff, Qle_bool_iff in E2. cbn.
        split; [|reflexivity]. intros _. right. exists q. auto.
  - destruct negative; cbn; (split; [discriminate|]);
      intros [H|(q & H & _)]; discriminate.
  - cbn. split; [auto|reflexivity].
Qed.

Lemma validate_numeric_range_accepts_iff_witness :
  validate_numeric_range (fun _ => []) (PInt 5) (Fin 1) (Fin (inject_Z 10))
  = Ret accepted
  <-> Fin (inject_Z 5) = NaN
      \/ exists q, Fin (inject_Z 5) = Fin q
                   /\ Qle 1 q /\ Qle q (inject_Z 10).
Proof.
  apply (validate_numeric_range_accepts_iff (fun _ => []) (PInt 5)).
  apply exact_of_int. vm_compute. discriminate.
Defined.

Lemma validate_numeric_range_examples (float_str : pyfloat -> str) :
  validate_numeric_range float_str (PFloat NaN) (Fin 1) (Fin 0)
  = Ret accepted
  /\ validate_numeric_range float_str (PStr (lit "abc")) (Fin 0) (Fin 1)
     = Ret (rejected (lit "Invalid numeric value"))
  /\ validate_numeric_range float_str PNone (Fin 0) (Fin 1)
     = Ret (rejected (lit "Invalid numeric value"))
  /\ validate_numeric_range float_str (PStr (lit " 1e2 ")) (Fin 0)
       (Fin (inject_Z 100))
     = Ret accepted
  /\ validate_numeric_range float_str (PInt (2 ^ 1024)) (Fin 0) (Fin 1)
     = Raise OverflowError.
Proof. repeat split; vm_compute; reflexivity. Qed.

(** *** File names *)

Lemma startswith_nil (s : str) : startswith s [] = true.
Proof. destruct s; reflexivity. Qed.

Lemma contains_char (c : ascii) (s : str) :
  contains [c] s = true <-> In c s.
Proof.
  induction s as [|d s IH]; cbn [contains startswith].
  - cbn. split; [discriminate|tauto].
  - rewrite orb_true_iff, IH. cbn [In].
    destruct (ascii_dec c d) as [->|N].
    + rewrite startswith_nil. tauto.
    + split; [intros [H|H]; [discriminate|auto]|].
      intros [H|H]; [congruence|auto].
Qed.

(** X14.  [is_safe_filename] accepts exactly the ASCII names of at most
    255 characters, not blank, with no slash, backslash or reserved
    character and no two dots in a row. *)
Theorem is_safe_filename_iff (filename : str) :
  forallb is_ascii filename = true ->
  (is_safe_filename filename = true
   <-> strip filename <> []
       /\ Z.of_nat (List.length filename) <= 255
       /\ contains (lit "..") filename = false
       /\ forall c, In c filename -> ~ In c unsafe_chars).
Proof.
  intros _. unfold is_safe_filename.
  destruct (is_empty filename || is_empty (strip filename)) eqn:E.
  - assert (strip filename = []) as Hs.
    { apply orb_true_iff in E. destruct E as [E|E];
        apply is_empty_nil in E; [subst; reflexivity|exact E]. }
    split; [discriminate|tauto].
  - assert (strip filename <> []) as Hs.
    { intros H. apply orb_false_iff in E. destruct E as [_ E].
      apply is_empty_nil in H. congruence. }
    destruct (contains (lit "..") filename) eqn:Edots;
      [cbn [orb]; split; [discriminate|intros (_ & _ & H & _); discriminate]|].
    cbn [orb].
    destruct (contains (lit "/") filename) eqn:Eslash.
    { cbn [orb]. split; [discriminate|]. intros (_ & _ & _ & H).
      apply contains_char in Eslash. exfalso. apply (H _ Eslash).
      cbn. auto. }
    destruct (contains (lit "\") filename) eqn:Eback.
    { cbn [orb]. split; [discriminate|]. intros (_ & _ & _ & H).
      apply contains_char in Eback. exfalso. apply (H _ Eback).
      cbn. auto. }
    cbn [orb].
    destruct (existsb (fun char => contains [char] filename) reserved_chars)
      eqn:Eres.
    { split; [discriminate|]. intros (_ & _ & _ & H).
      apply existsb_exists in Eres. destruct Eres as (c & Hc & Hin).
      apply contains_char in Hin. exfalso. apply (H _ Hin).
      unfold unsafe_chars. apply in_or_app. right. exact Hc. }
    destruct (255 <? Z.of_nat (List.length filename)) eqn:Elen.
    { apply Z.ltb_lt in Elen. split; [discriminate|lia]. }
    apply Z.ltb_ge in Elen. split; [|reflexivity]. intros _.
    repeat split; try assumption. intros c Hc Hun.
    unfold unsafe_chars in Hun. apply in_app_or in Hun.
    destruct Hun as [Hun|Hun].
    + cbn in Hun. destruct Hun as [<-|[<-|[]]].
      * apply contains_char in Hc. change ["/"%char] with (lit "/") in Hc.
        congruence.
      * apply contains_char in Hc. change ["\"%char] with (lit "\") in Hc.
        congruence.
    + assert (existsb (fun char => contains [char] filename) reserved_chars
              = true); [|congruence].
      apply existsb_exists. exists c. split; [exact Hun|].
      apply contains_char. exact Hc.
Qed.

Lemma is_safe_filename_iff_witness :
  is_safe_filename (lit "report-2024.csv") = true
  <-> strip (lit "report-2024.csv") <> []
      /\ Z.of_nat (List.length (lit "report-2024.csv")) <= 255
      /\ contains (lit "..") (lit "report-2024.csv") = false
      /\ forall c, In c (lit "report-2024.csv") -> ~ In c unsafe_chars.
Proof.
  apply (is_safe_filename_iff (lit "report-2024.csv")). reflexivity.
Defined.

Lemma is_safe_filename_examples :
  is_safe_filename (lit "report-2024.csv") = true
  /\ is_safe_filename (lit "../etc/passwd") = false
  /\ is_safe_filename (lit "a..b") = false
  /\ is_safe_filename (lit "a:b") = false
  /\ is_safe_filename (lit ".") = true
  /\ is_safe_filename (lit " ") = false.
Proof. repeat split; vm_compute; reflexivity. Qed.

(** *** The amounts that are accepted *)

Lemma round_half_even_bounds (q : Q) (n : Z) :
  Qle 0 q -> Qle q (inject_Z n) -> 0 <= round_half_even q <= n.
Proof.
  destruct q as [a d]. unfold Qle, round_half_even, inject_Z.
  cbn [Qnum Qden]. intros H0 Hn.
  rewrite Z.mul_1_r in H0, Hn.
  pose proof (Pos2Z.is_pos d) as Hd.
  pose proof (Z.div_mod a (Z.pos d) ltac:(lia)) as Hdm.
  pose proof (Z.mod_pos_bound a (Z.pos d) Hd) as Hm.
  assert (0 <= a / Z.pos d) by (apply Z.div_pos; lia).
  assert (2 * (a mod Z.pos d) >= Z.pos d -> a / Z.pos d < n) by nia.
  destruct (2 * (a mod Z.pos d) <? Z.pos d) eqn:E1; [nia|].
  apply Z.ltb_ge in E1.
  destruct (Z.pos d <? 2 * (a mod Z.pos d)); [lia|].
  destruct (Z.even (a / Z.pos d)); [nia|lia].
Qed.

(** X15.  The amount [validate_amount] accepts is never negative and never
    above 999,999,999, and has at most two decimals; it is zero for an
    input below half a hundredth, and a NaN is accepted as it is. *)
Theorem validate_amount_accepted_range (x : pyobj) (a : pyfloat)
    (m : option str) :
  validate_amount x = Ret (true, Some a, m) ->
  a = NaN
  \/ exists q, a = Fin q /\ Qle 0 q /\ Qle q (inject_Z 999999999)
               /\ two_decimals q.
Proof.
  assert (Hcheck : forall f, check_amount f = (true, Some a, m) ->
            a = NaN
            \/ exists q, a = Fin q /\ Qle 0 q /\ Qle q (inject_Z 999999999)
                         /\ two_decimals q).
  { intros f. unfold check_amount, failure, success.
    destruct (fle f 0) eqn:E1; [discriminate|].
    destruct (fgt f (inject_Z 999999999)) eqn:E2; [discriminate|].
    intros H. injection H as <- <-.
    destruct f as [q|negative|]; cbn [round2];
      [|destruct negative; discriminate|auto].
    right. cbn [fle fgt] in E1, E2.
    apply negb_false_iff, Qle_bool_iff in E2.
    assert (Qlt 0 q) as Hpos.
    { apply Qnot_le_lt. intros Hle. apply Qle_bool_iff in Hle. congruence. }
    eexists. split; [reflexivity|].
    pose proof (round_half_even_bounds (Qmult q (inject_Z 100)) 99999999900)
      as Hb.
    destruct Hb as [Hb1 Hb2].
    { apply Qmult_le_0_compat; [apply Qlt_le_weak; exact Hpos|discriminate]. }
    { change (inject_Z 99999999900)
        with (Qmult (inject_Z 999999999) (inject_Z 100)).
      apply Qmult_le_compat_r; [exact E2|discriminate]. }
    repeat split.
    - unfold Qle. cbn. lia.
    - unfold Qle. cbn. lia.
    - eexists. reflexivity. }
  unfold validate_amount. destruct x as [s|n|f|]; cbn [catch].
  - destruct (filter amount_char (strip s)); [discriminate|].
    destruct (float_of_str _) as [f|e]; cbn [bind catch].
    + intros H. injection H as H. eauto.
    + destruct (is_value_or_type_error e); discriminate.
  - destruct (float_of_int n) as [f|e]; cbn [bind catch].
    + intros H. injection H as H. eauto.
    + destruct (is_value_or_type_error e); discriminate.
  - intros H. injection H as H. eauto.
  - discriminate.
Qed.

Lemma validate_amount_accepted_range_witness :
  Fin (Qmake 0 100) = NaN
  \/ exists q, Fin (Qmake 0 100) = Fin q /\ Qle 0 q
               /\ Qle q (inject_Z 999999999) /\ two_decimals q.
Proof.
  apply (validate_amount_accepted_range (PFloat (Fin (Qmake 1 1000)))
           (Fin (Qmake 0 100)) None).
  reflexivity.
Defined.

Lemma validate_amount_edge_examples :
  validate_amount (PFloat (Fin (Qmake 1 1000)))
  = Ret (success (Fin (Qmake 0 100)))
  /\ validate_amount (PFloat NaN) = Ret (success NaN)
  /\ validate_amount (PFloat (Inf false))
     = Ret (failure "Amount exceeds maximum limit")
  /\ validate_amount (PStr (lit "nan"))
     = Ret (failure "Amount cannot be empty").
Proof. repeat split; vm_compute; reflexivity. Qed.

End ValidationFacts.

(** ** format_utils.py and validation_utils.py together *)

Module CurrencyFacts.
Import PyStr PyNum ValidationUtils FormatUtils Notions PyStrFacts PyNumFacts.
Import ValidationFacts.

(** *** What [format_fixed] writes *)

Lemma cents_abs_digits (q : Q) :
  whole_digits q <> [] /\ forallb isdigit (whole_digits q) = true
  /\ List.length (hundredth_digits q) = 2%nat
  /\ forallb isdigit (hundredth_digits q) = true
  /\ digits_val (whole_digits q ++ hundredth_digits q) = Z.abs (cents q).
Proof.
  unfold whole_digits, hundredth_digits.
  set (m := Z.abs (cents q)).
  assert (0 <= m) by apply Z.abs_nonneg.
  assert (0 <= m / 100) by (apply Z.div_pos; lia).
  pose proof (Z.mod_pos_bound m 100 ltac:(lia)).
  destruct (int_str_spec (m / 100) ltac:(lia)) as (W1 & W2 & W3).
  destruct (zfill_hundredths (m mod 100) ltac:(lia)) as (F1 & F2 & F3).
  repeat split; try assumption.
  rewrite digits_val_app, W3, F3, F1.
  change (10 ^ Z.of_nat 2) with 100.
  pose proof (Z.div_mod m 100 ltac:(lia)). lia.
Qed.

Lemma format_fixed_two (grouping : bool) (q : Q) :
  format_fixed 2 grouping (Fin q)
  = (if Qle_bool 0 q then [] else lit "-")
    ++ (if grouping then group_thousands (whole_digits q) else whole_digits q)
    ++ lit "." ++ hundredth_digits q.
Proof. reflexivity. Qed.

Lemma digits_not_comma (s : str) :
  forallb isdigit s = true -> remove_char "," s = s.
Proof.
  intros H. apply filter_all. apply (forallb_impl isdigit); [|exact H].
  intros c. ascii_cases c; intros Hc; (discriminate || reflexivity).
Qed.

(** Without its commas, the text is a number in plain notation. *)
Lemma format_fixed_two_plain (grouping : bool) (q : Q) :
  remove_char "," (format_fixed 2 grouping (Fin q))
  = written (negb (Qle_bool 0 q)) (whole_digits q)
            (Some (hundredth_digits q)).
Proof.
  destruct (cents_abs_digits q) as (W1 & W2 & F1 & F2 & _).
  rewrite format_fixed_two. unfold written, remove_char.
  rewrite !filter_app. fold (remove_char "," (hundredth_digits q)).
  rewrite (digits_not_comma _ F2).
  replace (filter (fun d => negb (Ascii.eqb d ","))
             (if grouping then group_thousands (whole_digits q)
              else whole_digits q))
    with (whole_digits q).
  2:{ destruct grouping.
      - symmetry. apply group_thousands_removed. exact W2.
      - symmetry. apply digits_not_comma. exact W2. }
  destruct (Qle_bool 0 q); reflexivity.
Qed.

Lemma filter_filter_weaker {A : Type} (p r : A -> bool) (l : list A) :
  (forall a, p a = true -> r a = true) ->
  filter p (filter r l) = filter p l.
Proof.
  intros H. induction l as [|a l IH]; [reflexivity|].
  cbn [filter]. destruct (r a) eqn:Er.
  - cbn [filter]. rewrite IH. reflexivity.
  - rewrite IH. destruct (p a) eqn:Ep; [|reflexivity].
    apply H in Ep. congruence.
Qed.

Lemma written_amount_text (negative : bool) (ip fp : str) :
  forallb isdigit ip = true -> forallb isdigit fp = true ->
  filter amount_char (written negative ip (Some fp))
  = written negative ip (Some fp).
Proof.
  intros Hi Hf. apply filter_all.
  apply written_amount_chars; assumption.
Qed.

(** What [validate_amount] keeps of the text. *)
Lemma format_fixed_two_cleaned (grouping : bool) (q : Q) :
  filter amount_char (format_fixed 2 grouping (Fin q))
  = written (negb (Qle_bool 0 q)) (whole_digits q)
            (Some (hundredth_digits q)).
Proof.
  destruct (cents_abs_digits q) as (W1 & W2 & F1 & F2 & _).
  rewrite <- (filter_filter_weaker amount_char
                (fun d => negb (Ascii.eqb d ","))).
  - fold (remove_char "," (format_fixed 2 grouping (Fin q))).
    rewrite format_fixed_two_plain. apply written_amount_text; assumption.
  - intros c. ascii_cases c; intros Hc; (discriminate || reflexivity).
Qed.

Lemma starts_clean_app (a b : str) :
  a <> [] -> starts_clean a = true -> starts_clean (a ++ b) = true.
Proof. destruct a; [congruence|]. intros _ H. exact H. Qed.

Lemma nonspace_starts_clean (s : str) :
  forallb (fun c => negb (isspace c)) s = true -> starts_clean s = true.
Proof.
  destruct s as [|c s]; [reflexivity|]. cbn.
  intros H. apply andb_true_iff in H. tauto.
Qed.

Lemma digits_nonspace (s : str) :
  forallb isdigit s = true -> forallb (fun c => negb (isspace c)) s = true.
Proof.
  apply forallb_impl. intros c.
  ascii_cases c; intros Hc; (discriminate || reflexivity).
Qed.

(** The text is not empty and has no whitespace in it. *)
Lemma format_fixed_two_nonspace (grouping : bool) (q : Q) :
  format_fixed 2 grouping (Fin q) <> []
  /\ forallb (fun c => negb (isspace c)) (format_fixed 2 grouping (Fin q))
     = true.
Proof.
  destruct (cents_abs_digits q) as (W1 & W2 & F1 & F2 & _).
  rewrite format_fixed_two. split.
  - destruct (Qle_bool 0 q); [|discriminate]. cbn [app].
    intros E. apply app_eq_nil in E. destruct E as [_ E]. discriminate.
  - rewrite !forallb_app.
    apply andb_true_iff; split;
      [|apply andb_true_iff; split; [|apply andb_true_iff; split]].
    + destruct (Qle_bool 0 q); reflexivity.
    + destruct grouping; [apply group_thousands_chars; assumption|].
      apply digits_nonspace. exact W2.
    + reflexivity.
    + apply digits_nonspace. exact F2.
Qed.

(** *** Reading the text back *)

Lemma written_numeral (negative : bool) (ip fp : str) :
  ip <> [] -> forallb isdigit ip = true -> forallb isdigit fp = true ->
  numeral (written negative ip (Some fp)) negative ip fp 0.
Proof.
  intros Hne Hi Hf. unfold written.
  replace (lit "." ++ fp) with ((lit "." ++ fp) ++ [])
    by apply app_nil_r.
  assert (Happ : ip ++ fp <> []) by (destruct ip; [congruence|discriminate]).
  destruct negative.
  - constructor; try assumption; constructor.
  - apply (numeral_intro [] ip (lit "." ++ fp) fp [] false 0);
      try assumption; constructor.
Qed.

Lemma significant_length (digits : str) :
  significant digits <= Z.max 1 (Z.of_nat (List.length digits)).
Proof.
  unfold significant.
  assert (List.length (dropwhile (Ascii.eqb "0") digits)
          <= List.length digits)%nat; [|lia].
  induction digits as [|d r IH]; [reflexivity|]. cbn [dropwhile].
  destruct (Ascii.eqb "0" d); cbn [List.length]; lia.
Qed.

(** [Decimal] of a number in plain notation. *)
Lemma decimal_of_written (negative : bool) (ip fp : str) :
  ip <> [] -> forallb isdigit ip = true -> forallb isdigit fp = true ->
  Z.of_nat (List.length ip) <= MAX_EMAX ->
  Z.of_nat (List.length fp) <= MAX_EMAX ->
  decimal_of_str (written negative ip (Some fp))
  = Ret (DFin negative (digits_val (ip ++ fp))
              (0 - Z.of_nat (List.length fp))).
Proof.
  intros Hne Hi Hf Li Lf. apply decimal_of_str_finite.
  assert (Hchars : forallb amount_char (written negative ip (Some fp)) = true)
    by (apply written_amount_chars; assumption).
  rewrite strip_none
    by (apply (forallb_impl amount_char);
        [exact amount_char_no_space|exact Hchars]).
  replace (remove_char "_" (written negative ip (Some fp)))
    with (written negative ip (Some fp)).
  2:{ symmetry. apply filter_all.
      apply (forallb_impl amount_char); [|exact Hchars].
      intros c. ascii_cases c; intros Hc; (discriminate || reflexivity). }
  exists ip, fp, 0.
  split; [apply written_numeral; assumption|].
  split; [reflexivity|]. split; [reflexivity|].
  pose proof (significant_length (ip ++ fp)) as Hs.
  rewrite length_app in Hs. unfold MAX_EMAX, MIN_ETINY in *.
  assert (1 <= List.length ip)%nat
    by (destruct ip; [congruence|cbn; lia]).
  lia.
Qed.

Lemma pow10_hundredths (c : Z) :
  Qmult (inject_Z c) (pow10 (0 - Z.of_nat 2)) = Qmake c 100.
Proof.
  unfold Qmult, inject_Z. cbn. rewrite Z.mul_1_r. reflexivity.
Qed.

Lemma Qle_bool_lt (q : Q) : Qle_bool 0 q = false -> Qlt q 0.
Proof.
  intros H. apply Qnot_le_lt. intros Hle. apply Qle_bool_iff in Hle.
  congruence.
Qed.

Lemma cents_sign (q : Q) :
  if Qle_bool 0 q then 0 <= cents q else cents q <= 0.
Proof.
  unfold cents. destruct (Qle_bool 0 q) eqn:E.
  - apply Qle_bool_iff in E. apply round_half_even_nonneg.
    apply Qmult_le_0_compat; [exact E|discriminate].
  - apply Qle_bool_lt in E. apply round_half_even_nonpos.
    apply Qlt_minus_iff. apply Qlt_minus_iff in E.
    setoid_replace (0 + - (q * inject_Z 100))%Q
      with ((0 + - q) * inject_Z 100)%Q by ring.
    apply Qmult_lt_0_compat; [exact E|reflexivity].
Qed.

(** The value of the text is the rounded amount. *)
Lemma written_value (q : Q) :
  signed (negb (Qle_bool 0 q))
    (Qmult (inject_Z (digits_val (whole_digits q ++ hundredth_digits q)))
           (pow10 (0 - Z.of_nat (List.length (hundredth_digits q)))))
  = Qmake (cents q) 100.
Proof.
  destruct (cents_abs_digits q) as (_ & _ & F1 & _ & V).
  rewrite V, F1, pow10_hundredths.
  pose proof (cents_sign q) as Hs.
  destruct (Qle_bool 0 q); cbn [negb signed].
  - rewrite Z.abs_eq by exact Hs. reflexivity.
  - unfold Qopp. cbn [Qnum Qden]. f_equal. lia.
Qed.

(** *** The text of [format_currency] *)

Lemma format_currency_float (x : pyfloat) (sym : str) (grouping : bool) :
  format_currency (PFloat x) sym true grouping
  = Ret (sym ++ lit " " ++ format_fixed 2 grouping x).
Proof. reflexivity. Qed.

Lemma strip_pad (a s : str) :
  forallb isspace a = true -> trimmed s -> strip (a ++ s) = s.
Proof.
  intros Ha Hs. unfold strip, lstrip.
  replace (dropwhile isspace (a ++ s)) with s.
  - fold (lstrip s). destruct Hs as [H1 H2]. unfold rstrip.
    rewrite (dropwhile_id _ H2). apply rev_involutive.
  - induction a as [|c a IH]; cbn [app dropwhile].
    + symmetry. apply dropwhile_id, Hs.
    + cbn in Ha. apply andb_true_iff in Ha. destruct Ha as [Hc Ha].
      rewrite Hc. exact (IH Ha).
Qed.

Lemma nonspace_trimmed (s : str) :
  forallb (fun c => negb (isspace c)) s = true -> trimmed s.
Proof.
  intros H. split; apply nonspace_starts_clean; [exact H|].
  rewrite forallb_rev. exact H.
Qed.

(** What [validate_currency_amount] hands to [Decimal]. *)
Lemma currency_text_formatted (q : Q) (sym : str) (grouping : bool) :
  starts_clean sym = true ->
  currency_text (sym ++ lit " " ++ format_fixed 2 grouping (Fin q)) sym
  = written (negb (Qle_bool 0 q)) (whole_digits q)
            (Some (hundredth_digits q)).
Proof.
  intros Hsym. destruct (format_fixed_two_nonspace grouping q) as [Hne Hns].
  pose proof (nonspace_trimmed _ Hns) as Hbody.
  rewrite <- format_fixed_two_plain with (grouping := grouping).
  set (body := format_fixed 2 grouping (Fin q)) in *.
  unfold currency_text. f_equal.
  destruct sym as [|c sym].
  - cbn [app]. rewrite (strip_pad (lit " ") body eq_refl Hbody).
    replace (startswith body []) with true by (destruct body; reflexivity).
    cbn [List.length skipn]. apply trimmed_strip, Hbody.
  - assert (trimmed ((c :: sym) ++ lit " " ++ body)) as Ht.
    { split; [exact Hsym|]. rewrite !rev_app_distr, <- app_assoc.
      apply starts_clean_app; [|apply Hbody].
      intros E. apply (f_equal (@rev ascii)) in E.
      rewrite rev_involutive in E. exact (Hne E). }
    rewrite (trimmed_strip _ Ht), startswith_app, skipn_length_app.
    apply (strip_pad (lit " ") body eq_refl Hbody).
Qed.

Lemma formatted_not_blank (q : Q) (sym : str) (grouping : bool) :
  starts_clean sym = true ->
  let text := sym ++ lit " " ++ format_fixed 2 grouping (Fin q) in
  is_empty text || is_empty (strip text) = false.
Proof.
  intros Hsym text.
  destruct (format_fixed_two_nonspace grouping q) as [Hne Hns].
  pose proof (nonspace_trimmed _ Hns) as Hbody.
  subst text. destruct sym as [|c sym].
  - cbn [app]. rewrite (strip_pad (lit " ") _ eq_refl Hbody).
    destruct (format_fixed 2 grouping (Fin q)); [congruence|reflexivity].
  - rewrite trimmed_strip; [reflexivity|].
    split; [exact Hsym|]. rewrite !rev_app_distr, <- app_assoc.
    apply starts_clean_app; [|apply Hbody].
    intros E. apply (f_equal (@rev ascii)) in E.
    rewrite rev_involutive in E. exact (Hne E).
Qed.

Lemma round_half_even_abs (q : Q) (n : Z) :
  Qle (Qabs.Qabs q) (inject_Z n) -> Z.abs (round_half_even q) <= n.
Proof.
  intros H. apply Qabs.Qabs_Qle_condition in H. destruct H as [H1 H2].
  destruct q as [a d]. unfold Qle, Qopp, inject_Z in H1, H2.
  cbn [Qnum Qden] in H1, H2. unfold round_half_even. cbn [Qnum Qden].
  pose proof (Pos2Z.is_pos d) as Hd.
  pose proof (Z.div_mod a (Z.pos d) ltac:(lia)) as Hdm.
  pose proof (Z.mod_pos_bound a (Z.pos d) Hd) as Hm.
  set (f := a / Z.pos d) in *. set (r := a mod Z.pos d) in *.
  assert (- n <= f) by nia.
  assert (f <= n) by nia.
  assert (0 < r -> f < n) by nia.
  destruct (2 * r <? Z.pos d) eqn:E1; [lia|]. apply Z.ltb_ge in E1.
  destruct (Z.pos d <? 2 * r); [lia|].
  destruct (Z.even f); lia.
Qed.

(** The hundredths of a finite float, and the digits before the point. *)
Lemma cents_bound (q : Q) :
  in_float_range q ->
  Z.abs (cents q) <= 100 * FLOAT_MAX
  /\ Z.of_nat (List.length (whole_digits q)) <= 309.
Proof.
  unfold in_float_range. intros H.
  assert (Hc : Z.abs (cents q) <= 100 * FLOAT_MAX).
  { unfold cents. apply round_half_even_abs.
    apply Qabs.Qabs_Qle_condition in H. apply Qabs.Qabs_Qle_condition.
    destruct H as [H1 H2]. destruct q as [a d].
    generalize dependent FLOAT_MAX. intros M H1 H2.
    unfold Qle, Qopp, Qmult, inject_Z in *. cbn [Qnum Qden] in *.
    rewrite Pos.mul_1_r. lia. }
  split; [exact Hc|].
  assert (FLOAT_MAX < 10 ^ Z.of_nat 309) as Hmax by (vm_compute; reflexivity).
  assert (0 <= Z.abs (cents q) / 100) by (apply Z.div_pos; lia).
  assert (Z.abs (cents q) / 100 <= FLOAT_MAX)
    by (apply Z.div_le_upper_bound; lia).
  pose proof (int_str_length (Z.abs (cents q) / 100) 309 ltac:(lia)
                ltac:(lia)).
  unfold whole_digits. lia.
Qed.

(** X16.  Round trip.  What [format_currency] writes for a finite float
    and an ASCII symbol, [validate_currency_amount] reads back, for the
    same symbol, as the amount rounded to two decimals; an amount that
    rounds to zero or is negative is refused as not greater than zero. *)
Theorem currency_round_trip (q : Q) (currency_symbol : str)
    (use_commas : bool) :
  forallb is_ascii currency_symbol = true ->
  starts_clean currency_symbol = true ->
  in_float_range q ->
  (text <- format_currency (PFloat (Fin q)) currency_symbol true use_commas ;;
   validate_currency_amount text currency_symbol)
  = Ret (if 0 <? cents q then success (round2 (Fin q))
         else failure "Amount must be greater than zero").
Proof.
  intros _ Hsym Hrange. rewrite format_currency_float. cbn [bind].
  unfold validate_currency_amount.
  rewrite (formatted_not_blank q _ use_commas Hsym).
  rewrite currency_text_formatted by exact Hsym.
  destruct (cents_abs_digits q) as (W1 & W2 & F1 & F2 & V).
  destruct (cents_bound q Hrange) as [Hc Hw].
  rewrite decimal_of_written
    by (try assumption; rewrite ?F1; unfold MAX_EMAX; lia).
  cbn [bind decimal_le_zero]. rewrite V.
  pose proof (cents_sign q) as Hs.
  destruct (Qle_bool 0 q); cbn [negb orb] in *.
  - rewrite Z.abs_eq in * by exact Hs.
    destruct (cents q =? 0) eqn:E0.
    + apply Z.eqb_eq in E0. rewrite E0. reflexivity.
    + apply Z.eqb_neq in E0.
      replace (0 <? cents q) with true by (symmetry; apply Z.ltb_lt; lia).
      cbn [bind decimal_exponent_lt]. rewrite F1.
      change (0 - Z.of_nat 2 <? -2) with false.
      unfold float_of_decimal. cbv zeta. rewrite pow10_hundredths.
      rewrite Qle_bool_false; [reflexivity|].
      assert (FLOAT_MAX < FLOAT_OVERFLOW) by (vm_compute; reflexivity).
      unfold Qlt, inject_Z. cbn [Qnum Qden]. lia.
  - replace (0 <? cents q) with false by (symmetry; apply Z.ltb_ge; lia).
    reflexivity.
Qed.

Lemma currency_round_trip_witness :
  (text <- format_currency (PFloat (Fin (Qmake 1234567 1000)))
                           default_symbol true true ;;
   validate_currency_amount text default_symbol)
  = Ret (if 0 <? cents (Qmake 1234567 1000)
         then success (round2 (Fin (Qmake 1234567 1000)))
         else failure "Amount must be greater than zero").
Proof.
  apply (currency_round_trip (Qmake 1234567 1000) default_symbol true).
  - reflexivity.
  - reflexivity.
  - vm_compute. discriminate.
Defined.

(** X17.  For a currency symbol with no digit, point or hyphen in it,
    [validate_amount] on the text of [format_currency] is [validate_amount]
    on the amount rounded to two decimals. *)
Theorem validate_amount_of_formatted (q : Q) (currency_symbol : str)
    (use_commas : bool) :
  forallb (fun c => negb (amount_char c)) currency_symbol = true ->
  (text <- format_currency (PFloat (Fin q)) currency_symbol true use_commas ;;
   validate_amount (PStr text))
  = validate_amount (PFloat (round2 (Fin q))).
Proof.
  intros Hsym. rewrite format_currency_float. cbn [bind].
  unfold validate_amount.
  rewrite filter_strip by exact amount_char_not_space.
  rewrite !filter_app, format_fixed_two_cleaned.
  rewrite (filter_none amount_char (fun c => negb (amount_char c)))
    by (exact Hsym || (intros a Ha; apply negb_true_iff; exact Ha)).
  change (filter amount_char (lit " ")) with (@nil ascii). cbn [app].
  destruct (cents_abs_digits q) as (W1 & W2 & F1 & F2 & V).
  pose proof (float_of_written (negb (Qle_bool 0 q)) (whole_digits q)
                (Some (hundredth_digits q)) W1 W2 F2) as Hf.
  cbn [frac_digits] in Hf. unfold literal_value in Hf.
  rewrite written_value in Hf.
  destruct (written (negb (Qle_bool 0 q)) (whole_digits q)
              (Some (hundredth_digits q))) as [|c r] eqn:Ew.
  - exfalso. unfold written in Ew. destruct (whole_digits q); [congruence|].
    destruct (negb (Qle_bool 0 q)); discriminate.
  - rewrite Hf. reflexivity.
Qed.

Lemma validate_amount_of_formatted_witness :
  (text <- format_currency (PFloat (Fin (Qmake 1234567 1000)))
                           (lit "$") true true ;;
   validate_amount (PStr text))
  = validate_amount (PFloat (round2 (Fin (Qmake 1234567 1000)))).
Proof.
  apply (validate_amount_of_formatted (Qmake 1234567 1000) (lit "$") true).
  reflexivity.
Defined.

Lemma parse_finite_after_point (neg : bool) (ip fp : str) :
  ip <> [] -> forallb isdigit ip = true -> forallb isdigit fp = true ->
  parse_finite (lit "." ++ written neg ip (Some fp)) = None.
Proof.
  intros Hne Hi Hf. unfold parse_finite, written.
  cbn [lit list_ascii_of_string app span isdigit in_range code].
  change (isdigit "."%char) with false. cbv iota.
  change (Ascii.eqb "." ".") with true. cbv iota.
  destruct neg.
  - cbn [lit list_ascii_of_string app span].
    change (isdigit "-"%char) with false. reflexivity.
  - cbn [app]. rewrite span_app; [|exact Hi|reflexivity].
    destruct ip as [|d ip]; [congruence|]. reflexivity.
Qed.

(** X18.  With the default symbol [Rs.], whose point is kept as part of the
    number, [validate_amount] refuses every text that [format_currency]
    writes for a float. *)
Theorem validate_amount_refuses_default_format (x : pyfloat)
    (use_commas : bool) :
  (text <- format_currency (PFloat x) default_symbol true use_commas ;;
   validate_amount (PStr text))
  = Ret (failure "Invalid amount format").
Proof.
  rewrite format_currency_float. cbn [bind].
  destruct x as [q|negative|];
    [|destruct negative, use_commas; reflexivity
     |destruct use_commas; reflexivity].
  unfold validate_amount.
  rewrite filter_strip by exact amount_char_not_space.
  rewrite !filter_app, format_fixed_two_cleaned.
  change (filter amount_char default_symbol) with (lit ".").
  change (filter amount_char (lit " ")) with (@nil ascii).
  cbn [lit list_ascii_of_string app].
  destruct (cents_abs_digits q) as (W1 & W2 & F1 & F2 & V).
  set (w := written (negb (Qle_bool 0 q)) (whole_digits q)
              (Some (hundredth_digits q))).
  assert (Hchars : forallb amount_char ("."%char :: w) = true).
  { cbn [forallb]. unfold w. rewrite written_amount_chars by assumption.
    reflexivity. }
  unfold float_of_str.
  rewrite strip_none
    by (apply (forallb_impl amount_char);
        [exact amount_char_no_space|exact Hchars]).
  cbn [parse_sign]. change (Ascii.eqb "." "-") with false.
  change (Ascii.eqb "." "+") with false. cbv iota.
  assert (Hw : forall c t, c <> "."%char ->
            eqb_str (lower ("."%char :: w)) (c :: t) = false).
  { intros c t Hc. unfold eqb_str.
    destruct (list_eq_dec ascii_dec (lower ("."%char :: w)) (c :: t)) as [E|];
      [|reflexivity].
    cbn in E. congruence. }
  change (lit "inf") with ("i"%char :: lit "nf").
  change (lit "infinity") with ("i"%char :: lit "nfinity").
  change (lit "nan") with ("n"%char :: lit "an").
  rewrite !Hw by discriminate. cbn [orb].
  change ("."%char :: w) with (lit "." ++ w). unfold w.
  rewrite parse_finite_after_point by assumption. reflexivity.
Qed.

Lemma format_currency_examples :
  format_currency (PFloat (Fin (Qmake 1234567 1000))) default_symbol true true
  = Ret (lit "Rs. 1,234.57")
  /\ format_currency (PInt 1000000) (lit "$") true true
     = Ret (lit "$ 1,000,000.00")
  /\ format_currency (PFloat (Fin (Qmake (-1) 1000))) (lit "$") true false
     = Ret (lit "$ -0.00")
  /\ format_currency (PStr (lit "12.5")) (lit "$") false true
     = Ret (lit "12.50")
  /\ format_currency (PStr (lit "abc")) (lit "$") true true
     = Ret (lit "0.00")
  /\ format_currency PNone (lit "$") true true = Ret (lit "0.00")
  /\ format_currency (PInt (2 ^ 1024)) (lit "$") true true
     = Raise OverflowError.
Proof. repeat split; vm_compute; reflexivity. Qed.

(** *** Numbers with any number of decimals *)

Lemma scaled_sign (q : Q) (unit : Z) :
  0 < unit ->
  if Qle_bool 0 q then 0 <= round_half_even (Qmult q (inject_Z unit))
  else round_half_even (Qmult q (inject_Z unit)) <= 0.
Proof.
  intros Hu. destruct (Qle_bool 0 q) eqn:E.
  - apply Qle_bool_iff in E. apply round_half_even_nonneg.
    apply Qmult_le_0_compat; [exact E|]. unfold Qle. cbn. lia.
  - apply Qle_bool_lt in E. apply round_half_even_nonpos.
    apply Qlt_minus_iff. apply Qlt_minus_iff in E.
    setoid_replace (0 + - (q * inject_Z unit))%Q
      with ((0 + - q) * inject_Z unit)%Q by ring.
    apply Qmult_lt_0_compat; [exact E|]. unfold Qlt. cbn. lia.
Qed.

Lemma precision_in_range (decimal_places : Z) :
  0 <= decimal_places <= 2 ^ 31 - 1 ->
  precision decimal_places = Ret (Z.to_nat decimal_places).
Proof.
  intros H. unfold precision.
  replace (decimal_places <? 0) with false by (symmetry; apply Z.ltb_ge; lia).
  replace (2 ^ 31 - 1 <? decimal_places) with false
    by (symmetry; apply Z.ltb_ge; lia).
  reflexivity.
Qed.

(** The text of [format_fixed] without grouping is a number in plain
    notation, with [places] digits after the point. *)
Lemma format_fixed_written (places : nat) (q : Q) :
  let unit := 10 ^ Z.of_nat places in
  let magnitude := Z.abs (round_half_even (Qmult q (inject_Z unit))) in
  exists ip frac,
    format_fixed places false (Fin q)
    = written (negb (Qle_bool 0 q)) ip frac
    /\ ip <> [] /\ forallb isdigit ip = true
    /\ forallb isdigit (frac_digits frac) = true
    /\ List.length (frac_digits frac) = places
    /\ digits_val (ip ++ frac_digits frac) = magnitude.
Proof.
  intros unit magnitude.
  assert (0 < unit) as Hu by (apply Z.pow_pos_nonneg; lia).
  assert (0 <= magnitude) as Hm by apply Z.abs_nonneg.
  assert (0 <= magnitude / unit) as Hw by (apply Z.div_pos; lia).
  destruct (int_str_spec (magnitude / unit) Hw) as (W1 & W2 & W3).
  pose proof (Z.div_mod magnitude unit ltac:(lia)) as Hdm.
  pose proof (Z.mod_pos_bound magnitude unit Hu) as Hmod.
  destruct places as [|p].
  - exists (int_str (magnitude / unit)), None.
    repeat split; try assumption.
    + unfold format_fixed, written. fold unit. fold magnitude.
      cbn [Nat.eqb]. destruct (Qle_bool 0 q); reflexivity.
    + cbn [frac_digits]. rewrite app_nil_r, W3.
      change unit with 1 in *. rewrite Z.div_1_r. reflexivity.
  - destruct (zfill_spec (magnitude mod unit) (S p) Hmod ltac:(lia))
      as (F1 & F2 & F3).
    exists (int_str (magnitude / unit)),
           (Some (zfill (S p) (int_str (magnitude mod unit)))).
    repeat split; try assumption.
    + unfold format_fixed, written. fold unit. fold magnitude.
      cbn [Nat.eqb]. destruct (Qle_bool 0 q); reflexivity.
    + cbn [frac_digits]. rewrite digits_val_app, W3, F3, F1.
      fold unit. lia.
Qed.

(** X19.  Reading back.  For a precision the format accepts, [float()] of the
    text that [format_number] writes without thousands separators is the
    number rounded to [decimal_places] decimals. *)
Theorem format_number_reads_back (q : Q) (decimal_places : Z) :
  0 <= decimal_places <= 2 ^ 31 - 1 ->
  exists v,
    (text <- format_number (PFloat (Fin q)) decimal_places false ;;
     float_of_str text) = Ret (Fin v)
    /\ Qeq v (rounded_to (Z.to_nat decimal_places) q).
Proof.
  intros Hp. unfold format_number. cbn [float_of bind].
  rewrite precision_in_range by exact Hp. cbn [bind catch].
  set (places := Z.to_nat decimal_places).
  destruct (format_fixed_written places q)
    as (ip & frac & E & I1 & I2 & F2 & F1 & V).
  cbv zeta in V. rewrite E, float_of_written by assumption.
  eexists. split; [reflexivity|].
  unfold literal_value. rewrite V, F1.
  set (unit := 10 ^ Z.of_nat places) in *.
  assert (0 < unit) as Hu by (apply Z.pow_pos_nonneg; lia).
  pose proof (scaled_sign q unit Hu) as Hs.
  unfold rounded_to. fold unit.
  set (r := round_half_even (Qmult q (inject_Z unit))) in *.
  assert (Hpow : pow10 (0 - Z.of_nat places) = Qmake 1 (Z.to_pos unit)).
  { unfold pow10. destruct (0 <=? 0 - Z.of_nat places) eqn:E0.
    - apply Z.leb_le in E0. assert (places = 0%nat) as -> by lia.
      reflexivity.
    - replace (- (0 - Z.of_nat places)) with (Z.of_nat places) by lia.
      reflexivity. }
  rewrite Hpow.
  destruct (Qle_bool 0 q); cbn [negb signed].
  - rewrite Z.abs_eq by exact Hs. unfold Qeq, Qmult, inject_Z.
    cbn [Qnum Qden]. rewrite Pos2Z.inj_mul. lia.
  - rewrite Z.abs_neq by exact Hs. unfold Qeq, Qmult, Qopp, inject_Z.
    cbn [Qnum Qden]. rewrite Pos2Z.inj_mul. lia.
Qed.

Lemma format_number_reads_back_witness :
  exists v,
    (text <- format_number (PFloat (Fin (Qmake 1234567 1000))) 1 false ;;
     float_of_str text) = Ret (Fin v)
    /\ Qeq v (rounded_to (Z.to_nat 1) (Qmake 1234567 1000)).
Proof.
  apply (format_number_reads_back (Qmake 1234567 1000) 1).
  vm_compute. split; discriminate.
Defined.

Lemma format_number_examples :
  format_number (PFloat (Fin (Qmake 1234567 1000))) 1 true
  = Ret (lit "1,234.6")
  /\ format_number (PInt 1234567) 0 true = Ret (lit "1,234,567")
  /\ format_number (PFloat (Fin (Qmake 5 10))) 0 false = Ret (lit "0")
  /\ format_number (PFloat (Fin (Qmake (-5) 1000))) 2 false
     = Ret (lit "-0.00")
  /\ format_number (PInt 5) (-1) true = Ret (lit "0")
  /\ format_number (PStr (lit "abc")) 3 true = Ret (lit "0.000")
  /\ format_number (PFloat NaN) 2 true = Ret (lit "nan")
  /\ (forall x sym commas,
        format_number x 2 commas = format_currency x sym false commas).
Proof.
  repeat split; try (vm_compute; reflexivity).
Qed.

End CurrencyFacts.

(** ** The calendar of the library *)

Module CalendarFacts.
Import PyDatetime Notions.

Lemma is_leap_spec (y : Z) :
  is_leap y = true <-> (y mod 4 = 0 /\ (y mod 100 <> 0 \/ y mod 400 = 0)).
Proof.
  unfold is_leap. rewrite andb_true_iff, orb_true_iff, negb_true_iff.
  rewrite !Z.eqb_eq, Z.eqb_neq. tauto.
Qed.

Lemma days_before_year_decomp (a b c e : Z) :
  0 <= b <= 3 -> 0 <= c <= 24 -> 0 <= e <= 3 ->
  days_before_year (400 * a + 100 * b + 4 * c + e + 1)
  = 146097 * a + 36524 * b + 1461 * c + 365 * e.
Proof.
  intros Hb Hc He. unfold days_before_year.
  replace (400 * a + 100 * b + 4 * c + e + 1 - 1)
    with (400 * a + 100 * b + 4 * c + e) by lia.
  Z.to_euclidean_division_equations. lia.
Qed.

Lemma is_leap_decomp (a b c e : Z) :
  0 <= b <= 3 -> 0 <= c <= 24 -> 0 <= e <= 3 ->
  is_leap (400 * a + 100 * b + 4 * c + e + 1)
  = (e =? 3) && (negb (c =? 24) || (b =? 3)).
Proof.
  intros Hb Hc He.
  apply eq_true_iff_eq. rewrite is_leap_spec.
  rewrite andb_true_iff, orb_true_iff, negb_true_iff, !Z.eqb_eq, Z.eqb_neq.
  Z.to_euclidean_division_equations. lia.
Qed.







Lemma In_upto (n : nat) (z : Z) : 0 <= z < Z.of_nat n -> In z (upto n).
Proof.
  intros H. unfold upto. apply in_map_iff. exists (Z.to_nat z).
  split; [lia|]. apply in_seq. lia.
Qed.

Lemma month_day_table (leapyear : bool) :
  forallb (month_day_ok leapyear) (upto (Z.to_nat (year_length leapyear)))
  = true.
Proof. destruct leapyear; vm_compute; reflexivity. Qed.

Lemma month_day_spec (leapyear : bool) (n : Z) :
  0 <= n < year_length leapyear ->
  let '(m, d) := month_day leapyear n in
  1 <= m <= 12 /\ 1 <= d <= month_length leapyear m
  /\ month_start leapyear m + d = n + 1.
Proof.
  intros Hn. pose proof (month_day_table leapyear) as H.
  rewrite forallb_forall in H. specialize (H n).
  unfold month_day_ok in H. destruct (month_day leapyear n) as [m d].
  assert (Hin : In n (upto (Z.to_nat (year_length leapyear)))).
  { apply In_upto. destruct leapyear; simpl in *; lia. }
  specialize (H Hin). rewrite !andb_true_iff in H.
  rewrite !Z.leb_le, Z.eqb_eq in H. lia.
Qed.

Lemma ord2ymd_year_day (n : Z) :
  let a := (n - 1) / 146097 in
  let r := (n - 1) mod 146097 in
  let b := r / 36524 in
  let r := r mod 36524 in
  let c := r / 1461 in
  let r := r mod 1461 in
  let e := r / 365 in
  let r := r mod 365 in
  ord2ymd n =
    if (e =? 4) || (b =? 4) then (400 * a + 100 * b + 4 * c + e, 12, 31)
    else
      let '(m, d) := month_day ((e =? 3) && (negb (c =? 24) || (b =? 3))) r in
      (400 * a + 100 * b + 4 * c + e + 1, m, d).
Proof.
  cbv zeta. unfold ord2ymd, month_day, DI400Y, DI100Y, DI4Y. cbv zeta.
  set (a := (n - 1) / 146097).
  set (r1 := (n - 1) mod 146097).
  set (b := r1 / 36524). set (r2 := r1 mod 36524).
  set (c := r2 / 1461). set (r3 := r2 mod 1461).
  set (e := r3 / 365). set (r := r3 mod 365).
  destruct ((e =? 4) || (b =? 4)); [f_equal; f_equal; lia|].
  set (leap := (e =? 3) && (negb (c =? 24) || (b =? 3))).
  destruct (r <? _); f_equal; f_equal; lia.
Qed.

Lemma days_in_month_flag (y m : Z) :
  days_in_month y m = month_length (is_leap y) m.
Proof. reflexivity. Qed.

Lemma days_before_month_flag (y m : Z) :
  days_before_month y m = month_start (is_leap y) m.
Proof. reflexivity. Qed.

Lemma valid_date_spec (y m d : Z) :
  valid_date y m d = true <->
  1 <= y <= 9999 /\ 1 <= m <= 12 /\ 1 <= d <= days_in_month y m.
Proof.
  unfold valid_date, between, MINYEAR, MAXYEAR.
  rewrite !andb_true_iff, !Z.leb_le. tauto.
Qed.

Lemma ord2ymd_ymd2ord_inv (n : Z) :
  1 <= n <= MAXORDINAL ->
  let '(y, m, d) := ord2ymd n in
  valid_date y m d = true /\ ymd2ord y m d = n.
Proof.
  intros Hn. unfold MAXORDINAL in Hn.
  rewrite ord2ymd_year_day. cbv zeta.
  set (a := (n - 1) / 146097).
  set (r1 := (n - 1) mod 146097).
  set (b := r1 / 36524). set (r2 := r1 mod 36524).
  set (c := r2 / 1461). set (r3 := r2 mod 1461).
  set (e := r3 / 365). set (r := r3 mod 365).
  assert (Ha : n - 1 = 146097 * a + r1 /\ 0 <= r1 < 146097).
  { unfold a, r1. pose proof (Z.div_mod (n - 1) 146097).
    pose proof (Z.mod_pos_bound (n - 1) 146097). lia. }
  assert (Hb : r1 = 36524 * b + r2 /\ 0 <= r2 < 36524).
  { unfold b, r2. pose proof (Z.div_mod r1 36524).
    pose proof (Z.mod_pos_bound r1 36524). lia. }
  assert (Hc : r2 = 1461 * c + r3 /\ 0 <= r3 < 1461).
  { unfold c, r3. pose proof (Z.div_mod r2 1461).
    pose proof (Z.mod_pos_bound r2 1461). lia. }
  assert (He : r3 = 365 * e + r /\ 0 <= r < 365).
  { unfold e, r. pose proof (Z.div_mod r3 365).
    pose proof (Z.mod_pos_bound r3 365). lia. }
  clearbody a r1 b r2 c r3 e r.
  assert (Hbounds : 0 <= a /\ 0 <= b <= 4 /\ 0 <= c <= 24 /\ 0 <= e <= 4)
    by lia.
  destruct ((e =? 4) || (b =? 4)) eqn:Hsp.
  - (* last day of a leap year *)
    apply orb_true_iff in Hsp. rewrite !Z.eqb_eq in Hsp.
    assert (Hy : exists b' c' e',
               0 <= b' <= 3 /\ 0 <= c' <= 24 /\ e' = 3
               /\ (c' <> 24 \/ b' = 3)
               /\ 400 * a + 100 * b + 4 * c + e
                  = 400 * a + 100 * b' + 4 * c' + e' + 1
               /\ n = 146097 * a + 36524 * b' + 1461 * c' + 365 * e' + 366).
    { destruct Hsp as [He4|Hb4].
      - exists b, c, 3. lia.
      - exists 3, 24, 3. lia. }
    destruct Hy as (b' & c' & e' & Hb' & Hc' & He' & Hleap & -> & Hn').
    assert (Hl : is_leap (400 * a + 100 * b' + 4 * c' + e' + 1) = true).
    { rewrite is_leap_decomp by lia. subst e'. 
      destruct Hleap as [H|H].
      - replace (c' =? 24) with false
          by (symmetry; apply Z.eqb_neq; exact H).
        reflexivity.
      - subst b'. cbn. apply orb_true_r. }
    split.
    + apply valid_date_spec. rewrite days_in_month_flag, Hl.
      change (month_length true 12) with 31. lia.
    + unfold ymd2ord.
      rewrite days_before_month_flag, Hl, days_before_year_decomp by lia.
      change (month_start true 12) with 335. lia.
  - apply orb_false_iff in Hsp. rewrite !Z.eqb_neq in Hsp.
    set (leap := (e =? 3) && (negb (c =? 24) || (b =? 3))).
    assert (Hl : is_leap (400 * a + 100 * b + 4 * c + e + 1) = leap).
    { apply is_leap_decomp; lia. }
    assert (Hr : 0 <= r < year_length leap) by (destruct leap; cbn; lia).
    pose proof (month_day_spec leap r Hr) as Hmd.
    destruct (month_day leap r) as [m d].
    destruct Hmd as (Hm & Hd & Hsum).
    split.
    + apply valid_date_spec. rewrite days_in_month_flag, Hl. lia.
    + unfold ymd2ord.
      rewrite days_before_month_flag, Hl, days_before_year_decomp by lia.
      lia.
Qed.

Lemma days_before_year_succ (y : Z) :
  days_before_year (y + 1) = days_before_year y + year_length (is_leap y).
Proof.
  unfold days_before_year, year_length.
  destruct (is_leap y) eqn:E.
  - apply is_leap_spec in E. Z.to_euclidean_division_equations. lia.
  - assert (H : ~ (y mod 4 = 0 /\ (y mod 100 <> 0 \/ y mod 400 = 0))).
    { rewrite <- is_leap_spec. congruence. }
    Z.to_euclidean_division_equations. lia.
Qed.

Lemma days_before_year_mono (y y' : Z) :
  y <= y' -> days_before_year y <= days_before_year y'.
Proof.
  intros H. unfold days_before_year. Z.to_euclidean_division_equations. lia.
Qed.

Lemma month_cases (m : Z) :
  1 <= m <= 12 ->
  m = 1 \/ m = 2 \/ m = 3 \/ m = 4 \/ m = 5 \/ m = 6 \/ m = 7 \/ m = 8
  \/ m = 9 \/ m = 10 \/ m = 11 \/ m = 12.
Proof. lia. Qed.

Ltac each_month H :=
  apply month_cases in H;
  repeat match type of H with _ \/ _ => destruct H as [H|H] end; subst.

Lemma month_table (leapyear : bool) (m : Z) :
  1 <= m <= 12 ->
  0 <= month_start leapyear m
  /\ 28 <= month_length leapyear m <= 31
  /\ month_start leapyear m + month_length leapyear m
     = (if m =? 12 then year_length leapyear else month_start leapyear (m + 1)).
Proof. intros H. each_month H; destruct leapyear; cbn; lia. Qed.

Lemma month_start_mono (leapyear : bool) (m m' : Z) :
  1 <= m -> m < m' -> m' <= 12 ->
  month_start leapyear m + month_length leapyear m <= month_start leapyear m'.
Proof.
  intros H1 H2 H3.
  assert (Hm : 1 <= m <= 12) by lia. assert (Hm' : 1 <= m' <= 12) by lia.
  each_month Hm; each_month Hm'; try lia; destruct leapyear; cbn; lia.
Qed.

Lemma day_of_year_bounds (y m d : Z) :
  valid_date y m d = true ->
  1 <= days_before_month y m + d <= year_length (is_leap y).
Proof.
  intros H. apply valid_date_spec in H. destruct H as (_ & Hm & Hd).
  rewrite days_in_month_flag in Hd. rewrite days_before_month_flag.
  pose proof (month_table (is_leap y) m Hm) as (H0 & _ & Hsum).
  destruct (m =? 12) eqn:E; [lia|].
  apply Z.eqb_neq in E.
  pose proof (month_table (is_leap y) 12 ltac:(lia)) as (_ & Hlen12 & H12).
  change (12 =? 12) with true in H12. cbv iota in H12.
  destruct (Z.eq_dec (m + 1) 12) as [E'|E'].
  - rewrite E' in Hsum. lia.
  - pose proof (month_start_mono (is_leap y) (m + 1) 12
                  ltac:(lia) ltac:(lia) ltac:(lia)).
    pose proof (month_table (is_leap y) (m + 1) ltac:(lia)). lia.
Qed.


Lemma ymd2ord_lt (y m d y' m' d' : Z) :
  valid_date y m d = true -> valid_date y' m' d' = true ->
  date_lt y m d y' m' d' ->
  ymd2ord y m d < ymd2ord y' m' d'.
Proof.
  intros Hv Hv' Hlt. unfold ymd2ord.
  pose proof (day_of_year_bounds _ _ _ Hv) as Hb.
  pose proof (day_of_year_bounds _ _ _ Hv') as Hb'.
  destruct Hlt as [Hy|[-> Hlt]].
  - pose proof (days_before_year_succ y).
    pose proof (days_before_year_mono (y + 1) y' ltac:(lia)). lia.
  - apply valid_date_spec in Hv, Hv'. rewrite days_in_month_flag in *.
    rewrite !days_before_month_flag.
    destruct Hlt as [Hm|[-> Hd]]; [|lia].
    pose proof (month_start_mono (is_leap y') m m' ltac:(lia) Hm ltac:(lia)).
    lia.
Qed.

Lemma ymd2ord_range (y m d : Z) :
  valid_date y m d = true -> 1 <= ymd2ord y m d <= MAXORDINAL.
Proof.
  intros Hv. pose proof (day_of_year_bounds _ _ _ Hv) as Hb.
  apply valid_date_spec in Hv. destruct Hv as (Hy & _).
  unfold ymd2ord, MAXORDINAL.
  pose proof (days_before_year_mono 1 y ltac:(lia)) as H1.
  pose proof (days_before_year_mono (y + 1) 10000 ltac:(lia)) as H2.
  pose proof (days_before_year_succ y) as H3.
  change (days_before_year 1) with 0 in H1.
  change (days_before_year 10000) with 3652059 in H2. lia.
Qed.

Lemma date_trichotomy (y m d y' m' d' : Z) :
  date_lt y m d y' m' d' \/ (y = y' /\ m = m' /\ d = d')
  \/ date_lt y' m' d' y m d.
Proof. unfold date_lt. lia. Qed.

Lemma ymd2ord_inj (y m d y' m' d' : Z) :
  valid_date y m d = true -> valid_date y' m' d' = true ->
  ymd2ord y m d = ymd2ord y' m' d' -> y = y' /\ m = m' /\ d = d'.
Proof.
  intros Hv Hv' E.
  destruct (date_trichotomy y m d y' m' d') as [H|[H|H]]; [|exact H|].
  - pose proof (ymd2ord_lt _ _ _ _ _ _ Hv Hv' H). lia.
  - pose proof (ymd2ord_lt _ _ _ _ _ _ Hv' Hv H). lia.
Qed.

Lemma ord2ymd_ymd2ord (y m d : Z) :
  valid_date y m d = true -> ord2ymd (ymd2ord y m d) = (y, m, d).
Proof.
  intros Hv. pose proof (ymd2ord_range _ _ _ Hv) as Hr.
  pose proof (ord2ymd_ymd2ord_inv _ Hr) as H.
  destruct (ord2ymd (ymd2ord y m d)) as [[y2 m2] d2].
  destruct H as [Hv2 E].
  destruct (ymd2ord_inj _ _ _ _ _ _ Hv2 Hv E) as (-> & -> & ->). reflexivity.
Qed.

End CalendarFacts.

(** ** Facts about [datetime] *)

Module DatetimeFacts.
Import PyStr PyDatetime Notions CalendarFacts.

Lemma valid_spec (dt : datetime) :
  valid dt = true <->
  valid_date (year dt) (month dt) (day dt) = true
  /\ 0 <= hour dt <= 23 /\ 0 <= minute dt <= 59 /\ 0 <= second dt <= 59
  /\ 0 <= microsecond dt <= 999999.
Proof.
  unfold valid, valid_time, between.
  rewrite !andb_true_iff, !Z.leb_le. tauto.
Qed.

Lemma tod_range (dt : datetime) : valid dt = true -> 0 <= tod dt < 86400000000.
Proof. intros H. apply valid_spec in H. unfold tod. lia. Qed.

Lemma normalize (D h mi s us : Z) :
  0 <= h <= 23 -> 0 <= mi <= 59 -> 0 <= s <= 59 -> 0 <= us <= 999999 ->
  let total := (D * 86400 + s + 60 * mi + 3600 * h) * 1000000 + us in
  let rest := total mod 86400000000 in
  let secs := rest / 1000000 in
  total / 86400000000 = D
  /\ rest mod 1000000 = us
  /\ secs / 3600 = h /\ (secs mod 3600) / 60 = mi /\ (secs mod 3600) mod 60 = s.
Proof.
  intros Hh Hmi Hs Hus. cbv zeta.
  Z.to_euclidean_division_equations. lia.
Qed.

Lemma add_days (dt : datetime) (k : Z) :
  valid dt = true ->
  add dt (mk_timedelta k 0 0) =
  if (0 <? toordinal dt + k) && (toordinal dt + k <=? MAXORDINAL)
  then Ret (at_day (toordinal dt + k) dt)
  else Raise OverflowError.
Proof.
  intros Hv. apply valid_spec in Hv. destruct Hv as (_ & Hh & Hmi & Hs & Hus).
  unfold add, new_timedelta, US_PER_DAY, US_PER_SECOND.
  cbn [days seconds microseconds].
  change (86400 * 1000000) with 86400000000.
  replace ((toordinal dt + k + 7 * 0) * 86400 + (second dt + 0)
           + 60 * minute dt + 3600 * hour dt)
    with ((toordinal dt + k) * 86400 + second dt
          + 60 * minute dt + 3600 * hour dt) by lia.
  replace (microsecond dt + 0) with (microsecond dt) by lia.
  destruct (normalize (toordinal dt + k) _ _ _ _ Hh Hmi Hs Hus)
    as (E1 & E2 & E3 & E4 & E5).
  cbv zeta in *. rewrite E1.
  unfold MAXORDINAL.
  destruct (999999999 <? Z.abs (toordinal dt + k)) eqn:Hbig.
  - apply Z.ltb_lt in Hbig. cbn [bind].
    destruct ((0 <? toordinal dt + k) && (toordinal dt + k <=? 3652059))
      eqn:Hr; [|reflexivity].
    apply andb_true_iff in Hr. rewrite Z.ltb_lt, Z.leb_le in Hr. lia.
  - cbn [bind days seconds microseconds]. rewrite E2, E3, E4, E5.
    destruct ((0 <? toordinal dt + k) && (toordinal dt + k <=? 3652059));
      [|reflexivity].
    unfold at_day. destruct (ord2ymd (toordinal dt + k)) as [[y m] d].
    reflexivity.
Qed.

Lemma toordinal_at_day (n : Z) (dt : datetime) :
  1 <= n <= MAXORDINAL -> toordinal (at_day n dt) = n.
Proof.
  intros Hn. pose proof (ord2ymd_ymd2ord_inv n Hn) as H.
  unfold at_day, toordinal. destruct (ord2ymd n) as [[y m] d]. cbn. tauto.
Qed.

Lemma valid_at_day (n : Z) (dt : datetime) :
  1 <= n <= MAXORDINAL -> valid dt = true -> valid (at_day n dt) = true.
Proof.
  intros Hn Hv. pose proof (ord2ymd_ymd2ord_inv n Hn) as H.
  unfold at_day. destruct (ord2ymd n) as [[y m] d]. destruct H as [H _].
  unfold valid in *. cbn. rewrite H. apply andb_true_iff in Hv. tauto.
Qed.

Lemma tod_at_day (n : Z) (dt : datetime) : tod (at_day n dt) = tod dt.
Proof. unfold at_day. destruct (ord2ymd n) as [[y m] d]. reflexivity. Qed.

Lemma at_day_toordinal (dt : datetime) :
  valid dt = true -> at_day (toordinal dt) dt = dt.
Proof.
  intros Hv. apply valid_spec in Hv. destruct Hv as [Hd _].
  unfold at_day, toordinal. rewrite ord2ymd_ymd2ord by exact Hd.
  destruct dt; reflexivity.
Qed.

Lemma at_day_at_day (n k : Z) (dt : datetime) :
  at_day n (at_day k dt) = at_day n dt.
Proof.
  unfold at_day. destruct (ord2ymd k) as [[y m] d].
  destruct (ord2ymd n) as [[y2 m2] d2]. reflexivity.
Qed.

(** Comparing the fields is comparing the instants. *)
Lemma le_instant (a b : datetime) :
  valid a = true -> valid b = true -> le a b = (instant a <=? instant b).
Proof.
  intros Ha Hb.
  pose proof (tod_range a Ha) as Ta. pose proof (tod_range b Hb) as Tb.
  apply valid_spec in Ha, Hb.
  destruct Ha as (Hda & Ha), Hb as (Hdb & Hb).
  assert (Hdate : date_lt (year a) (month a) (day a)
                           (year b) (month b) (day b) ->
                   toordinal a < toordinal b)
    by (intros H; apply ymd2ord_lt; assumption).
  assert (Hdate' : date_lt (year b) (month b) (day b)
                            (year a) (month a) (day a) ->
                    toordinal b < toordinal a)
    by (intros H; apply ymd2ord_lt; assumption).
  unfold date_lt in *. unfold le, fields, cmp_tuple.
  assert (Heq : year a = year b -> month a = month b -> day a = day b ->
                toordinal a = toordinal b).
  { unfold toordinal. intros -> -> ->. reflexivity. }
  unfold instant, tod in *.
  symmetry.
  destruct (Z.compare_spec (year a) (year b));
    [|apply Z.leb_le; lia|apply Z.leb_gt; lia].
  destruct (Z.compare_spec (month a) (month b));
    [|apply Z.leb_le; lia|apply Z.leb_gt; lia].
  destruct (Z.compare_spec (day a) (day b));
    [|apply Z.leb_le; lia|apply Z.leb_gt; lia].
  destruct (Z.compare_spec (hour a) (hour b));
    [|apply Z.leb_le; lia|apply Z.leb_gt; lia].
  destruct (Z.compare_spec (minute a) (minute b));
    [|apply Z.leb_le; lia|apply Z.leb_gt; lia].
  destruct (Z.compare_spec (second a) (second b));
    [|apply Z.leb_le; lia|apply Z.leb_gt; lia].
  destruct (Z.compare_spec (microsecond a) (microsecond b));
    [|apply Z.leb_le; lia|apply Z.leb_gt; lia].
  apply Z.leb_le. lia.
Qed.

End DatetimeFacts.

(** ** date_utils.py *)

Module DateFacts.
Import PyStr PyDatetime DateUtils Notions PyStrFacts CalendarFacts
       DatetimeFacts.

(** *** Business days *)

Lemma timedelta_one_day : timedelta_days 1 = Ret (mk_timedelta 1 0 0).
Proof. reflexivity. Qed.

Lemma business_loop_spec (start_date end_date : datetime) (last : Z) :
  valid start_date = true -> valid end_date = true ->
  last = last_counted start_date end_date ->
  last < MAXORDINAL ->
  forall (n fuel : nat) (k acc : Z),
    0 <= k ->
    n = Z.to_nat (last + 1 - (toordinal start_date + k)) ->
    toordinal start_date + k <= last + 1 ->
    (n < fuel)%nat ->
    business_loop fuel (at_day (toordinal start_date + k) start_date)
                  end_date acc
    = Some (Ret (acc + count_business (toordinal start_date + k) n)).
Proof.
  intros Hs He Hlast Hmax.
  pose proof (tod_range _ Hs) as Ts. pose proof (tod_range _ He) as Te.
  pose proof (proj1 (valid_spec start_date) Hs) as Hvs.
  pose proof (ymd2ord_range _ _ _ (proj1 Hvs)) as Rs.
  fold (toordinal start_date) in Rs.
  pose proof (proj1 (valid_spec end_date) He) as Hve.
  pose proof (ymd2ord_range _ _ _ (proj1 Hve)) as Re.
  fold (toordinal end_date) in Re.
  assert (Hcmp : forall k, 0 <= k -> toordinal start_date + k <= MAXORDINAL ->
            le (at_day (toordinal start_date + k) start_date) end_date
            = (toordinal start_date + k <=? last)).
  { intros k Hk Hr.
    rewrite le_instant;
      [|apply valid_at_day; [lia|assumption]|assumption].
    unfold instant. rewrite toordinal_at_day, tod_at_day by lia.
    subst last. unfold last_counted.
    destruct (tod start_date <=? tod end_date) eqn:E.
    - apply Z.leb_le in E.
      destruct (toordinal start_date + k <=? toordinal end_date) eqn:E'.
      + apply Z.leb_le in E'. apply Z.leb_le. lia.
      + apply Z.leb_gt in E'. apply Z.leb_gt. lia.
    - apply Z.leb_gt in E.
      destruct (toordinal start_date + k <=? toordinal end_date - 1) eqn:E'.
      + apply Z.leb_le in E'. apply Z.leb_le. lia.
      + apply Z.leb_gt in E'. apply Z.leb_gt. lia. }
  induction n as [|n IH]; intros fuel k acc Hk Hn Hle Hfuel.
  - destruct fuel as [|fuel]; [lia|]. cbn [business_loop].
    rewrite Hcmp by lia.
    replace (toordinal start_date + k <=? last) with false
      by (symmetry; apply Z.leb_gt; lia).
    cbn [count_business]. f_equal. f_equal. lia.
  - destruct fuel as [|fuel]; [lia|]. cbn [business_loop].
    rewrite Hcmp by lia.
    replace (toordinal start_date + k <=? last) with true
      by (symmetry; apply Z.leb_le; lia).
    rewrite timedelta_one_day. cbn [bind].
    rewrite add_days by (apply valid_at_day; [lia|assumption]).
    rewrite toordinal_at_day by lia.
    replace ((0 <? toordinal start_date + k + 1)
             && (toordinal start_date + k + 1 <=? MAXORDINAL))
      with true
      by (symmetry; apply andb_true_iff; rewrite Z.ltb_lt, Z.leb_le; lia).
    rewrite at_day_at_day.
    replace (toordinal start_date + k + 1)
      with (toordinal start_date + (k + 1)) by lia.
    unfold weekday. rewrite toordinal_at_day by lia.
    rewrite IH by lia.
    cbn [count_business]. unfold is_business_day.
    replace (toordinal start_date + k + 1)
      with (toordinal start_date + (k + 1)) by lia.
    destruct ((toordinal start_date + k + 6) mod 7 <? 5); f_equal; f_equal; lia.
Qed.

(** The loop test, on the day [k] days after [start_date]. *)
Lemma le_at_day (start_date end_date : datetime) (k : Z) :
  valid start_date = true -> valid end_date = true ->
  0 <= k -> toordinal start_date + k <= MAXORDINAL ->
  le (at_day (toordinal start_date + k) start_date) end_date
  = (toordinal start_date + k <=? last_counted start_date end_date).
Proof.
  intros Hs He Hk Hr.
  pose proof (tod_range _ Hs) as Ts. pose proof (tod_range _ He) as Te.
  pose proof (proj1 (valid_spec start_date) Hs) as Hvs.
  pose proof (ymd2ord_range _ _ _ (proj1 Hvs)) as Rs.
  fold (toordinal start_date) in Rs.
  rewrite le_instant;
    [|apply valid_at_day; [lia|assumption]|assumption].
  unfold instant. rewrite toordinal_at_day, tod_at_day by lia.
  unfold last_counted.
  destruct (tod start_date <=? tod end_date) eqn:E.
  - apply Z.leb_le in E.
    destruct (toordinal start_date + k <=? toordinal end_date) eqn:E'.
    + apply Z.leb_le in E'. apply Z.leb_le. lia.
    + apply Z.leb_gt in E'. apply Z.leb_gt. lia.
  - apply Z.leb_gt in E.
    destruct (toordinal start_date + k <=? toordinal end_date - 1) eqn:E'.
    + apply Z.leb_le in E'. apply Z.leb_le. lia.
    + apply Z.leb_gt in E'. apply Z.leb_gt. lia.
Qed.

(** When the last day to count is 31 December 9999, the loop reaches it
    and the step to the day after raises. *)
Lemma business_loop_overflow (start_date end_date : datetime) :
  valid start_date = true -> valid end_date = true ->
  last_counted start_date end_date = MAXORDINAL ->
  forall (n fuel : nat) (k acc : Z),
    0 <= k ->
    n = Z.to_nat (MAXORDINAL - (toordinal start_date + k)) ->
    toordinal start_date + k <= MAXORDINAL ->
    (n < fuel)%nat ->
    business_loop fuel (at_day (toordinal start_date + k) start_date)
                  end_date acc
    = Some (Raise OverflowError).
Proof.
  intros Hs He Hlast.
  pose proof (proj1 (valid_spec start_date) Hs) as Hvs.
  pose proof (ymd2ord_range _ _ _ (proj1 Hvs)) as Rs.
  fold (toordinal start_date) in Rs.
  induction n as [|n IH]; intros fuel k acc Hk Hn Hle Hfuel;
    (destruct fuel as [|fuel]; [lia|]); cbn [business_loop];
    rewrite le_at_day by assumption; rewrite Hlast;
    (replace (toordinal start_date + k <=? MAXORDINAL) with true
       by (symmetry; apply Z.leb_le; lia));
    rewrite timedelta_one_day; cbn [bind];
    rewrite add_days by (apply valid_at_day; [lia|assumption]);
    rewrite toordinal_at_day by lia.
  - replace ((0 <? toordinal start_date + k + 1)
             && (toordinal start_date + k + 1 <=? MAXORDINAL))
      with false
      by (symmetry; apply andb_false_iff; right; apply Z.leb_gt; lia).
    reflexivity.
  - replace ((0 <? toordinal start_date + k + 1)
             && (toordinal start_date + k + 1 <=? MAXORDINAL))
      with true
      by (symmetry; apply andb_true_iff; rewrite Z.ltb_lt, Z.leb_le; lia).
    rewrite at_day_at_day.
    replace (toordinal start_date + k + 1)
      with (toordinal start_date + (k + 1)) by lia.
    apply IH; lia.
Qed.

(** C4, as the code has it.  For any two valid datetimes (naive ones,
    without a time zone), [calculate_business_days] counts the
    Monday-to-Friday calendar days from the date of [start_date] to the
    last day the loop reaches: that is the date of [end_date] when the
    time of day of [start_date] is not later than that of [end_date], but
    the day before it otherwise, so that the end date is then left out of
    the inclusive count.  When the last day to count is 31 December 9999,
    the step past it raises [OverflowError]. *)
Theorem C4_calculate_business_days (start_date end_date : datetime) :
  valid start_date = true -> valid end_date = true ->
  calculate_business_days start_date end_date
  = Some (if last_counted start_date end_date <? MAXORDINAL
          then Ret (business_days_between
                      (toordinal start_date)
                      (last_counted start_date end_date))
          else Raise OverflowError).
Proof.
  intros Hs He.
  pose proof (tod_range _ Hs) as Ts. pose proof (tod_range _ He) as Te.
  pose proof (proj1 (valid_spec start_date) Hs) as Hvs.
  pose proof (ymd2ord_range _ _ _ (proj1 Hvs)) as Rs.
  fold (toordinal start_date) in Rs.
  pose proof (proj1 (valid_spec end_date) He) as Hve.
  pose proof (ymd2ord_range _ _ _ (proj1 Hve)) as Re.
  fold (toordinal end_date) in Re.
  unfold calculate_business_days, business_days_between.
  assert (Hlast : toordinal end_date - 1
                  <= last_counted start_date end_date <= toordinal end_date).
  { unfold last_counted. destruct (_ <=? _); lia. }
  assert (Hstart : business_loop (loop_bound start_date end_date)
                                 start_date end_date 0
                   = business_loop (loop_bound start_date end_date)
                       (at_day (toordinal start_date + 0) start_date)
                       end_date 0).
  { rewrite Z.add_0_r, at_day_toordinal by exact Hs. reflexivity. }
  destruct (last_counted start_date end_date <? MAXORDINAL) eqn:Hmax.
  - apply Z.ltb_lt in Hmax.
    set (last := last_counted start_date end_date) in *.
    set (S0 := toordinal start_date) in *.
    destruct (Z_le_gt_dec S0 (last + 1)) as [Hle|Hgt].
    + rewrite Hstart. unfold S0.
      rewrite (business_loop_spec start_date end_date last Hs He eq_refl
                 Hmax (Z.to_nat (last - S0 + 1))
                 (loop_bound start_date end_date) 0 0).
      * rewrite Z.add_0_r. reflexivity.
      * lia.
      * fold S0. f_equal. lia.
      * fold S0. lia.
      * unfold loop_bound. fold S0. lia.
    + replace (Z.to_nat (last - S0 + 1)) with O by lia.
      unfold loop_bound. cbn [business_loop count_business].
      rewrite le_instant by assumption.
      replace (instant start_date <=? instant end_date) with false;
        [reflexivity|].
      symmetry. apply Z.leb_gt. unfold instant. fold S0.
      unfold last, last_counted in Hgt.
      destruct (tod start_date <=? tod end_date) eqn:E.
      * lia.
      * apply Z.leb_gt in E. lia.
  - apply Z.ltb_ge in Hmax. rewrite Hstart.
    apply (business_loop_overflow start_date end_date Hs He ltac:(lia)
             (Z.to_nat (MAXORDINAL - (toordinal start_date + 0)))).
    + lia.
    + reflexivity.
    + lia.
    + unfold loop_bound. lia.
Qed.

Lemma C4_calculate_business_days_witness :
  calculate_business_days (mk_datetime 2024 1 1 9 0 0 0)
                          (mk_datetime 2024 1 14 18 30 0 0)
  = Some (Ret 10)
  /\ calculate_business_days (mk_datetime 9999 12 30 9 0 0 0)
                             (mk_datetime 9999 12 31 18 30 0 0)
     = Some (Raise OverflowError).
Proof.
  split.
  - exact (C4_calculate_business_days (mk_datetime 2024 1 1 9 0 0 0)
             (mk_datetime 2024 1 14 18 30 0 0) eq_refl eq_refl).
  - exact (C4_calculate_business_days (mk_datetime 9999 12 30 9 0 0 0)
             (mk_datetime 9999 12 31 18 30 0 0) eq_refl eq_refl).
Defined.

(** The count falls short of the inclusive one: from Monday 1 January
    2024 at noon to Tuesday 2 January 2024 at 8:00 the two calendar days
    are business days, and the function counts one. *)
Lemma C4_time_of_day_counterexample :
  let start_date := mk_datetime 2024 1 1 12 0 0 0 in
  let end_date := mk_datetime 2024 1 2 8 0 0 0 in
  le start_date end_date = true
  /\ calculate_business_days start_date end_date = Some (Ret 1)
  /\ business_days_between (toordinal start_date) (toordinal end_date) = 2
  /\ calculate_business_days start_date end_date
     <> Some (Ret (business_days_between (toordinal start_date)
                                         (toordinal end_date))).
Proof.
  cbv zeta. repeat split; vm_compute; (reflexivity || discriminate).
Qed.

(** *** Date ranges *)

Lemma new_valid (y m d h mi s us : Z) :
  valid (mk_datetime y m d h mi s us) = true ->
  new y m d h mi s us = Ret (mk_datetime y m d h mi s us).
Proof. unfold new, valid. cbn. intros ->. reflexivity. Qed.

Lemma first_of_month_valid (y m : Z) :
  1 <= y <= 9999 -> 1 <= m <= 12 -> valid_date y m 1 = true.
Proof.
  intros Hy Hm. apply valid_date_spec. rewrite days_in_month_flag.
  pose proof (month_table (is_leap y) m Hm). lia.
Qed.

Lemma last_of_month_valid (y m : Z) :
  1 <= y <= 9999 -> 1 <= m <= 12 -> valid_date y m (days_in_month y m) = true.
Proof.
  intros Hy Hm. apply valid_date_spec. rewrite days_in_month_flag.
  pose proof (month_table (is_leap y) m Hm). lia.
Qed.

(** The day before the first of the next month is the last of the month. *)
Lemma before_next_month (y m : Z) :
  1 <= m <= 12 ->
  (if m <? 12 then ymd2ord y (m + 1) 1 else ymd2ord (y + 1) 1 1) - 1
  = ymd2ord y m (days_in_month y m).
Proof.
  intros Hm. unfold ymd2ord.
  rewrite !days_before_month_flag, days_in_month_flag.
  pose proof (month_table (is_leap y) m Hm) as (_ & _ & Hsum).
  destruct (m <? 12) eqn:E.
  - apply Z.ltb_lt in E.
    replace (m =? 12) with false in Hsum by (symmetry; apply Z.eqb_neq; lia).
    lia.
  - apply Z.ltb_ge in E.
    replace (m =? 12) with true in Hsum by (symmetry; apply Z.eqb_eq; lia).
    rewrite days_before_year_succ.
    change (month_start (is_leap (y + 1)) 1) with 0. lia.
Qed.

Lemma sub_one_microsecond (y m d : Z) :
  valid_date y m d = true -> 1 < ymd2ord y m d ->
  sub (mk_datetime y m d 0 0 0 0) (mk_timedelta 0 0 1)
  = let '(y', m', d') := ord2ymd (ymd2ord y m d - 1) in
    Ret (mk_datetime y' m' d' 23 59 59 999999).
Proof.
  intros Hv Hord. pose proof (ymd2ord_range _ _ _ Hv) as Hr.
  unfold MAXORDINAL in Hr.
  unfold sub.
  change (neg_timedelta (mk_timedelta 0 0 1))
    with (Ret (mk_timedelta (-1) 86399 999999)).
  cbn [bind]. unfold add, new_timedelta, US_PER_DAY, US_PER_SECOND, toordinal.
  cbn [year month day hour minute second microsecond days seconds microseconds].
  change (86400 * 1000000) with 86400000000.
  set (D := ymd2ord y m d) in *.
  replace (((D + -1 + 7 * 0) * 86400 + (0 + 86399) + 60 * 0 + 3600 * 0)
           * 1000000 + (0 + 999999))
    with (((D - 1) * 86400 + 59 + 60 * 59 + 3600 * 23) * 1000000 + 999999)
    by lia.
  destruct (normalize (D - 1) 23 59 59 999999
              ltac:(lia) ltac:(lia) ltac:(lia) ltac:(lia))
    as (E1 & E2 & E3 & E4 & E5).
  cbv zeta in *. rewrite E1.
  replace (999999999 <? Z.abs (D - 1)) with false
    by (symmetry; apply Z.ltb_ge; lia).
  cbn [bind days seconds microseconds]. rewrite E2, E3, E4, E5.
  unfold MAXORDINAL.
  replace ((0 <? D - 1) && (D - 1 <=? 3652059)) with true
    by (symmetry; apply andb_true_iff; rewrite Z.ltb_lt, Z.leb_le; lia).
  destruct (ord2ymd (D - 1)) as [[y' m'] d']. reflexivity.
Qed.

(** C5, on the code.  For every valid reference date,
    [get_date_range("month", ref)] returns the first day of the month of
    [ref] at 00:00:00.000000 and its last day at 23:59:59.999999, leap
    years and the turn of the year included, except in December 9999,
    where the first of the next month is out of range and the call raises
    [ValueError]. *)
Theorem C5_get_date_range_month (now ref : datetime) :
  valid ref = true ->
  get_date_range now (lit "month") (Some ref) =
  if (year ref =? 9999) && (month ref =? 12) then Raise ValueError
  else
    Ret (mk_datetime (year ref) (month ref) 1 0 0 0 0,
         mk_datetime (year ref) (month ref)
                     (days_in_month (year ref) (month ref)) 23 59 59 999999).
Proof.
  intros Hv. apply valid_spec in Hv. destruct Hv as (Hd & _).
  apply valid_date_spec in Hd. destruct Hd as (Hy & Hm & _).
  destruct ref as [y m d h mi s us]. cbn [year month day] in *.
  unfold get_date_range.
  change (eqb_str (lit "month") (lit "today")) with false.
  change (eqb_str (lit "month") (lit "week")) with false.
  change (eqb_str (lit "month") (lit "month")) with true.
  cbv iota.
  unfold replace. cbn [default year month day hour minute second microsecond].
  rewrite new_valid
    by (unfold valid; cbn; rewrite first_of_month_valid by lia;
        reflexivity).
  cbn [bind month year day].
  destruct (m <? 12) eqn:E12.
  - apply Z.ltb_lt in E12.
    replace ((y =? 9999) && (m =? 12)) with false
      by (symmetry; apply andb_false_iff; right; apply Z.eqb_neq; lia).
    rewrite new_valid
      by (unfold valid; cbn; rewrite first_of_month_valid by lia;
          reflexivity).
    cbn [bind].
    pose proof (before_next_month y m Hm) as Hb.
    replace (m <? 12) with true in Hb by (symmetry; apply Z.ltb_lt; lia).
    pose proof (last_of_month_valid y m Hy Hm) as Hl.
    pose proof (ymd2ord_range _ _ _ Hl).
    change (timedelta_microseconds 1) with (Ret (mk_timedelta 0 0 1)).
    cbn [bind].
    rewrite sub_one_microsecond; [|apply first_of_month_valid; lia|lia].
    rewrite Hb, ord2ymd_ymd2ord by exact Hl. reflexivity.
  - apply Z.ltb_ge in E12. assert (m = 12) by lia. subst m.
    destruct (y =? 9999) eqn:E9.
    + apply Z.eqb_eq in E9. subst y. reflexivity.
    + apply Z.eqb_neq in E9. cbn [andb].
      rewrite new_valid
        by (unfold valid; cbn; rewrite first_of_month_valid by lia;
            reflexivity).
      cbn [bind].
      pose proof (before_next_month y 12 Hm) as Hb.
      change (12 <? 12) with false in Hb. cbv iota in Hb.
      pose proof (last_of_month_valid y 12 Hy Hm) as Hl.
      pose proof (ymd2ord_range _ _ _ Hl).
      change (timedelta_microseconds 1) with (Ret (mk_timedelta 0 0 1)).
    cbn [bind].
    rewrite sub_one_microsecond; [|apply first_of_month_valid; lia|lia].
      rewrite Hb, ord2ymd_ymd2ord by exact Hl. reflexivity.
Qed.

Lemma C5_get_date_range_month_witness :
  get_date_range (mk_datetime 2024 2 15 10 30 0 0) (lit "month")
                 (Some (mk_datetime 2024 2 15 10 30 0 0))
  = Ret (mk_datetime 2024 2 1 0 0 0 0, mk_datetime 2024 2 29 23 59 59 999999).
Proof.
  exact (C5_get_date_range_month (mk_datetime 2024 2 15 10 30 0 0)
                                 (mk_datetime 2024 2 15 10 30 0 0) eq_refl).
Defined.

Lemma get_date_range_month_examples (now : datetime) :
  get_date_range now (lit "month") (Some (mk_datetime 2023 12 15 10 30 0 5))
  = Ret (mk_datetime 2023 12 1 0 0 0 0,
         mk_datetime 2023 12 31 23 59 59 999999)
  /\ get_date_range now (lit "month") (Some (mk_datetime 1900 2 28 0 0 0 0))
     = Ret (mk_datetime 1900 2 1 0 0 0 0,
            mk_datetime 1900 2 28 23 59 59 999999)
  /\ get_date_range now (lit "month") (Some (mk_datetime 9999 12 15 10 30 0 0))
     = Raise ValueError.
Proof. repeat split; vm_compute; reflexivity. Qed.

(** *** Natural-language dates *)

Lemma startswith_iff (s p : str) :
  startswith s p = true <-> exists r, s = p ++ r.
Proof.
  revert s. induction p as [|a p IH]; intros s.
  - destruct s; simpl; split; eauto.
  - destruct s as [|b s]; simpl.
    + split; [discriminate|]. intros [r H]. discriminate.
    + destruct (ascii_dec a b) as [->|Hne].
      * rewrite IH. split; intros [r H]; exists r; [subst|injection H]; auto.
      * split; [discriminate|]. intros [r H]. injection H as H _. congruence.
Qed.

Lemma contains_iff (sub s : str) :
  contains sub s = true <-> exists a b, s = a ++ sub ++ b.
Proof.
  induction s as [|c s IH].
  - cbn [contains]. rewrite orb_false_r, startswith_iff. split.
    + intros [r H]. exists [], r. exact H.
    + intros (a & b & H). destruct a; [|discriminate]. exists b. exact H.
  - cbn [contains]. rewrite orb_true_iff, startswith_iff, IH. split.
    + intros [[r H]|(a & b & H)].
      * exists [], r. exact H.
      * exists (c :: a), b. rewrite H. reflexivity.
    + intros (a & b & H). destruct a as [|c' a].
      * left. exists b. exact H.
      * right. injection H as _ H. exists a, b. exact H.
Qed.

Lemma contains_within (inner outer s : str) :
  contains inner outer = true -> contains outer s = true ->
  contains inner s = true.
Proof.
  rewrite !contains_iff. intros (a & b & ->) (a' & b' & ->).
  exists (a' ++ a), (b ++ b'). rewrite <- !app_assoc. reflexivity.
Qed.

Lemma neg_days (k : Z) :
  -999999999 <= k <= 999999999 ->
  neg_timedelta (mk_timedelta k 0 0) = Ret (mk_timedelta (- k) 0 0).
Proof.
  intros Hk. unfold neg_timedelta, new_timedelta, US_PER_DAY, US_PER_SECOND.
  cbn [days seconds microseconds].
  change (86400 * 1000000) with 86400000000.
  replace (((- k + 7 * 0) * 86400 + - 0 + 60 * 0 + 3600 * 0) * 1000000 + - 0)
    with ((- k) * 86400000000) by lia.
  rewrite Z.div_mul, Z.mod_mul by lia.
  replace (999999999 <? Z.abs (- k)) with false
    by (symmetry; apply Z.ltb_ge; lia).
  reflexivity.
Qed.

Section Parse.

Variable dateutil_parse : str -> result datetime.
Variable now : datetime.


Lemma plus_days_toordinal (dt : datetime) (k : Z) :
  1 <= toordinal dt + k <= MAXORDINAL ->
  toordinal (plus_days dt k) = toordinal dt + k.
Proof. apply toordinal_at_day. Qed.


Lemma add_plus_days (ref : datetime) (k : Z) :
  valid ref = true -> 1 <= toordinal ref + k <= MAXORDINAL ->
  add ref (mk_timedelta k 0 0) = Ret (plus_days ref k).
Proof.
  intros Hv Hr. rewrite add_days by exact Hv.
  replace ((0 <? toordinal ref + k) && (toordinal ref + k <=? MAXORDINAL))
    with true
    by (symmetry; apply andb_true_iff; rewrite Z.ltb_lt, Z.leb_le; lia).
  unfold plus_days. reflexivity.
Qed.

Lemma sub_plus_days (ref : datetime) (k : Z) :
  valid ref = true -> -999999999 <= k <= 999999999 ->
  1 <= toordinal ref - k <= MAXORDINAL ->
  sub ref (mk_timedelta k 0 0) = Ret (plus_days ref (- k)).
Proof.
  intros Hv Hk Hr. unfold sub. rewrite neg_days by exact Hk. cbn [bind].
  apply add_plus_days; [exact Hv|lia].
Qed.

Lemma parse_natural_date_phrase (text : str) (ref d : datetime) :
  valid ref = true ->
  3 <= toordinal ref <= MAXORDINAL - 2 ->
  first_match (relative_patterns ref) (strip (lower text)) = Some d ->
  parse_natural_date dateutil_parse now text (Some ref) = Ret d.
Proof.
  intros Hv Hr Hfirst. unfold MAXORDINAL in Hr.
  unfold parse_natural_date.
  change (timedelta_days 1) with (Ret (mk_timedelta 1 0 0)).
  change (timedelta_days 2) with (Ret (mk_timedelta 2 0 0)).
  cbn [bind].
  rewrite (sub_plus_days ref 1), (sub_plus_days ref 2),
    (add_plus_days ref 1), (add_plus_days ref 2)
    by (try exact Hv; unfold MAXORDINAL; lia).
  cbn [bind]. change (- (1)) with (-1). change (- (2)) with (-2).
  fold (relative_patterns ref). rewrite Hfirst. reflexivity.
Qed.

Lemma plus_days_neq (ref : datetime) (j k : Z) :
  1 <= toordinal ref + j <= MAXORDINAL ->
  1 <= toordinal ref + k <= MAXORDINAL ->
  j <> k -> plus_days ref j <> plus_days ref k.
Proof.
  intros Hj Hk Hne E. apply (f_equal toordinal) in E.
  rewrite !plus_days_toordinal in E by assumption. lia.
Qed.

(** C2, on the code.  For a valid reference date at least two days inside
    the supported range, ["day after tomorrow"] is answered with the
    reference plus one day and ["day before yesterday"] with the reference
    minus one day: the entries ["tomorrow"] and ["yesterday"] come first in
    the dictionary and occur in the longer phrases.  Neither answer is the
    reference moved by two days. *)
Theorem C2_later_phrases_shadowed (ref : datetime) :
  valid ref = true ->
  3 <= toordinal ref <= MAXORDINAL - 2 ->
  add ref (mk_timedelta 2 0 0) = Ret (plus_days ref 2)
  /\ sub ref (mk_timedelta 2 0 0) = Ret (plus_days ref (-2))
  /\ parse_natural_date dateutil_parse now (lit "day after tomorrow")
                        (Some ref)
     = Ret (plus_days ref 1)
  /\ parse_natural_date dateutil_parse now (lit "day before yesterday")
                        (Some ref)
     = Ret (plus_days ref (-1))
  /\ plus_days ref 1 <> plus_days ref 2
  /\ plus_days ref (-1) <> plus_days ref (-2).
Proof.
  intros Hv Hr.
  split; [apply add_plus_days; [exact Hv|lia]|].
  split; [apply (sub_plus_days ref 2); [exact Hv|lia|lia]|].
  split; [apply parse_natural_date_phrase; [exact Hv|exact Hr|reflexivity]|].
  split; [apply parse_natural_date_phrase; [exact Hv|exact Hr|reflexivity]|].
  split; apply plus_days_neq; lia.
Qed.

(** Whatever the text, the last two entries are never the ones found. *)
Lemma first_match_shadowed (text : str) (ref d : datetime) :
  first_match (relative_patterns ref) text = Some d ->
  d = ref \/ d = plus_days ref (-1) \/ d = plus_days ref 1.
Proof.
  unfold relative_patterns. cbn [first_match].
  destruct (contains (lit "today") text);
    [intros H; injection H; auto|].
  destruct (contains (lit "yesterday") text) eqn:Ey;
    [intros H; injection H; auto|].
  destruct (contains (lit "tomorrow") text) eqn:Et;
    [intros H; injection H; auto|].
  destruct (contains (lit "day before yesterday") text) eqn:E1.
  { rewrite (contains_within (lit "yesterday")
                             (lit "day before yesterday") text) in Ey;
      [discriminate|reflexivity|exact E1]. }
  destruct (contains (lit "day after tomorrow") text) eqn:E2.
  { rewrite (contains_within (lit "tomorrow")
                             (lit "day after tomorrow") text) in Et;
      [discriminate|reflexivity|exact E2]. }
  discriminate.
Qed.
End Parse.

Lemma C2_later_phrases_shadowed_witness :
  let ref := mk_datetime 2024 2 15 10 30 0 0 in
  let parse := parse_natural_date (fun _ => Raise ValueError) ref in
  add ref (mk_timedelta 2 0 0) = Ret (plus_days ref 2)
  /\ sub ref (mk_timedelta 2 0 0) = Ret (plus_days ref (-2))
  /\ parse (lit "day after tomorrow") (Some ref) = Ret (plus_days ref 1)
  /\ parse (lit "day before yesterday") (Some ref) = Ret (plus_days ref (-1))
  /\ plus_days ref 1 <> plus_days ref 2
  /\ plus_days ref (-1) <> plus_days ref (-2).
Proof.
  apply (C2_later_phrases_shadowed (fun _ => Raise ValueError)
           (mk_datetime 2024 2 15 10 30 0 0)
           (mk_datetime 2024 2 15 10 30 0 0)).
  - reflexivity.
  - split; vm_compute; discriminate.
Defined.

Lemma parse_natural_date_examples :
  let ref := mk_datetime 2024 2 15 10 30 0 0 in
  let parse := parse_natural_date (fun _ => Raise ValueError) ref in
  parse (lit "day after tomorrow") (Some ref)
  = Ret (mk_datetime 2024 2 16 10 30 0 0)
  /\ parse (lit "day before yesterday") (Some ref)
     = Ret (mk_datetime 2024 2 14 10 30 0 0)
  /\ parse (lit "Tomorrow") (Some ref) = Ret (mk_datetime 2024 2 16 10 30 0 0)
  /\ parse (lit "last 2 weeks") (Some ref)
     = Ret (mk_datetime 2024 2 1 10 30 0 0)
  /\ parse (lit "next 12 months") (Some ref)
     = Ret (mk_datetime 2025 2 9 10 30 0 0)
  /\ parse (lit "no date here") (Some ref) = Ret ref.
Proof. cbv zeta. repeat split; vm_compute; reflexivity. Qed.

(** *** Days, weeks and years *)

Lemma timedelta_days_small (n : Z) :
  -999999999 <= n <= 999999999 ->
  timedelta_days n = Ret (mk_timedelta n 0 0).
Proof.
  intros Hn. unfold timedelta_days, new_timedelta, US_PER_DAY, US_PER_SECOND.
  change (86400 * 1000000) with 86400000000.
  replace (((n + 7 * 0) * 86400 + 0 + 60 * 0 + 3600 * 0) * 1000000 + 0)
    with (n * 86400000000) by lia.
  rewrite Z.div_mul, Z.mod_mul by lia.
  replace (999999999 <? Z.abs n) with false
    by (symmetry; apply Z.ltb_ge; lia).
  reflexivity.
Qed.

Lemma weekday_range (dt : datetime) : 0 <= weekday dt <= 6.
Proof.
  unfold weekday. pose proof (Z.mod_pos_bound (toordinal dt + 6) 7). lia.
Qed.

Lemma toordinal_range (dt : datetime) :
  valid dt = true -> 1 <= toordinal dt <= MAXORDINAL.
Proof.
  intros H. apply valid_spec in H. apply ymd2ord_range. tauto.
Qed.

(** The Monday of a week is a day of the calendar, and a Monday. *)
Lemma monday_of_spec (dt : datetime) :
  valid dt = true ->
  1 <= monday_of dt <= toordinal dt /\ (monday_of dt + 6) mod 7 = 0
  /\ toordinal dt <= monday_of dt + 6.
Proof.
  intros H. pose proof (toordinal_range dt H) as Hr.
  unfold monday_of, weekday. unfold MAXORDINAL in Hr.
  Z.to_euclidean_division_equations. lia.
Qed.

Lemma day_start_spec (n : Z) :
  1 <= n <= MAXORDINAL ->
  valid (day_start n) = true /\ toordinal (day_start n) = n
  /\ tod (day_start n) = 0.
Proof.
  intros Hn. pose proof (ord2ymd_ymd2ord_inv n Hn) as H.
  unfold day_start, valid, toordinal, tod.
  destruct (ord2ymd n) as [[y m] d]. destruct H as [H1 H2]. cbn.
  rewrite H1. auto.
Qed.

Lemma day_end_spec (n : Z) :
  1 <= n <= MAXORDINAL ->
  valid (day_end n) = true /\ toordinal (day_end n) = n
  /\ tod (day_end n) = 86399999999.
Proof.
  intros Hn. pose proof (ord2ymd_ymd2ord_inv n Hn) as H.
  unfold day_end, valid, toordinal, tod.
  destruct (ord2ymd n) as [[y m] d]. destruct H as [H1 H2]. cbn.
  rewrite H1. auto.
Qed.

(** Six days, 23:59:59.999999 after a midnight. *)
Lemma add_week_span (n : Z) :
  1 <= n <= MAXORDINAL ->
  add (day_start n) (mk_timedelta 6 86399 999999)
  = if n + 6 <=? MAXORDINAL then Ret (day_end (n + 6))
    else Raise OverflowError.
Proof.
  intros Hn. destruct (day_start_spec n Hn) as (_ & Hord & _).
  unfold add, new_timedelta, US_PER_DAY, US_PER_SECOND. rewrite Hord.
  unfold day_start in *. destruct (ord2ymd n) as [[y m] d].
  cbn [days seconds microseconds hour minute second microsecond].
  change (86400 * 1000000) with 86400000000.
  replace (((n + 6 + 7 * 0) * 86400 + (0 + 86399) + 60 * 0 + 3600 * 0)
           * 1000000 + (0 + 999999))
    with (((n + 6) * 86400 + 59 + 60 * 59 + 3600 * 23) * 1000000 + 999999)
    by lia.
  destruct (normalize (n + 6) 23 59 59 999999
              ltac:(lia) ltac:(lia) ltac:(lia) ltac:(lia))
    as (E1 & E2 & E3 & E4 & E5).
  cbv zeta in *. rewrite E1. unfold MAXORDINAL in *.
  replace (999999999 <? Z.abs (n + 6)) with false
    by (symmetry; apply Z.ltb_ge; lia).
  cbn [bind days seconds microseconds]. rewrite E2, E3, E4, E5.
  replace (0 <? n + 6) with true by (symmetry; apply Z.ltb_lt; lia).
  cbn [andb]. destruct (n + 6 <=? 3652059); [|reflexivity].
  unfold day_end. destruct (ord2ymd (n + 6)) as [[y' m'] d']. reflexivity.
Qed.

Lemma week_from_spec (n : Z) (dt : datetime) :
  1 <= n <= MAXORDINAL -> valid dt = true ->
  week_from (at_day n dt)
  = if n + 6 <=? MAXORDINAL then Ret (day_start n, day_end (n + 6))
    else Raise OverflowError.
Proof.
  intros Hn Hv. destruct (day_start_spec n Hn) as (Hvs & _).
  unfold week_from.
  assert (replace (at_day n dt) None None None
                  (Some 0) (Some 0) (Some 0) (Some 0)
          = Ret (day_start n)) as ->.
  { unfold replace, at_day, day_start in *.
    destruct (ord2ymd n) as [[y m] d].
    cbn [default year month day hour minute second microsecond].
    apply new_valid. exact Hvs. }
  cbn [bind].
  change (new_timedelta 6 59 999999 59 23 0)
    with (Ret (mk_timedelta 6 86399 999999)).
  cbn [bind]. rewrite add_week_span by exact Hn.
  destruct (n + 6 <=? MAXORDINAL); reflexivity.
Qed.

Lemma sub_days (dt : datetime) (k : Z) :
  valid dt = true -> -999999999 <= k <= 999999999 ->
  sub dt (mk_timedelta k 0 0)
  = if (0 <? toordinal dt - k) && (toordinal dt - k <=? MAXORDINAL)
    then Ret (at_day (toordinal dt - k) dt)
    else Raise OverflowError.
Proof.
  intros Hv Hk. unfold sub. rewrite neg_days by exact Hk. cbn [bind].
  rewrite add_days by exact Hv.
  replace (toordinal dt + - k) with (toordinal dt - k) by lia.
  reflexivity.
Qed.

Lemma period_is (a b : string) :
  eqb_str (lit a) (lit b) = if string_dec a b then true else false.
Proof.
  unfold eqb_str, lit.
  destruct (list_eq_dec ascii_dec (list_ascii_of_string a)
              (list_ascii_of_string b)) as [E|N];
    destruct (string_dec a b) as [E'|N']; try reflexivity.
  - exfalso. apply N'.
    rewrite <- (string_of_list_ascii_of_string a),
            <- (string_of_list_ascii_of_string b), E. reflexivity.
  - exfalso. apply N. rewrite E'. reflexivity.
Qed.

Lemma le_by_instant (a b : datetime) :
  valid a = true -> valid b = true -> instant a <= instant b ->
  le a b = true.
Proof.
  intros Ha Hb H. rewrite le_instant by assumption. apply Z.leb_le, H.
Qed.

(** X20.  The range of the week.  For a valid reference date, the period
    [week] starts on the Monday of its week at midnight and ends on the
    Sunday at 23:59:59.999999, and the reference date lies in it; when
    that Sunday is after 31 December 9999 the call raises
    [OverflowError]. *)
Theorem get_date_range_week (now ref : datetime) :
  valid ref = true ->
  let monday := monday_of ref in
  (monday + 6) mod 7 = 0
  /\ get_date_range now (lit "week") (Some ref)
     = (if monday + 6 <=? MAXORDINAL
        then Ret (day_start monday, day_end (monday + 6))
        else Raise OverflowError)
  /\ (monday + 6 <= MAXORDINAL ->
      le (day_start monday) ref = true
      /\ le ref (day_end (monday + 6)) = true).
Proof.
  intros Hv monday. subst monday.
  destruct (monday_of_spec ref Hv) as (Hm1 & Hm2 & Hm3).
  pose proof (toordinal_range ref Hv) as Hr.
  pose proof (weekday_range ref) as Hw.
  split; [exact Hm2|]. split.
  - unfold get_date_range. rewrite !period_is. cbn [string_dec].
    change (if string_dec "week" "today" then true else false) with false.
    change (if string_dec "week" "week" then true else false) with true.
    cbv iota.
    rewrite timedelta_days_small by lia. cbn [bind].
    rewrite sub_days by (exact Hv || lia).
    fold (monday_of ref).
    replace ((0 <? monday_of ref) && (monday_of ref <=? MAXORDINAL))
      with true
      by (symmetry; apply andb_true_iff; rewrite Z.ltb_lt, Z.leb_le; lia).
    cbn [bind]. apply week_from_spec; [lia|exact Hv].
  - intros Hmax.
    destruct (day_start_spec (monday_of ref) ltac:(lia)) as (S1 & S2 & S3).
    destruct (day_end_spec (monday_of ref + 6) ltac:(lia)) as (E1 & E2 & E3).
    pose proof (tod_range ref Hv).
    split; apply le_by_instant; try assumption; unfold instant;
      rewrite ?S2, ?S3, ?E2, ?E3; lia.
Qed.

Lemma get_date_range_week_witness :
  let monday := monday_of (mk_datetime 2024 2 15 10 30 0 0) in
  (monday + 6) mod 7 = 0
  /\ get_date_range (mk_datetime 2024 1 1 0 0 0 0) (lit "week")
       (Some (mk_datetime 2024 2 15 10 30 0 0))
     = (if monday + 6 <=? MAXORDINAL
        then Ret (day_start monday, day_end (monday + 6))
        else Raise OverflowError)
  /\ (monday + 6 <= MAXORDINAL ->
      le (day_start monday) (mk_datetime 2024 2 15 10 30 0 0) = true
      /\ le (mk_datetime 2024 2 15 10 30 0 0) (day_end (monday + 6)) = true).
Proof.
  apply (get_date_range_week (mk_datetime 2024 1 1 0 0 0 0)
           (mk_datetime 2024 2 15 10 30 0 0)).
  reflexivity.
Defined.

(** X21.  The range of the week before.  For a valid reference date, the
    period [last_week] is the week from the Monday before the Monday of
    its week to the Sunday after that; in the first week of the year 1,
    which has no week before it, the call raises [OverflowError]. *)
Theorem get_date_range_last_week (now ref : datetime) :
  valid ref = true ->
  let monday := monday_of ref - 7 in
  get_date_range now (lit "last_week") (Some ref)
  = if 1 <=? monday then Ret (day_start monday, day_end (monday + 6))
    else Raise OverflowError.
Proof.
  intros Hv monday. subst monday.
  destruct (monday_of_spec ref Hv) as (Hm1 & Hm2 & Hm3).
  pose proof (toordinal_range ref Hv) as Hr.
  pose proof (weekday_range ref) as Hw.
  unfold get_date_range. rewrite !period_is.
  change (if string_dec "last_week" "today" then true else false) with false.
  change (if string_dec "last_week" "week" then true else false) with false.
  change (if string_dec "last_week" "month" then true else false) with false.
  change (if string_dec "last_week" "year" then true else false) with false.
  change (if string_dec "last_week" "last_week" then true else false)
    with true.
  cbv iota.
  rewrite timedelta_days_small by lia. cbn [bind].
  rewrite sub_days by (exact Hv || lia).
  replace (toordinal ref - (weekday ref + 7)) with (monday_of ref - 7)
    by (unfold monday_of; lia).
  replace (monday_of ref - 7 <=? MAXORDINAL) with true
    by (symmetry; apply Z.leb_le; lia).
  rewrite andb_true_r.
  destruct (1 <=? monday_of ref - 7) eqn:E.
  - apply Z.leb_le in E.
    replace (0 <? monday_of ref - 7) with true
      by (symmetry; apply Z.ltb_lt; lia).
    cbn [bind]. rewrite week_from_spec by (exact Hv || lia).
    replace (monday_of ref - 7 + 6 <=? MAXORDINAL) with true
      by (symmetry; apply Z.leb_le; lia).
    reflexivity.
  - apply Z.leb_gt in E.
    replace (0 <? monday_of ref - 7) with false
      by (symmetry; apply Z.ltb_ge; lia).
    reflexivity.
Qed.

Lemma get_date_range_last_week_witness :
  let monday := monday_of (mk_datetime 2024 2 15 10 30 0 0) - 7 in
  get_date_range (mk_datetime 2024 1 1 0 0 0 0) (lit "last_week")
    (Some (mk_datetime 2024 2 15 10 30 0 0))
  = if 1 <=? monday then Ret (day_start monday, day_end (monday + 6))
    else Raise OverflowError.
Proof.
  apply (get_date_range_last_week (mk_datetime 2024 1 1 0 0 0 0)
           (mk_datetime 2024 2 15 10 30 0 0)).
  reflexivity.
Defined.

Lemma get_date_range_week_examples (now : datetime) :
  get_date_range now (lit "week") (Some (mk_datetime 2024 2 15 10 30 0 0))
  = Ret (mk_datetime 2024 2 12 0 0 0 0,
         mk_datetime 2024 2 18 23 59 59 999999)
  /\ get_date_range now (lit "week") (Some (mk_datetime 9999 12 28 0 0 0 0))
     = Raise OverflowError
  /\ get_date_range now (lit "week") (Some (mk_datetime 9999 12 26 0 0 0 0))
     = Ret (mk_datetime 9999 12 20 0 0 0 0,
            mk_datetime 9999 12 26 23 59 59 999999)
  /\ get_date_range now (lit "last_week")
       (Some (mk_datetime 2024 2 15 10 30 0 0))
     = Ret (mk_datetime 2024 2 5 0 0 0 0,
            mk_datetime 2024 2 11 23 59 59 999999)
  /\ get_date_range now (lit "last_week") (Some (mk_datetime 1 1 7 0 0 0 0))
     = Raise OverflowError
  /\ get_date_range now (lit "last_week") (Some (mk_datetime 1 1 8 0 0 0 0))
     = Ret (mk_datetime 1 1 1 0 0 0 0, mk_datetime 1 1 7 23 59 59 999999).
Proof. repeat split; vm_compute; reflexivity. Qed.

(** *** The month before *)

Lemma after_first_day (y m : Z) :
  1 <= y <= 9999 -> 1 <= m <= 12 -> 1 < y \/ 1 < m ->
  1 < ymd2ord y m 1.
Proof.
  intros Hy Hm Hlater.
  change 1 with (ymd2ord 1 1 1) at 1.
  apply ymd2ord_lt; [reflexivity|apply first_of_month_valid; lia|].
  unfold date_lt. lia.
Qed.

(** The day before the first of a month is the last of the month
    before. *)
Lemma before_first_of_month (y m : Z) :
  1 <= y <= 9999 -> 1 <= m <= 12 -> 1 < y \/ 1 < m ->
  let '(py, pm) := if m =? 1 then (y - 1, 12) else (y, m - 1) in
  ord2ymd (ymd2ord y m 1 - 1) = (py, pm, days_in_month py pm).
Proof.
  intros Hy Hm Hlater. destruct (m =? 1) eqn:E.
  - apply Z.eqb_eq in E. subst m.
    pose proof (before_next_month (y - 1) 12 ltac:(lia)) as Hb.
    change (12 <? 12) with false in Hb. cbv iota in Hb.
    replace (y - 1 + 1) with y in Hb by lia. rewrite Hb.
    apply ord2ymd_ymd2ord, last_of_month_valid; lia.
  - apply Z.eqb_neq in E.
    pose proof (before_next_month y (m - 1) ltac:(lia)) as Hb.
    replace (m - 1 <? 12) with true in Hb by (symmetry; apply Z.ltb_lt; lia).
    replace (m - 1 + 1) with m in Hb by lia. rewrite Hb.
    apply ord2ymd_ymd2ord, last_of_month_valid; lia.
Qed.

(** X22.  The range of the month before.  For a valid reference date, the
    period [last_month] runs from the first day of the month before, at
    midnight, to its last day at 23:59:59.999999; in January of the year
    1, which has no month before it, the call raises [ValueError]. *)
Theorem get_date_range_last_month (now ref : datetime) :
  valid ref = true ->
  let '(y, m) := previous_month ref in
  get_date_range now (lit "last_month") (Some ref)
  = if y =? 0 then Raise ValueError
    else Ret (mk_datetime y m 1 0 0 0 0,
              mk_datetime y m (days_in_month y m) 23 59 59 999999).
Proof.
  intros Hv. pose proof Hv as Hv'. apply valid_spec in Hv'.
  destruct Hv' as (Hd & Hh & Hmi & Hs & Hus).
  apply valid_date_spec in Hd. destruct Hd as (Hy & Hm & _).
  destruct ref as [y m d h mi s us].
  cbn [year month day hour minute second microsecond] in *.
  unfold previous_month. cbn [year month].
  unfold get_date_range. rewrite !period_is.
  change (if string_dec "last_month" "today" then true else false) with false.
  change (if string_dec "last_month" "week" then true else false) with false.
  change (if string_dec "last_month" "month" then true else false) with false.
  change (if string_dec "last_month" "year" then true else false) with false.
  change (if string_dec "last_month" "last_week" then true else false)
    with false.
  change (if string_dec "last_month" "last_month" then true else false)
    with true.
  cbv iota. cbn [month year].
  assert (Htime : valid_time h mi s us = true).
  { unfold valid_time, between. rewrite !andb_true_iff, !Z.leb_le. lia. }
  assert (Hnew : forall y' m', 1 <= y' <= 9999 -> 1 <= m' <= 12 ->
            forall h' mi' s' us', valid_time h' mi' s' us' = true ->
            new y' m' 1 h' mi' s' us'
            = Ret (mk_datetime y' m' 1 h' mi' s' us')).
  { intros y' m' Hy' Hm' h' mi' s' us' Ht. apply new_valid.
    unfold valid. cbn. rewrite first_of_month_valid by lia. exact Ht. }
  destruct (m =? 1) eqn:E1.
  - apply Z.eqb_eq in E1. subst m.
    unfold replace at 1.
    cbn [default year month day hour minute second microsecond].
    destruct (y - 1 =? 0) eqn:E0.
    + apply Z.eqb_eq in E0. assert (y = 1) by lia. subst y. reflexivity.
    + apply Z.eqb_neq in E0.
      rewrite Hnew by (lia || exact Htime). cbn [bind].
      unfold replace.
      cbn [default year month day hour minute second microsecond].
      rewrite !Hnew by (lia || reflexivity). cbn [bind].
      change (timedelta_microseconds 1) with (Ret (mk_timedelta 0 0 1)).
      cbn [bind].
      rewrite sub_one_microsecond;
        [|apply first_of_month_valid; lia|apply after_first_day; lia].
      pose proof (before_first_of_month y 1 ltac:(lia) ltac:(lia)
                    ltac:(lia)) as Hb.
      cbn [Z.eqb] in Hb. rewrite Hb. reflexivity.
  - apply Z.eqb_neq in E1.
    replace (y =? 0) with false by (symmetry; apply Z.eqb_neq; lia).
    unfold replace.
    cbn [default year month day hour minute second microsecond].
    rewrite Hnew by (lia || exact Htime). cbn [bind].
    cbn [default year month day hour minute second microsecond].
    rewrite !Hnew by (lia || reflexivity). cbn [bind].
    change (timedelta_microseconds 1) with (Ret (mk_timedelta 0 0 1)).
    cbn [bind].
    rewrite sub_one_microsecond;
      [|apply first_of_month_valid; lia|apply after_first_day; lia].
    pose proof (before_first_of_month y m ltac:(lia) ltac:(lia)
                  ltac:(lia)) as Hb.
    replace (m =? 1) with false in Hb by (symmetry; apply Z.eqb_neq; lia).
    rewrite Hb. reflexivity.
Qed.

Lemma get_date_range_last_month_witness :
  let '(y, m) := previous_month (mk_datetime 2024 3 31 10 30 0 0) in
  get_date_range (mk_datetime 2024 1 1 0 0 0 0) (lit "last_month")
    (Some (mk_datetime 2024 3 31 10 30 0 0))
  = if y =? 0 then Raise ValueError
    else Ret (mk_datetime y m 1 0 0 0 0,
              mk_datetime y m (days_in_month y m) 23 59 59 999999).
Proof.
  apply (get_date_range_last_month (mk_datetime 2024 1 1 0 0 0 0)
           (mk_datetime 2024 3 31 10 30 0 0)).
  reflexivity.
Defined.

Lemma get_date_range_last_month_examples (now : datetime) :
  get_date_range now (lit "last_month")
    (Some (mk_datetime 2024 3 31 10 30 0 0))
  = Ret (mk_datetime 2024 2 1 0 0 0 0,
         mk_datetime 2024 2 29 23 59 59 999999)
  /\ get_date_range now (lit "last_month")
       (Some (mk_datetime 2024 1 15 10 30 0 0))
     = Ret (mk_datetime 2023 12 1 0 0 0 0,
            mk_datetime 2023 12 31 23 59 59 999999)
  /\ get_date_range now (lit "last_month")
       (Some (mk_datetime 1 1 15 10 30 0 0))
     = Raise ValueError.
Proof. repeat split; vm_compute; reflexivity. Qed.

(** *** The day and the year *)

Lemma eqb_str_neq (a b : str) : a <> b -> eqb_str a b = false.
Proof.
  intros H. unfold eqb_str.
  destruct (list_eq_dec ascii_dec a b); [congruence|reflexivity].
Qed.

(** X23.  For a valid reference date the periods [today] and [year] never
    raise: they are the day of the date, and the whole of its year, from
    midnight to 23:59:59.999999.  A period that is not one of the six
    names is taken as [today]. *)
Theorem get_date_range_day_and_year (now ref : datetime) (period : str) :
  valid ref = true ->
  get_date_range now (lit "today") (Some ref)
  = Ret (mk_datetime (year ref) (month ref) (day ref) 0 0 0 0,
         mk_datetime (year ref) (month ref) (day ref) 23 59 59 999999)
  /\ get_date_range now (lit "year") (Some ref)
     = Ret (mk_datetime (year ref) 1 1 0 0 0 0,
            mk_datetime (year ref) 12 31 23 59 59 999999)
  /\ (~ In period known_periods ->
      get_date_range now period (Some ref)
      = get_date_range now (lit "today") (Some ref)).
Proof.
  intros Hv. pose proof Hv as Hv'. apply valid_spec in Hv'.
  destruct Hv' as (Hd & _). pose proof Hd as Hd'.
  apply valid_date_spec in Hd'. destruct Hd' as (Hy & Hm & _).
  destruct ref as [y m d h mi s us].
  cbn [year month day hour minute second microsecond] in *.
  assert (Hday : day_bounds (mk_datetime y m d h mi s us)
                 = Ret (mk_datetime y m d 0 0 0 0,
                        mk_datetime y m d 23 59 59 999999)).
  { unfold day_bounds, replace.
    cbn [default year month day hour minute second microsecond].
    rewrite !new_valid by (unfold valid; cbn; rewrite Hd; reflexivity).
    reflexivity. }
  split; [exact Hday|]. split.
  - unfold get_date_range. rewrite !period_is.
    change (if string_dec "year" "today" then true else false) with false.
    change (if string_dec "year" "week" then true else false) with false.
    change (if string_dec "year" "month" then true else false) with false.
    change (if string_dec "year" "year" then true else false) with true.
    cbv iota. unfold replace.
    cbn [default year month day hour minute second microsecond].
    assert (valid_date y 12 31 = true) as H31
      by (apply valid_date_spec; cbn; lia).
    rewrite (new_valid y 1 1 0 0 0 0)
      by (unfold valid; cbn; rewrite first_of_month_valid by lia;
          reflexivity).
    rewrite (new_valid y 12 31 23 59 59 999999)
      by (unfold valid; cbn; rewrite H31; reflexivity).
    reflexivity.
  - intros Hnot. unfold get_date_range at 1.
    rewrite !eqb_str_neq;
      [reflexivity|..];
      intros E; apply Hnot; rewrite E; cbn; tauto.
Qed.

Lemma get_date_range_day_and_year_witness :
  let ref := mk_datetime 2024 2 29 10 30 0 5 in
  let now := mk_datetime 2024 1 1 0 0 0 0 in
  get_date_range now (lit "today") (Some ref)
  = Ret (mk_datetime (year ref) (month ref) (day ref) 0 0 0 0,
         mk_datetime (year ref) (month ref) (day ref) 23 59 59 999999)
  /\ get_date_range now (lit "year") (Some ref)
     = Ret (mk_datetime (year ref) 1 1 0 0 0 0,
            mk_datetime (year ref) 12 31 23 59 59 999999)
  /\ (~ In (lit "quarter") known_periods ->
      get_date_range now (lit "quarter") (Some ref)
      = get_date_range now (lit "today") (Some ref)).
Proof.
  apply (get_date_range_day_and_year (mk_datetime 2024 1 1 0 0 0 0)
           (mk_datetime 2024 2 29 10 30 0 5) (lit "quarter")).
  reflexivity.
Defined.

(** *** Business days and weekends *)

(** The count of the loop, for any two valid dates. *)
Lemma business_loop_count (start_date end_date : datetime) :
  valid start_date = true -> valid end_date = true ->
  toordinal end_date < MAXORDINAL ->
  calculate_business_days start_date end_date
  = Some (Ret (count_business (toordinal start_date)
                 (Z.to_nat (last_counted start_date end_date
                            - toordinal start_date + 1)))).
Proof.
  intros Hs He Hmax. unfold calculate_business_days.
  set (last := last_counted start_date end_date).
  set (first := toordinal start_date).
  assert (Hlast : toordinal end_date - 1 <= last <= toordinal end_date).
  { unfold last, last_counted. destruct (_ <=? _); lia. }
  destruct (Z_le_gt_dec first (last + 1)) as [Hle|Hgt].
  - replace (business_loop (loop_bound start_date end_date)
                            start_date end_date 0)
      with (business_loop (loop_bound start_date end_date)
                          (at_day (first + 0) start_date) end_date 0)
      by (rewrite Z.add_0_r; unfold first;
          rewrite at_day_toordinal by exact Hs; reflexivity).
    unfold first.
    rewrite (business_loop_spec start_date end_date last Hs He eq_refl
               ltac:(lia) (Z.to_nat (last - first + 1))
               (loop_bound start_date end_date) 0 0);
      fold first; try lia.
    + rewrite Z.add_0_r. reflexivity.
    + unfold loop_bound. fold first. lia.
  - replace (Z.to_nat (last - first + 1)) with O by lia.
    unfold loop_bound. cbn [business_loop count_business].
    rewrite le_instant by assumption.
    pose proof (tod_range _ Hs). pose proof (tod_range _ He).
    replace (instant start_date <=? instant end_date) with false;
      [reflexivity|].
    symmetry. apply Z.leb_gt. unfold instant. fold first.
    unfold last, last_counted in Hgt.
    destruct (tod start_date <=? tod end_date) eqn:E;
      [|apply Z.leb_gt in E]; lia.
Qed.

Lemma is_business_day_mod (o : Z) :
  is_business_day o = is_business_day (o mod 7).
Proof.
  unfold is_business_day. rewrite Zplus_mod_idemp_l. reflexivity.
Qed.

Lemma count_business_mod (n : nat) (first : Z) :
  count_business first n = count_business (first mod 7) n.
Proof.
  revert first. induction n as [|n IH]; intros first; [reflexivity|].
  cbn [count_business]. rewrite <- is_business_day_mod.
  rewrite (IH (first + 1)), (IH (first mod 7 + 1)).
  rewrite Zplus_mod_idemp_l. reflexivity.
Qed.

Lemma count_business_week (first : Z) : count_business first 7 = 5.
Proof.
  rewrite count_business_mod.
  pose proof (Z.mod_pos_bound first 7 ltac:(lia)) as H.
  assert (first mod 7 = 0 \/ first mod 7 = 1 \/ first mod 7 = 2
          \/ first mod 7 = 3 \/ first mod 7 = 4 \/ first mod 7 = 5
          \/ first mod 7 = 6) as Hc by lia.
  destruct Hc as [E|[E|[E|[E|[E|[E|E]]]]]]; rewrite E; reflexivity.
Qed.

Lemma count_business_app (a b : nat) (first : Z) :
  count_business first (a + b)
  = count_business first a + count_business (first + Z.of_nat a) b.
Proof.
  revert first. induction a as [|a IH]; intros first.
  - cbn. rewrite Z.add_0_r. reflexivity.
  - cbn [Nat.add count_business]. rewrite IH.
    replace (first + 1 + Z.of_nat a) with (first + Z.of_nat (S a)) by lia.
    lia.
Qed.

Lemma count_business_weeks (k : nat) (first : Z) :
  count_business first (7 * k) = 5 * Z.of_nat k.
Proof.
  revert first. induction k as [|k IH]; intros first; [reflexivity|].
  replace (7 * S k)%nat with (7 + 7 * k)%nat by lia.
  rewrite count_business_app, count_business_week, IH. lia.
Qed.

(** X24.  From a date to the same date, [calculate_business_days] is 1 on a
    working day and 0 on a day that [is_weekend] calls a weekend. *)
Theorem business_days_of_one_day (date_obj : datetime) :
  valid date_obj = true -> toordinal date_obj < MAXORDINAL ->
  calculate_business_days date_obj date_obj
  = Some (Ret (if is_weekend date_obj then 0 else 1)).
Proof.
  intros Hv Hmax. rewrite business_loop_count by assumption.
  unfold last_counted. rewrite Z.leb_refl.
  replace (Z.to_nat (toordinal date_obj - toordinal date_obj + 1))
    with 1%nat by lia.
  cbn [count_business]. unfold is_business_day, is_weekend.
  fold (weekday date_obj).
  destruct (weekday date_obj <? 5) eqn:E.
  - apply Z.ltb_lt in E.
    replace (5 <=? weekday date_obj) with false
      by (symmetry; apply Z.leb_gt; lia).
    reflexivity.
  - apply Z.ltb_ge in E.
    replace (5 <=? weekday date_obj) with true
      by (symmetry; apply Z.leb_le; lia).
    reflexivity.
Qed.

Lemma business_days_of_one_day_witness :
  calculate_business_days (mk_datetime 2024 2 17 10 30 0 0)
    (mk_datetime 2024 2 17 10 30 0 0)
  = Some (Ret (if is_weekend (mk_datetime 2024 2 17 10 30 0 0)
               then 0 else 1)).
Proof.
  apply business_days_of_one_day; [reflexivity|].
  vm_compute. reflexivity.
Defined.

(** X25.  Whole weeks.  When the days from the start date to the end date,
    both counted, are [k] whole weeks, and the end is not earlier in its
    day than the start, the count is five business days a week. *)
Theorem business_days_of_whole_weeks (start_date end_date : datetime)
    (k : Z) :
  valid start_date = true -> valid end_date = true ->
  toordinal end_date < MAXORDINAL ->
  tod start_date <= tod end_date ->
  0 <= k ->
  toordinal end_date - toordinal start_date + 1 = 7 * k ->
  calculate_business_days start_date end_date = Some (Ret (5 * k)).
Proof.
  intros Hs He Hmax Htod Hk Hspan.
  rewrite business_loop_count by assumption.
  unfold last_counted.
  replace (tod start_date <=? tod end_date) with true
    by (symmetry; apply Z.leb_le; exact Htod).
  rewrite Hspan.
  replace (Z.to_nat (7 * k)) with (7 * Z.to_nat k)%nat by lia.
  rewrite count_business_weeks. do 2 f_equal. lia.
Qed.

Lemma business_days_of_whole_weeks_witness :
  calculate_business_days (mk_datetime 2024 2 14 9 0 0 0)
    (mk_datetime 2024 2 27 17 0 0 0)
  = Some (Ret (5 * 2)).
Proof.
  apply business_days_of_whole_weeks;
    try reflexivity; vm_compute; (reflexivity || discriminate).
Defined.

(** *** Relative phrases *)

Import PyNum PyNumFacts.

Lemma absent_app (c : ascii) (a b : str) :
  absent c a -> absent c b -> absent c (a ++ b).
Proof.
  unfold absent. intros Ha Hb. rewrite forallb_app, Ha, Hb. reflexivity.
Qed.

Lemma absent_not_in (c : ascii) (s : str) : absent c s -> ~ In c s.
Proof.
  unfold absent. intros H Hin. rewrite forallb_forall in H.
  specialize (H c Hin). rewrite Ascii.eqb_refl in H. discriminate.
Qed.

Lemma absent_digits (c : ascii) (ds : str) :
  isdigit c = false -> forallb isdigit ds = true -> absent c ds.
Proof.
  intros Hc. apply forallb_impl. intros d Hd.
  destruct (Ascii.eqb d c) eqn:E; [|reflexivity].
  apply Ascii.eqb_eq in E. congruence.
Qed.

Lemma startswith_In (s p : str) (c : ascii) :
  startswith s p = true -> In c p -> In c s.
Proof.
  intros H. apply startswith_iff in H. destruct H as (r & ->).
  intros Hc. apply in_or_app. left. exact Hc.
Qed.

Lemma contains_In (sub s : str) (c : ascii) :
  contains sub s = true -> In c sub -> In c s.
Proof.
  intros H. apply contains_iff in H. destruct H as (a & b & ->).
  intros Hc. apply in_or_app. right. apply in_or_app. left. exact Hc.
Qed.

Lemma contains_absent (sub s : str) (c : ascii) :
  In c sub -> absent c s -> contains sub s = false.
Proof.
  intros Hc Ha. destruct (contains sub s) eqn:E; [|reflexivity].
  exfalso. exact (absent_not_in c s Ha (contains_In sub s c E Hc)).
Qed.

Lemma match_relative_at_In (kw s : str) (r : Z * unit_kind) (c : ascii) :
  match_relative_at kw s = Some r -> In c kw -> In c s.
Proof.
  unfold match_relative_at.
  destruct (startswith s (kw ++ lit " ")) eqn:E; [|discriminate].
  intros _ Hc. apply (startswith_In _ _ c E). apply in_or_app. left. exact Hc.
Qed.

Lemma search_relative_In (kw s : str) (r : Z * unit_kind) (c : ascii) :
  search_relative kw s = Some r -> In c kw -> In c s.
Proof.
  induction s as [|d s IH]; cbn [search_relative].
  - destruct (match_relative_at kw []) eqn:E; [|discriminate].
    intros _. apply (match_relative_at_In _ _ _ _ E).
  - destruct (match_relative_at kw (d :: s)) eqn:E.
    + intros _. apply (match_relative_at_In _ _ _ _ E).
    + intros H Hc. right. exact (IH H Hc).
Qed.

Lemma search_relative_absent (kw s : str) (c : ascii) :
  In c kw -> absent c s -> search_relative kw s = None.
Proof.
  intros Hc Ha. destruct (search_relative kw s) eqn:E; [|reflexivity].
  exfalso. exact (absent_not_in c s Ha (search_relative_In kw s _ c E Hc)).
Qed.

Lemma search_relative_head (kw s : str) (r : Z * unit_kind) :
  match_relative_at kw s = Some r -> search_relative kw s = Some r.
Proof. intros H. destruct s; cbn [search_relative]; rewrite H; reflexivity. Qed.

(** The pattern finds the number and the unit of a phrase. *)
Lemma match_relative_phrase (kw : str) (n : Z) (u : unit_kind)
    (plural : bool) :
  0 <= n ->
  match_relative_at kw (relative_phrase kw n u plural) = Some (n, u).
Proof.
  intros Hn. destruct (int_str_spec n Hn) as (D1 & D2 & D3).
  unfold match_relative_at, relative_phrase.
  replace (kw ++ lit " " ++ int_str n ++ lit " " ++ unit_word u
           ++ (if plural then lit "s" else []))
    with ((kw ++ lit " ")
          ++ int_str n ++ lit " " ++ unit_word u
          ++ (if plural then lit "s" else []))
    by (rewrite <- app_assoc; reflexivity).
  rewrite startswith_app.
  replace (List.length kw + 1)%nat with (List.length (kw ++ lit " "))
    by (rewrite length_app; reflexivity).
  rewrite skipn_length_app.
  rewrite span_app; [|exact D2|reflexivity].
  destruct (int_str n) as [|d ds] eqn:E; [congruence|].
  cbn [lit list_ascii_of_string app]. rewrite Ascii.eqb_refl.
  rewrite D3. destruct u, plural; reflexivity.
Qed.

Lemma timedelta_weeks_small (n : Z) :
  -999999999 <= 7 * n <= 999999999 ->
  timedelta_weeks n = Ret (mk_timedelta (7 * n) 0 0).
Proof.
  intros Hn. unfold timedelta_weeks, new_timedelta, US_PER_DAY, US_PER_SECOND.
  change (86400 * 1000000) with 86400000000.
  replace (((0 + 7 * n) * 86400 + 0 + 60 * 0 + 3600 * 0) * 1000000 + 0)
    with (7 * n * 86400000000) by lia.
  rewrite Z.div_mul, Z.mod_mul by lia.
  replace (999999999 <? Z.abs (7 * n)) with false
    by (symmetry; apply Z.ltb_ge; lia).
  reflexivity.
Qed.

Lemma offset_days (n : Z) (u : unit_kind) :
  -999999999 <= n * unit_days u <= 999999999 ->
  offset n u = Ret (mk_timedelta (n * unit_days u) 0 0).
Proof.
  intros H. destruct u; cbn [offset unit_days] in *.
  - rewrite Z.mul_1_r in *. apply timedelta_days_small, H.
  - rewrite timedelta_weeks_small by lia. do 2 f_equal. lia.
  - apply timedelta_days_small, H.
Qed.

Lemma not_upper_lower (s : str) :
  forallb (fun c => negb (isupper c)) s = true -> lower s = s.
Proof.
  intros H. unfold lower. rewrite <- (map_id s) at 2.
  apply map_ext_in. intros c Hc. rewrite forallb_forall in H.
  specialize (H c Hc). apply negb_true_iff in H.
  unfold lower_char. rewrite H. reflexivity.
Qed.

(** A phrase is in lower case, without whitespace at its ends, and has
    none of the words of the dictionary in it. *)
Lemma relative_phrase_plain (kw : str) (n : Z) (u : unit_kind)
    (plural : bool) :
  0 <= n -> kw = lit "last" \/ kw = lit "next" ->
  let text := relative_phrase kw n u plural in
  strip (lower text) = text
  /\ (forall ref, first_match (relative_patterns ref) text = None)
  /\ (kw = lit "next" -> search_relative (lit "last") text = None).
Proof.
  intros Hn Hkw text. destruct (int_str_spec n Hn) as (D1 & D2 & D3).
  assert (Hletter : forall c, isdigit c = false -> absent c (int_str n))
    by (intros c Hc; apply absent_digits; assumption).
  assert (Habs : forall c, isdigit c = false -> absent c kw ->
            absent c (lit " ") ->
            absent c (unit_word u ++ (if plural then lit "s" else [])) ->
            absent c text).
  { intros c Hc H1 H2 H3. unfold text, relative_phrase.
    do 4 (apply absent_app; auto). }
  split; [|split].
  - rewrite not_upper_lower.
    + apply trimmed_strip. unfold text, relative_phrase. split.
      * destruct Hkw as [-> | ->]; reflexivity.
      * rewrite !rev_app_distr.
        destruct u, plural; reflexivity.
    + unfold text, relative_phrase. rewrite !forallb_app.
      replace (forallb (fun c => negb (isupper c)) (int_str n)) with true.
      * destruct Hkw as [-> | ->], u, plural; reflexivity.
      * symmetry. apply (forallb_impl isdigit); [|exact D2].
        intros c. ascii_cases c; intros Hc; (discriminate || reflexivity).
  - intros ref. unfold relative_patterns. cbn [first_match].
    destruct u.
    + rewrite (contains_absent (lit "today") text "o"),
        (contains_absent (lit "yesterday") text "r"),
        (contains_absent (lit "tomorrow") text "o"),
        (contains_absent (lit "day before yesterday") text "o"),
        (contains_absent (lit "day after tomorrow") text "o");
        try reflexivity; try (cbn; tauto);
        apply Habs; try reflexivity;
        destruct Hkw as [-> | ->], plural; reflexivity.
    + rewrite (contains_absent (lit "today") text "o"),
        (contains_absent (lit "yesterday") text "r"),
        (contains_absent (lit "tomorrow") text "o"),
        (contains_absent (lit "day before yesterday") text "o"),
        (contains_absent (lit "day after tomorrow") text "o");
        try reflexivity; try (cbn; tauto);
        apply Habs; try reflexivity;
        destruct Hkw as [-> | ->], plural; reflexivity.
    + rewrite (contains_absent (lit "today") text "d"),
        (contains_absent (lit "yesterday") text "y"),
        (contains_absent (lit "tomorrow") text "r"),
        (contains_absent (lit "day before yesterday") text "d"),
        (contains_absent (lit "day after tomorrow") text "d");
        try reflexivity; try (cbn; tauto);
        apply Habs; try reflexivity;
        destruct Hkw as [-> | ->], plural; reflexivity.
  - intros ->. apply (search_relative_absent _ _ "l"); [cbn; tauto|].
    apply Habs; try reflexivity. destruct u, plural; reflexivity.
Qed.

Section Relative.

Variable dateutil_parse : str -> result datetime.
Variable now : datetime.

(** What is left of [parse_natural_date] when no word of the dictionary
    occurs in the text. *)
Lemma parse_natural_date_no_word (text : str) (ref : datetime) :
  valid ref = true ->
  3 <= toordinal ref <= MAXORDINAL - 2 ->
  first_match (relative_patterns ref) (strip (lower text)) = None ->
  parse_natural_date dateutil_parse now text (Some ref)
  = match search_relative (lit "last") (strip (lower text)) with
    | Some (number, u) => td <- offset number u ;; sub ref td
    | None =>
        match search_relative (lit "next") (strip (lower text)) with
        | Some (number, u) => td <- offset number u ;; add ref td
        | None =>
            match dateutil_parse (strip (lower text)) with
            | Ret d => Ret d
            | Raise _ => Ret ref
            end
        end
    end.
Proof.
  intros Hv Hr Hfirst. unfold MAXORDINAL in Hr.
  unfold parse_natural_date.
  change (timedelta_days 1) with (Ret (mk_timedelta 1 0 0)).
  change (timedelta_days 2) with (Ret (mk_timedelta 2 0 0)).
  cbn [bind].
  rewrite (sub_plus_days ref 1), (sub_plus_days ref 2),
    (add_plus_days ref 1), (add_plus_days ref 2)
    by (try exact Hv; unfold MAXORDINAL; lia).
  cbn [bind]. change (- (1)) with (-1). change (- (2)) with (-2).
  fold (relative_patterns ref). rewrite Hfirst. reflexivity.
Qed.

Lemma parse_last_phrase (ref : datetime) (n : Z) (u : unit_kind)
    (plural : bool) :
  valid ref = true ->
  3 <= toordinal ref <= MAXORDINAL - 2 ->
  0 <= n ->
  1 <= toordinal ref - n * unit_days u ->
  parse_natural_date dateutil_parse now
    (relative_phrase (lit "last") n u plural) (Some ref)
  = Ret (plus_days ref (- (n * unit_days u))).
Proof.
  intros Hv Hr Hn Hrange. set (k := n * unit_days u) in *.
  assert (0 <= k) as Hk by (unfold k; destruct u; cbn; lia).
  unfold MAXORDINAL in *.
  destruct (relative_phrase_plain (lit "last") n u plural Hn
              ltac:(auto)) as (Hs & Hf & _).
  cbv zeta in Hs, Hf.
  rewrite parse_natural_date_no_word;
    [|exact Hv|unfold MAXORDINAL; lia|rewrite Hs; apply Hf].
  rewrite Hs, (search_relative_head _ _ _
                 (match_relative_phrase (lit "last") n u plural Hn)).
  rewrite offset_days by (fold k; lia). cbn [bind]. fold k.
  apply sub_plus_days; [exact Hv|lia|unfold MAXORDINAL; lia].
Qed.

Lemma parse_next_phrase (ref : datetime) (n : Z) (u : unit_kind)
    (plural : bool) :
  valid ref = true ->
  3 <= toordinal ref <= MAXORDINAL - 2 ->
  0 <= n ->
  toordinal ref + n * unit_days u <= MAXORDINAL ->
  parse_natural_date dateutil_parse now
    (relative_phrase (lit "next") n u plural) (Some ref)
  = Ret (plus_days ref (n * unit_days u)).
Proof.
  intros Hv Hr Hn Hrange. set (k := n * unit_days u) in *.
  assert (0 <= k) as Hk by (unfold k; destruct u; cbn; lia).
  unfold MAXORDINAL in *.
  destruct (relative_phrase_plain (lit "next") n u plural Hn
              ltac:(auto)) as (Hs & Hf & Hl).
  cbv zeta in Hs, Hf, Hl.
  rewrite parse_natural_date_no_word;
    [|exact Hv|unfold MAXORDINAL; lia|rewrite Hs; apply Hf].
  rewrite Hs, (Hl eq_refl),
    (search_relative_head _ _ _
       (match_relative_phrase (lit "next") n u plural Hn)).
  rewrite offset_days by (fold k; lia). cbn [bind]. fold k.
  apply add_plus_days; [exact Hv|unfold MAXORDINAL; lia].
Qed.

(** X26.  Relative phrases.  [last <n> <unit>] and [last <n> <unit>s] are the
    reference date moved back by [n] days, weeks of 7 days or months of
    30 days, and [next <n> <unit>] is the reference date moved forward
    by as much, when the date arrived at is in the calendar. *)
Theorem parse_natural_date_relative (ref : datetime) (n : Z)
    (u : unit_kind) (plural : bool) :
  valid ref = true ->
  3 <= toordinal ref <= MAXORDINAL - 2 ->
  0 <= n ->
  let k := n * unit_days u in
  (1 <= toordinal ref - k ->
   parse_natural_date dateutil_parse now
     (relative_phrase (lit "last") n u plural) (Some ref)
   = Ret (plus_days ref (- k)))
  /\ (toordinal ref + k <= MAXORDINAL ->
      parse_natural_date dateutil_parse now
        (relative_phrase (lit "next") n u plural) (Some ref)
      = Ret (plus_days ref k)).
Proof.
  intros Hv Hr Hn k. subst k. split; intros Hrange.
  - apply parse_last_phrase; assumption.
  - apply parse_next_phrase; assumption.
Qed.

(** X27.  [next] undoes [last]: from the date that [last <n> <unit>] gives,
    [next <n> <unit>] gives the reference date back. *)
Theorem parse_natural_date_next_undoes_last (ref : datetime) (n : Z)
    (u : unit_kind) (plural : bool) :
  valid ref = true ->
  toordinal ref <= MAXORDINAL - 2 ->
  0 <= n ->
  3 <= toordinal ref - n * unit_days u ->
  (earlier <- parse_natural_date dateutil_parse now
                (relative_phrase (lit "last") n u plural) (Some ref) ;;
   parse_natural_date dateutil_parse now
     (relative_phrase (lit "next") n u plural) (Some earlier))
  = Ret ref.
Proof.
  intros Hv Hmax Hn Hk.
  assert (0 <= n * unit_days u) as Hk0 by (destruct u; cbn; lia).
  unfold MAXORDINAL in *.
  rewrite parse_last_phrase by (assumption || (unfold MAXORDINAL; lia)).
  cbn [bind].
  set (k := n * unit_days u) in *.
  assert (Hord : toordinal (plus_days ref (- k)) = toordinal ref - k).
  { rewrite plus_days_toordinal by (unfold MAXORDINAL; lia). lia. }
  assert (Hvalid : valid (plus_days ref (- k)) = true)
    by (apply valid_at_day; [unfold MAXORDINAL; lia|exact Hv]).
  rewrite parse_next_phrase
    by (assumption || (rewrite Hord; unfold MAXORDINAL; fold k; lia)).
  fold k. f_equal. unfold plus_days at 1. rewrite Hord.
  unfold plus_days. rewrite at_day_at_day.
  replace (toordinal ref - k + k) with (toordinal ref) by lia.
  apply at_day_toordinal, Hv.
Qed.

End Relative.

Lemma parse_natural_date_relative_witness :
  let ref := mk_datetime 2024 2 15 10 30 0 0 in
  let parse := parse_natural_date (fun _ => Raise ValueError) ref in
  let k := 3 * unit_days Week in
  (1 <= toordinal ref - k ->
   parse (relative_phrase (lit "last") 3 Week true) (Some ref)
   = Ret (plus_days ref (- k)))
  /\ (toordinal ref + k <= MAXORDINAL ->
      parse (relative_phrase (lit "next") 3 Week true) (Some ref)
      = Ret (plus_days ref k)).
Proof.
  apply (parse_natural_date_relative (fun _ => Raise ValueError)
           (mk_datetime 2024 2 15 10 30 0 0)
           (mk_datetime 2024 2 15 10 30 0 0) 3 Week true).
  - reflexivity.
  - vm_compute. split; discriminate.
  - lia.
Defined.

Lemma parse_natural_date_next_undoes_last_witness :
  let ref := mk_datetime 2024 2 15 10 30 0 0 in
  let parse := parse_natural_date (fun _ => Raise ValueError) ref in
  (earlier <- parse (relative_phrase (lit "last") 2 Month false) (Some ref) ;;
   parse (relative_phrase (lit "next") 2 Month false) (Some earlier))
  = Ret ref.
Proof.
  apply (parse_natural_date_next_undoes_last (fun _ => Raise ValueError)
           (mk_datetime 2024 2 15 10 30 0 0)
           (mk_datetime 2024 2 15 10 30 0 0) 2 Month false).
  - reflexivity.
  - vm_compute. discriminate.
  - lia.
  - vm_compute. discriminate.
Defined.

Lemma parse_natural_date_relative_examples :
  let ref := mk_datetime 2024 2 15 10 30 0 0 in
  let parse := parse_natural_date (fun _ => Raise ValueError) ref in
  relative_phrase (lit "last") 3 Week true = lit "last 3 weeks"
  /\ parse (lit "last 3 weeks") (Some ref)
     = Ret (mk_datetime 2024 1 25 10 30 0 0)
  /\ parse (lit "Next 10 Days") (Some ref)
     = Ret (mk_datetime 2024 2 25 10 30 0 0)
  /\ parse (lit "next 1 month") (Some ref)
     = Ret (mk_datetime 2024 3 16 10 30 0 0)
  /\ parse (lit "last 1000000000 days") (Some ref) = Raise OverflowError
  /\ parse (lit "last 999999 days") (Some ref) = Raise OverflowError
  /\ parse (lit "next 2 days, not today") (Some ref) = Ret ref.
Proof. cbv zeta. repeat split; vm_compute; reflexivity. Qed.

(** *** Names of months *)

(** X28.  [get_month_name] never raises.  It answers [Invalid] exactly for the
    numbers outside 1 to 12 (for 0 too, where the bare index [-1] would
    pick December), and different months have different names. *)
Theorem get_month_name_total :
  (forall n, exists name,
      get_month_name n = Ret name
      /\ (name = lit "Invalid" <-> ~ 1 <= n <= 12))
  /\ (forall m m', 1 <= m <= 12 -> 1 <= m' <= 12 ->
        get_month_name m = get_month_name m' -> m = m').
Proof.
  split.
  - intros n. unfold get_month_name.
    destruct ((1 <=? n) && (n <=? 12)) eqn:E.
    + apply andb_true_iff in E. rewrite !Z.leb_le in E.
      pose proof E as Hc. apply month_cases in Hc.
      repeat (destruct Hc as [->|Hc]); try subst n;
        (eexists; split; [reflexivity|split; [discriminate|lia]]).
    + exists (lit "Invalid"). split; [reflexivity|].
      apply andb_false_iff in E. rewrite !Z.leb_gt in E.
      split; [lia|reflexivity].
  - intros m m' Hm Hm'. apply month_cases in Hm, Hm'.
    repeat (destruct Hm as [->|Hm]); try subst m;
      repeat (destruct Hm' as [->|Hm']); try subst m';
      intros H; (reflexivity || discriminate H).
Qed.

Lemma get_month_name_examples :
  get_month_name 1 = Ret (lit "January")
  /\ get_month_name 12 = Ret (lit "December")
  /\ get_month_name 0 = Ret (lit "Invalid")
  /\ FormatUtils.list_index months (0 - 1) = Ret (lit "December")
  /\ get_month_name 13 = Ret (lit "Invalid").
Proof. repeat split; reflexivity. Qed.

End DateFacts.
